(** * PromptTags: persistent prompt-tag injection (main.py)

    A shallow embedding of the reconcile cycle of the PromptTags plugin:
    tag loading ([_load_tags]), rendering ([_format_tag]), removal of the
    tagged regions left by the previous turn ([_build_cleanup_pattern],
    [_clean_string], [_remove_tags_from_context]) and anchor-grouped
    re-injection ([handle_inject_tags]).

    Python [str] values are sequences of Unicode code points; they are
    modelled as lists of code points ([N]), so that [str.strip] can be given
    its Unicode meaning.  Request messages are duck-typed Python values and
    are modelled by a JSON-like value type. *)

From Stdlib Require Import List NArith ZArith Bool Arith Lia Ascii.
From Stdlib Require String.
Import ListNotations.
Import String.StringSyntax.
Delimit Scope string_scope with string.

(** ** Python strings *)

Definition char := N.
Definition str := list char.

(** An ASCII string literal of the source, as a list of code points. *)
Definition lit (s : String.string) : str :=
  map N_of_ascii (String.list_ascii_of_string s).
Arguments lit s%_string.

Definition nl : char := 10%N.
Definition lt_sign : char := 60%N.
Definition gt_sign : char := 62%N.
Definition slash : char := 47%N.
Definition backslash : char := 92%N.
Definition letter_n : char := 110%N.

Definition str_eqb (a b : str) : bool :=
  if list_eq_dec N.eq_dec a b then true else false.

Module Py.

(** [str.isspace] on one code point, as CPython decides it: the ASCII
    table [_Py_ascii_whitespace] below 128, [_PyUnicode_IsWhitespace]
    above. *)
Definition is_space (c : char) : bool :=
  ((9 <=? c) && (c <=? 13) || (28 <=? c) && (c <=? 32)
   || (c =? 133) || (c =? 160) || (c =? 5760)
   || (8192 <=? c) && (c <=? 8202)
   || (c =? 8232) || (c =? 8233) || (c =? 8239) || (c =? 8287)
   || (c =? 12288))%N.

Fixpoint lstrip (s : str) : str :=
  match s with
  | [] => []
  | c :: s' => if is_space c then lstrip s' else s
  end.

Definition rstrip (s : str) : str := rev (lstrip (rev s)).

(** [s.strip()] *)
Definition strip (s : str) : str := rstrip (lstrip s).

(** [s.startswith(p)] *)
Fixpoint starts_with (p s : str) : bool :=
  match p, s with
  | [], _ => true
  | _ :: _, [] => false
  | a :: p', b :: s' => (a =? b)%N && starts_with p' s'
  end.

(** [s.find(p)]: index of the first occurrence, [None] for -1. *)
Fixpoint find (p s : str) : option nat :=
  if starts_with p s then Some 0
  else match s with
       | [] => None
       | _ :: s' => option_map S (find p s')
       end.

(** [p in s] *)
Definition contains (p s : str) : bool :=
  match find p s with Some _ => true | None => false end.

(** [sep.join(parts)] *)
Fixpoint join (sep : str) (parts : list str) : str :=
  match parts with
  | [] => []
  | [x] => x
  | x :: rest => x ++ sep ++ join sep rest
  end.

(** [s.replace("\\n", "\n")]: every non-overlapping occurrence, left to
    right, of the two characters backslash, n becomes one newline. *)
Fixpoint replace_escaped_newline (s : str) : str :=
  match s with
  | [] => []
  | c :: s' =>
      match s' with
      | d :: s'' =>
          if (c =? backslash)%N && (d =? letter_n)%N
          then nl :: replace_escaped_newline s''
          else c :: replace_escaped_newline s'
      | [] => [c]
      end
  end.

End Py.

(** ** The regular expressions of the source *)

(** The cleanup pattern of [_build_cleanup_pattern]:
    [re.escape(header) + ".*?" + re.escape(footer)] compiled with
    [re.DOTALL].  Both delimiters are escaped, so the pattern is determined
    by the two literal strings. *)
Record Pattern := { pat_header : str; pat_footer : str }.

Module Re.

(** [pattern.search(s)] as a span [(start, end)].  A match at position [p]
    exists iff the header is at [p] and the footer occurs at or after
    [p + len(header)]; the leftmost such [p] is the first occurrence of
    the header (a later header has less text behind it), and the lazy
    [.*?] under DOTALL stops at the first footer behind the header. *)
Definition search (pat : Pattern) (s : str) : option (nat * nat) :=
  match Py.find (pat_header pat) s with
  | None => None
  | Some p =>
      let body := p + length (pat_header pat) in
      match Py.find (pat_footer pat) (skipn body s) with
      | None => None
      | Some q => Some (p, body + q + length (pat_footer pat))
      end
  end.

(** [pattern.sub("", s)]: the text outside the leftmost non-overlapping
    matches.  Each round consumes at least one character when the header
    is not empty; [fuel] bounds the number of rounds. *)
Fixpoint sub_rounds (fuel : nat) (pat : Pattern) (s : str) : str :=
  match fuel with
  | 0 => s
  | S fuel' =>
      match search pat s with
      | None => s
      | Some (p, e) => firstn p s ++ sub_rounds fuel' pat (skipn e s)
      end
  end.

Definition sub_empty (pat : Pattern) (s : str) : str :=
  sub_rounds (length s) pat s.

(** [re.sub(r"\n{3,}", "\n\n", s)]: every maximal run of newlines longer
    than two is cut down to two.  [seen] counts the newlines of the
    current run already read. *)
Fixpoint collapse_from (seen : nat) (s : str) : str :=
  match s with
  | [] => []
  | c :: s' =>
      if (c =? nl)%N
      then if seen <? 2 then c :: collapse_from (S seen) s'
           else collapse_from (S seen) s'
      else c :: collapse_from 0 s'
  end.

Definition collapse_newlines (s : str) : str := collapse_from 0 s.

Definition is_name_char (c : char) : bool :=
  ((65 <=? c) && (c <=? 90) || (97 <=? c) && (c <=? 122)
   || (48 <=? c) && (c <=? 57) || (c =? 95) || (c =? 45))%N.

(** The tail of [TAG_NAME_PATTERN], [^[A-Za-z0-9_-]+$]: name characters
    up to the end of the string; [$] also matches just before a final
    newline. *)
Fixpoint name_chars_to_end (s : str) : bool :=
  match s with
  | [] => true
  | [c] => is_name_char c || (c =? nl)%N
  | c :: s' => is_name_char c && name_chars_to_end s'
  end.

End Re.

(** [TAG_NAME_PATTERN.match(s)], as a truth value. *)
Definition TAG_NAME_PATTERN (s : str) : bool :=
  match s with
  | [] => false
  | c :: _ => Re.is_name_char c && Re.name_chars_to_end s
  end.

(** ** Tag definitions and configuration *)

Definition MAX_TAGS : nat := 5.

(** [TAG_SLOT_KEYS = [f"tag_{i}" for i in range(1, MAX_TAGS + 1)]] *)
Definition TAG_SLOT_KEYS : list str :=
  map (fun i => lit "tag_" ++ [N.of_nat (48 + i)]) (seq 1 MAX_TAGS).

(** The dict appended to [self._tags]. *)
Record Tag := {
  slot : str;
  tag_name : str;
  content : str;
  position : str;
  header : str;
  footer : str
}.

(** One configuration slot.  The configuration shape gives the four keys
    the types bool, string, string and string, so that [str(...)] is the
    identity on the three strings; a key can be absent, [slot.get] then
    supplies its default. *)
Record Slot := {
  enabled : option bool;
  slot_tag_name : option str;
  slot_content : option str;
  injection_position : option str
}.

(** What [self.config.get(slot_key, {})] can return: a dict, or something
    that is not one. *)
Inductive ConfigValue :=
| CfgSlot (s : Slot)
| CfgOther.

Definition Config := list (str * ConfigValue).

Fixpoint config_get (cfg : Config) (key : str) : option ConfigValue :=
  match cfg with
  | [] => None
  | (k, v) :: rest => if str_eqb k key then Some v else config_get rest key
  end.

Definition or_default {A} (d : A) (o : option A) : A :=
  match o with Some a => a | None => d end.

Definition is_empty (s : str) : bool :=
  match s with [] => true | _ => false end.

Definition recognized_position (p : str) : bool :=
  str_eqb p (lit "user_message_before")
  || str_eqb p (lit "user_message_after")
  || str_eqb p (lit "system_prompt").

(** The body of the loop of [_load_tags] for one slot key: [None] where the
    source reaches [continue], the appended dict otherwise. *)
Definition load_slot (cfg : Config) (slot_key : str) : option Tag :=
  match or_default (CfgSlot (Build_Slot None None None None))
                   (config_get cfg slot_key) with
  | CfgOther => None
  | CfgSlot s =>
      if negb (or_default false (enabled s)) then None
      else
        let tag_name := Py.strip (or_default [] (slot_tag_name s)) in
        let content := or_default [] (slot_content s) in
        let content := Py.strip (Py.replace_escaped_newline content) in
        let position :=
          Py.strip (or_default (lit "user_message_after")
                               (injection_position s)) in
        if is_empty tag_name then None
        else if negb (TAG_NAME_PATTERN tag_name) then None
        else if is_empty content then None
        else
          let position :=
            if negb (recognized_position position)
            then lit "user_message_after" else position in
          Some {| slot := slot_key;
                  tag_name := tag_name;
                  content := content;
                  position := position;
                  header := [lt_sign] ++ tag_name ++ [gt_sign];
                  footer := [lt_sign; slash] ++ tag_name ++ [gt_sign] |}
  end.

Fixpoint load_slots (cfg : Config) (keys : list str) : list Tag :=
  match keys with
  | [] => []
  | k :: rest =>
      match load_slot cfg k with
      | Some t => t :: load_slots cfg rest
      | None => load_slots cfg rest
      end
  end.

Definition _load_tags (cfg : Config) : list Tag :=
  load_slots cfg TAG_SLOT_KEYS.

(** ** Rendering and cleaning *)

Definition _format_tag (tag : Tag) : str :=
  header tag ++ [nl] ++ content tag ++ [nl] ++ footer tag ++ [nl].

Definition _build_cleanup_pattern (tag : Tag) : Pattern :=
  {| pat_header := header tag; pat_footer := footer tag |}.

Definition _clean_string (text : str) (pattern : Pattern) : str :=
  let cleaned := Re.sub_empty pattern text in
  let cleaned := Re.collapse_newlines cleaned in
  Py.strip cleaned.

(** ** Request values *)

(** The values found in [req.contexts]: JSON-like data, with [VOther] for
    any object of another type. *)
#[warning="-register-all"]
Inductive pyval :=
| VNone
| VBool (b : bool)
| VInt (z : Z)
| VStr (s : str)
| VList (l : list pyval)
| VDict (d : list (str * pyval))
| VOther (id : nat).

(** [d.get(key, default)] *)
Fixpoint dict_get (key : str) (d : list (str * pyval)) (default : pyval)
  : pyval :=
  match d with
  | [] => default
  | (k, v) :: rest => if str_eqb k key then v else dict_get key rest default
  end.

(** [d[key] = v] on a copy: an existing key keeps its place, a new one goes
    last. *)
Fixpoint dict_set (key : str) (v : pyval) (d : list (str * pyval))
  : list (str * pyval) :=
  match d with
  | [] => [(key, v)]
  | (k, w) :: rest =>
      if str_eqb k key then (k, v) :: rest
      else (k, w) :: dict_set key v rest
  end.

(** The fields of [ProviderRequest] the plugin reads and writes. *)
Record ProviderRequest := {
  system_prompt : option str;
  prompt : option str;
  contexts : option (list pyval)
}.

(** ** Cleanup *)

Section Cleanup.

Variable tag : Tag.

Let pattern := _build_cleanup_pattern tag.

(** [header in text and footer in text] *)
Definition both_present (text : str) : bool :=
  Py.contains (header tag) text && Py.contains (footer tag) text.

(** The block the source repeats for a plain-string entry, for string
    content and for the text of a part: what happens to one text. *)
Inductive outcome (A : Type) :=
| Dropped
| Replaced (a : A)
| Kept.
Arguments Dropped {A}.
Arguments Replaced {A} a.
Arguments Kept {A}.

Definition clean_text (text : str) : outcome str :=
  if both_present text then
    let cleaned := _clean_string text pattern in
    if is_empty cleaned then Dropped
    else if negb (str_eqb cleaned text) then Replaced cleaned
    else Kept
  else Kept.

(** [system_prompt] and [prompt]: the new value and the increment of
    [removed]. *)
Definition clean_field (field : option str) : option str * nat :=
  match field with
  | None => (None, 0)
  | Some original =>
      if negb (is_empty original) && both_present original then
        let cleaned := _clean_string original pattern in
        (Some cleaned, if negb (str_eqb cleaned original) then 1 else 0)
      else (field, 0)
  end.

(** One part of a multipart content. *)
Definition clean_part (part : pyval) : outcome pyval :=
  match part with
  | VDict d =>
      match dict_get (lit "type") d VNone with
      | VStr ty =>
          if str_eqb ty (lit "text") then
            match dict_get (lit "text") d (VStr []) with
            | VStr text =>
                match clean_text text with
                | Dropped => Dropped
                | Replaced cleaned_text =>
                    Replaced (VDict (dict_set (lit "text")
                                              (VStr cleaned_text) d))
                | Kept => Kept
                end
            | _ => Kept
            end
          else Kept
      | _ => Kept
      end
  | _ => Kept
  end.

(** The loop over the parts: [(cleaned_parts, has_changes, removed)]. *)
Fixpoint clean_parts (content : list pyval) : list pyval * bool * nat :=
  match content with
  | [] => ([], false, 0)
  | part :: rest =>
      let '(cleaned_parts, has_changes, removed) := clean_parts rest in
      match clean_part part with
      | Dropped => (cleaned_parts, true, removed)
      | Replaced part_copy => (part_copy :: cleaned_parts, true, S removed)
      | Kept => (part :: cleaned_parts, has_changes, removed)
      end
  end.

(** One entry of [req.contexts]: what is appended to [filtered_contexts]
    ([None]: nothing) and the increment of [removed]. *)
Definition clean_message (msg : pyval) : option pyval * nat :=
  match msg with
  | VStr s =>
      match clean_text s with
      | Dropped => (None, 1)
      | Replaced cleaned => (Some (VStr cleaned), 1)
      | Kept => (Some msg, 0)
      end
  | VDict d =>
      match dict_get (lit "content") d (VStr []) with
      | VStr content =>
          match clean_text content with
          | Dropped => (None, 1)
          | Replaced cleaned =>
              (Some (VDict (dict_set (lit "content") (VStr cleaned) d)), 1)
          | Kept => (Some msg, 0)
          end
      | VList content =>
          let '(cleaned_parts, has_changes, removed) :=
            clean_parts content in
          match cleaned_parts with
          | [] => (None, removed + 1)
          | _ :: _ =>
              if has_changes
              then (Some (VDict (dict_set (lit "content")
                                          (VList cleaned_parts) d)),
                    removed)
              else (Some msg, removed)
          end
      | _ => (None, 0)
      end
  | _ => (Some msg, 0)
  end.

(** The loop over [req.contexts]: [(filtered_contexts, removed)]. *)
Fixpoint clean_contexts (msgs : list pyval) : list pyval * nat :=
  match msgs with
  | [] => ([], 0)
  | msg :: rest =>
      let '(filtered, removed) := clean_contexts rest in
      match clean_message msg with
      | (Some m, k) => (m :: filtered, k + removed)
      | (None, k) => (filtered, k + removed)
      end
  end.

Definition _remove_tags_from_context (req : ProviderRequest)
  : ProviderRequest * nat :=
  let '(sp, n1) := clean_field (system_prompt req) in
  let '(pr, n2) := clean_field (prompt req) in
  let '(cx, n3) :=
    match contexts req with
    | Some (msg :: rest) =>
        let '(filtered, n) := clean_contexts (msg :: rest) in
        (Some filtered, n)
    | other => (other, 0)
    end in
  ({| system_prompt := sp; prompt := pr; contexts := cx |}, n1 + n2 + n3).

End Cleanup.

Arguments Dropped {A}.
Arguments Replaced {A} a.
Arguments Kept {A}.

(** ** Cleanup, with the type errors of Python *)

(** The same code once more, now over operations that can raise: [None]
    stands for the TypeError or AttributeError Python raises when an
    operand has the wrong type.  The source guards each of them with an
    [isinstance] test; [remove_checked] below keeps the guards and the
    operations apart, so that "no error" is a statement to prove. *)

Definition raises_or (A : Type) := option A.

Definition ret {A} (a : A) : raises_or A := Some a.

Definition bind {A B} (c : raises_or A) (k : A -> raises_or B)
  : raises_or B :=
  match c with Some a => k a | None => None end.

Notation "x <- c ;; k" := (bind c (fun x => k))
  (at level 61, c at next level, right associativity).

Definition isinstance_str (v : pyval) : bool :=
  match v with VStr _ => true | _ => false end.

Definition isinstance_dict (v : pyval) : bool :=
  match v with VDict _ => true | _ => false end.

Definition isinstance_list (v : pyval) : bool :=
  match v with VList _ => true | _ => false end.

(** [needle in v] for a string [needle]: substring test on a string,
    membership in a list, key test on a dict, TypeError otherwise. *)
Definition py_in (needle : str) (v : pyval) : raises_or bool :=
  match v with
  | VStr s => ret (Py.contains needle s)
  | VList l =>
      ret (existsb (fun x => match x with
                             | VStr s => str_eqb s needle
                             | _ => false
                             end) l)
  | VDict d => ret (existsb (fun kv => str_eqb (fst kv) needle) d)
  | _ => None
  end.

(** [v.get(key, default)]: AttributeError unless [v] is a dict. *)
Definition py_get (v : pyval) (key : str) (default : pyval)
  : raises_or pyval :=
  match v with
  | VDict d => ret (dict_get key d default)
  | _ => None
  end.

(** [c = v.copy(); c[key] = x]: AttributeError unless [v] is a dict. *)
Definition py_copy_set (v : pyval) (key : str) (x : pyval)
  : raises_or pyval :=
  match v with
  | VDict d => ret (VDict (dict_set key x d))
  | _ => None
  end.

(** [iter(v)], as the list of the items: TypeError on what is not
    iterable. *)
Definition py_iter (v : pyval) : raises_or (list pyval) :=
  match v with
  | VList l => ret l
  | VStr s => ret (map (fun c => VStr [c]) s)
  | VDict d => ret (map (fun kv => VStr (fst kv)) d)
  | _ => None
  end.

(** [v == s] for a string [s]: never raises. *)
Definition py_eq_str (v : pyval) (s : str) : bool :=
  match v with VStr x => str_eqb x s | _ => false end.

(** [_clean_string(text, pattern)]: [pattern.sub] raises TypeError on
    what is not a string. *)
Definition _clean_string_checked (text : pyval) (pattern : Pattern)
  : raises_or str :=
  match text with
  | VStr s => ret (_clean_string s pattern)
  | _ => None
  end.

Section CleanupChecked.

Variable tag : Tag.

Let pattern := _build_cleanup_pattern tag.

Definition clean_text_checked (text : pyval) : raises_or (outcome str) :=
  h <- py_in (header tag) text ;;
  if h then
    f <- py_in (footer tag) text ;;
    if f then
      cleaned <- _clean_string_checked text pattern ;;
      if is_empty cleaned then ret Dropped
      else if negb (py_eq_str text cleaned) then ret (Replaced cleaned)
      else ret Kept
    else ret Kept
  else ret Kept.

Definition clean_part_checked (part : pyval) : raises_or (outcome pyval) :=
  if isinstance_dict part then
    ty <- py_get part (lit "type") VNone ;;
    if py_eq_str ty (lit "text") then
      text <- py_get part (lit "text") (VStr []) ;;
      if isinstance_str text then
        o <- clean_text_checked text ;;
        match o with
        | Dropped => ret Dropped
        | Replaced cleaned_text =>
            part_copy <- py_copy_set part (lit "text") (VStr cleaned_text) ;;
            ret (Replaced part_copy)
        | Kept => ret Kept
        end
      else ret Kept
    else ret Kept
  else ret Kept.

Fixpoint clean_parts_checked (content : list pyval)
  : raises_or (list pyval * bool * nat) :=
  match content with
  | [] => ret ([], false, 0)
  | part :: rest =>
      o <- clean_part_checked part ;;
      r <- clean_parts_checked rest ;;
      let '(cleaned_parts, has_changes, removed) := r in
      match o with
      | Dropped => ret (cleaned_parts, true, removed)
      | Replaced part_copy =>
          ret (part_copy :: cleaned_parts, true, S removed)
      | Kept => ret (part :: cleaned_parts, has_changes, removed)
      end
  end.

Definition clean_message_checked (msg : pyval)
  : raises_or (option pyval * nat) :=
  if isinstance_str msg then
    o <- clean_text_checked msg ;;
    match o with
    | Dropped => ret (None, 1)
    | Replaced cleaned => ret (Some (VStr cleaned), 1)
    | Kept => ret (Some msg, 0)
    end
  else if isinstance_dict msg then
    content <- py_get msg (lit "content") (VStr []) ;;
    if isinstance_str content then
      o <- clean_text_checked content ;;
      match o with
      | Dropped => ret (None, 1)
      | Replaced cleaned =>
          msg_copy <- py_copy_set msg (lit "content") (VStr cleaned) ;;
          ret (Some msg_copy, 1)
      | Kept => ret (Some msg, 0)
      end
    else if isinstance_list content then
      parts <- py_iter content ;;
      r <- clean_parts_checked parts ;;
      let '(cleaned_parts, has_changes, removed) := r in
      match cleaned_parts with
      | [] => ret (None, removed + 1)
      | _ :: _ =>
          if has_changes then
            msg_copy <- py_copy_set msg (lit "content")
                                    (VList cleaned_parts) ;;
            ret (Some msg_copy, removed)
          else ret (Some msg, removed)
      end
    else ret (None, 0)
  else ret (Some msg, 0).

Fixpoint clean_contexts_checked (msgs : list pyval)
  : raises_or (list pyval * nat) :=
  match msgs with
  | [] => ret ([], 0)
  | msg :: rest =>
      m <- clean_message_checked msg ;;
      r <- clean_contexts_checked rest ;;
      let '(filtered, removed) := r in
      match m with
      | (Some m', k) => ret (m' :: filtered, k + removed)
      | (None, k) => ret (filtered, k + removed)
      end
  end.

Definition remove_checked (req : ProviderRequest)
  : raises_or (ProviderRequest * nat) :=
  let '(sp, n1) := clean_field tag (system_prompt req) in
  let '(pr, n2) := clean_field tag (prompt req) in
  c <- match contexts req with
       | Some (msg :: rest) =>
           r <- clean_contexts_checked (msg :: rest) ;;
           ret (Some (fst r), snd r)
       | other => ret (other, 0)
       end ;;
  ret ({| system_prompt := sp; prompt := pr; contexts := fst c |},
       n1 + n2 + snd c).

End CleanupChecked.

(** ** Injection *)

(** [by_position]: a dict from the three anchor names to lists of rendered
    blocks, in insertion order. *)
Definition by_position_init : list (str * list str) :=
  [ (lit "user_message_before", []);
    (lit "user_message_after", []);
    (lit "system_prompt", []) ].

(** [by_position[key].append(x)]; [None] is the KeyError of a key that is
    not in the dict. *)
Fixpoint bucket_append (key : str) (x : str) (bp : list (str * list str))
  : option (list (str * list str)) :=
  match bp with
  | [] => None
  | (k, v) :: rest =>
      if str_eqb k key then Some ((k, v ++ [x]) :: rest)
      else option_map (cons (k, v)) (bucket_append key x rest)
  end.

Fixpoint bucket (key : str) (bp : list (str * list str)) : list str :=
  match bp with
  | [] => []
  | (k, v) :: rest => if str_eqb k key then v else bucket key rest
  end.

Fixpoint group_tags (tags : list Tag) (bp : list (str * list str))
  : option (list (str * list str)) :=
  match tags with
  | [] => Some bp
  | tag :: rest =>
      match bucket_append (position tag) (_format_tag tag) bp with
      | None => None
      | Some bp' => group_tags rest bp'
      end
  end.

Definition blank_line : str := [nl; nl].

(** Phase 2 of [handle_inject_tags].  A KeyError in the grouping loop is
    raised before any field is written and is caught by the hook's
    [except]: the request stays as it is. *)
Definition inject_tags (tags : list Tag) (req : ProviderRequest)
  : ProviderRequest :=
  match group_tags tags by_position_init with
  | None => req
  | Some bp =>
      let before := bucket (lit "user_message_before") bp in
      let after := bucket (lit "user_message_after") bp in
      let sys := bucket (lit "system_prompt") bp in
      let prompt1 :=
        match before with
        | [] => prompt req
        | _ :: _ =>
            Some (Py.join blank_line before ++ blank_line
                  ++ or_default [] (prompt req))
        end in
      let prompt2 :=
        match after with
        | [] => prompt1
        | _ :: _ =>
            Some (or_default [] prompt1 ++ blank_line
                  ++ Py.join blank_line after)
        end in
      let system_prompt1 :=
        match sys with
        | [] => system_prompt req
        | _ :: _ =>
            Some (or_default [] (system_prompt req) ++ blank_line
                  ++ Py.join blank_line sys)
        end in
      {| system_prompt := system_prompt1;
         prompt := prompt2;
         contexts := contexts req |}
  end.

(** Phase 1: cleanup for every tag, in registry order; the request after
    the loop and [total_removed]. *)
Fixpoint cleanup_all (tags : list Tag) (req : ProviderRequest)
  : ProviderRequest * nat :=
  match tags with
  | [] => (req, 0)
  | tag :: rest =>
      let '(req1, removed) := _remove_tags_from_context tag req in
      let '(req2, total) := cleanup_all rest req1 in
      (req2, removed + total)
  end.

Definition handle_inject_tags (tags : list Tag) (req : ProviderRequest)
  : ProviderRequest :=
  match tags with
  | [] => req
  | _ :: _ => inject_tags tags (fst (cleanup_all tags req))
  end.

(** ** Vocabulary of the properties *)

(** [p] occurs in [s] as a contiguous substring. *)
Definition occurs (p s : str) : Prop := exists a b, s = a ++ p ++ b.

Definition valid_name (n : str) : bool :=
  negb (is_empty n) && forallb Re.is_name_char n.

Definition mk_header (name : str) : str := [lt_sign] ++ name ++ [gt_sign].
Definition mk_footer (name : str) : str :=
  [lt_sign; slash] ++ name ++ [gt_sign].

(** The matches of the cleanup pattern, as the regular expression defines
    them: [s] has the header at [p], any characters behind it (DOTALL),
    and the footer ending at [e]. *)
Definition match_span (pat : Pattern) (s : str) (p e : nat) : Prop :=
  exists a c r,
    s = a ++ pat_header pat ++ c ++ pat_footer pat ++ r
    /\ length a = p
    /\ e = p + length (pat_header pat) + length c
           + length (pat_footer pat).

(** Every occurrence of [d] in [P ++ Q] lies within [P]. *)
Definition confined (d P Q : str) : Prop :=
  forall a b, P ++ Q = a ++ d ++ b -> exists m, P = a ++ d ++ m.

(** No occurrence of [d] in [A ++ Q] starts within [A]. *)
Definition clear_of (d A Q : str) : Prop :=
  forall a b, A ++ Q = a ++ d ++ b -> exists l, a = A ++ l.

(** A delimiter: [<] followed by characters among which there is neither
    [<] nor a newline.  Headers and footers of checked names are such. *)
Definition delimiter (d : str) : Prop :=
  exists body, d = lt_sign :: body /\ ~ In lt_sign body /\ ~ In nl body.

(** The shape of every dict [_load_tags] appends: a checked name, the two
    delimiters derived from it, a trimmed non-empty content and one of the
    three anchors. *)
Definition tag_ok (t : Tag) : bool :=
  valid_name (tag_name t)
  && str_eqb (header t) (mk_header (tag_name t))
  && str_eqb (footer t) (mk_footer (tag_name t))
  && negb (is_empty (content t))
  && str_eqb (Py.strip (content t)) (content t)
  && recognized_position (position t).

(** The text surfaces of a part, of a history entry and of a request: the
    strings [_remove_tags_from_context] looks into. *)
Definition part_texts (part : pyval) : list str :=
  match part with
  | VDict d =>
      match dict_get (lit "type") d VNone with
      | VStr ty =>
          if str_eqb ty (lit "text") then
            match dict_get (lit "text") d (VStr []) with
            | VStr text => [text]
            | _ => []
            end
          else []
      | _ => []
      end
  | _ => []
  end.

Definition message_texts (msg : pyval) : list str :=
  match msg with
  | VStr s => [s]
  | VDict d =>
      match dict_get (lit "content") d (VStr []) with
      | VStr c => [c]
      | VList parts => flat_map part_texts parts
      | _ => []
      end
  | _ => []
  end.

Definition option_texts (o : option str) : list str :=
  match o with Some s => [s] | None => [] end.

Definition request_texts (req : ProviderRequest) : list str :=
  option_texts (system_prompt req) ++ option_texts (prompt req)
  ++ flat_map message_texts (or_default [] (contexts req)).

(** [tagged_text h f s plain]: [s] is [plain] with whole blocks
    [h ++ c ++ f] inserted, no [c] containing [f]. *)
Inductive tagged_text (h f : str) : str -> str -> Prop :=
| tagged_plain : forall s, tagged_text h f s s
| tagged_block : forall s0 c rest plain,
    ~ occurs f c ->
    tagged_text h f rest plain ->
    tagged_text h f (s0 ++ h ++ c ++ f ++ rest) (s0 ++ plain).

(** A text the cleanup of [t] handles as intended: it lacks one of the two
    delimiters, or it is text free of the header with whole blocks
    inserted. *)
Definition well_tagged (t : Tag) (s : str) : Prop :=
  both_present t s = false
  \/ exists plain, tagged_text (header t) (footer t) s plain
                   /\ ~ occurs (header t) plain.

(** What the cleanup of [t] makes of a text [s] that survives it: [s]
    itself where a delimiter is missing, the cleaned text otherwise. *)
Definition derived (t : Tag) (s u : str) : Prop :=
  (both_present t s = false /\ u = s)
  \/ (both_present t s = true
      /\ u = _clean_string s (_build_cleanup_pattern t)).

(** A text part whose text holds both delimiters and is cleaned to
    nothing. *)
Definition emptied_text (t : Tag) (s : str) : Prop :=
  both_present t s = true /\ _clean_string s (_build_cleanup_pattern t) = [].

Definition emptied_part (t : Tag) (part : pyval) : Prop :=
  exists d s, part = VDict d
              /\ dict_get (lit "type") d VNone = VStr (lit "text")
              /\ dict_get (lit "text") d (VStr []) = VStr s
              /\ emptied_text t s.

(** A history entry whose whole content is consumed by the cleanup of [t],
    in each of the three shapes. *)
Inductive consumed (t : Tag) : pyval -> Prop :=
| consumed_plain : forall s, emptied_text t s -> consumed t (VStr s)
| consumed_content : forall d s,
    dict_get (lit "content") d (VStr []) = VStr s ->
    emptied_text t s -> consumed t (VDict d)
| consumed_parts : forall d parts,
    dict_get (lit "content") d (VStr []) = VList parts ->
    Forall (emptied_part t) parts -> consumed t (VDict d).

(** A part that is not a text-kind part with string text. *)
Definition foreign_part (part : pyval) : Prop := part_texts part = [].

(** A history entry that is neither a string nor a dict. *)
Definition foreign_message (msg : pyval) : Prop :=
  match msg with VStr _ | VDict _ => False | _ => True end.

(** The blocks of one anchor, in registry order. *)
Definition blocks_at (anchor : str) (tags : list Tag) : list str :=
  map _format_tag (filter (fun t => str_eqb (position t) anchor) tags).

Definition positions_ok (tags : list Tag) : Prop :=
  Forall (fun t => recognized_position (position t) = true) tags.

(** The injection rule in the words of the specification (4.4): the tags
    are partitioned by anchor in registry order, each bucket that is not
    empty is rendered and joined with a blank line, and the block goes
    before the user prompt, behind it, or behind the system prompt. *)
Definition injected (tags : list Tag) (req : ProviderRequest)
  : ProviderRequest :=
  let before := blocks_at (lit "user_message_before") tags in
  let after := blocks_at (lit "user_message_after") tags in
  let sys := blocks_at (lit "system_prompt") tags in
  let prompt1 :=
    match before with
    | [] => prompt req
    | _ :: _ =>
        Some (Py.join blank_line before ++ blank_line
              ++ or_default [] (prompt req))
    end in
  {| system_prompt :=
       match sys with
       | [] => system_prompt req
       | _ :: _ =>
           Some (or_default [] (system_prompt req) ++ blank_line
                 ++ Py.join blank_line sys)
       end;
     prompt :=
       match after with
       | [] => prompt1
       | _ :: _ =>
           Some (or_default [] prompt1 ++ blank_line
                 ++ Py.join blank_line after)
       end;
     contexts := contexts req |}.

(** The rendered block without its last newline. *)
Definition block_core (t : Tag) : str :=
  header t ++ [nl] ++ content t ++ [nl] ++ footer t.

(** The field the block of [t] is injected into. *)
Definition anchored_field (t : Tag) (req : ProviderRequest) : option str :=
  if str_eqb (position t) (lit "system_prompt")
  then system_prompt req else prompt req.

(** The name, the content and the anchor of a slot as [_load_tags] reads
    them: converted, unescaped and trimmed. *)
Definition slot_name (s : Slot) : str :=
  Py.strip (or_default [] (slot_tag_name s)).

Definition slot_body (s : Slot) : str :=
  Py.strip (Py.replace_escaped_newline (or_default [] (slot_content s))).

Definition slot_position (s : Slot) : str :=
  Py.strip (or_default (lit "user_message_after") (injection_position s)).

Definition with_position (s : Slot) (p : str) : Slot :=
  {| enabled := enabled s;
     slot_tag_name := slot_tag_name s;
     slot_content := slot_content s;
     injection_position := Some p |}.

(** The field of an anchor with the rendered block of [t] put next to the
    text [x]: before it for [user_message_before], behind it otherwise. *)
Definition with_block (t : Tag) (x : str) : str :=
  if str_eqb (position t) (lit "user_message_before")
  then _format_tag t ++ blank_line ++ x
  else x ++ blank_line ++ _format_tag t.

(** ** Concrete tags and requests *)

Definition tag_at (name : String.string) (body : str)
  (anchor : String.string) : Tag :=
  {| slot := lit "tag_1"; tag_name := lit name; content := body;
     position := lit anchor;
     header := mk_header (lit name); footer := mk_footer (lit name) |}.
Arguments tag_at name%_string body anchor%_string.

Definition Foo : Tag :=
  tag_at "Foo" (lit "Hello" ++ [nl] ++ lit "World") "user_message_after".

Definition Bar : Tag := tag_at "Bar" (lit "bar") "user_message_after".

Definition empty_request : ProviderRequest :=
  {| system_prompt := None; prompt := None; contexts := None |}.

Definition with_prompt (p : str) : ProviderRequest :=
  {| system_prompt := None; prompt := Some p; contexts := None |}.

Definition with_contexts (msgs : list pyval) : ProviderRequest :=
  {| system_prompt := None; prompt := None; contexts := Some msgs |}.

Definition text_part (s : str) : pyval :=
  VDict [(lit "type", VStr (lit "text")); (lit "text", VStr s)].

Definition image_part : pyval :=
  VDict [(lit "type", VStr (lit "image_url"));
         (lit "image_url", VStr (lit "https://example.org/a.png"))].

Definition user_message (content : pyval) : pyval :=
  VDict [(lit "role", VStr (lit "user")); (lit "content", content)].


(** The name of the delimiter ([<name>] or [</name>]) that starts [s], when
    one does. *)
Fixpoint name_run (s : str) : str * str :=
  match s with
  | c :: r =>
      if Re.is_name_char c
      then let '(n, rest) := name_run r in (c :: n, rest)
      else ([], s)
  | [] => ([], [])
  end.

Definition delimiter_name_at (s : str) : option str :=
  match s with
  | c :: r =>
      if (c =? lt_sign)%N then
        let r' := match r with
                  | d :: r'' => if (d =? slash)%N then r'' else r
                  | [] => r
                  end in
        match name_run r' with
        | ((_ :: _) as n, g :: _) => if (g =? gt_sign)%N then Some n else None
        | _ => None
        end
      else None
  | [] => None
  end.

(** [s] contains no delimiter of a tag named otherwise than [name]. *)
Fixpoint no_other_delimiters (name s : str) : bool :=
  match s with
  | [] => true
  | _ :: r =>
      match delimiter_name_at s with
      | Some n => str_eqb n name
      | None => true
      end && no_other_delimiters name r
  end.

(** A footer that only precedes the header, and a text in which removing
    one block joins the two sides into another. *)
Definition reversed_text : str := lit "</Foo> closes what <Foo> opens".
Definition splice_text : str := lit "<Fo<Foo></Foo>o>x</Foo>".

Definition stale_request : ProviderRequest :=
  {| system_prompt := Some (lit "You are helpful.");
     prompt := Some (lit "Hi <Foo>old</Foo> there");
     contexts := Some [VStr (lit "<Foo>old</Foo>");
                       user_message (VStr (lit "<Foo>old</Foo> Hi"));
                       user_message (VList [text_part (lit "a<Foo>b</Foo>");
                                            image_part])] |}.

Definition Foo_before : Tag :=
  tag_at "Foo" (lit "one") "user_message_before".

Definition Sys : Tag := tag_at "Sys" (lit "rules") "system_prompt".

(** A multimodal entry whose text part is one stale block. *)
Definition stale_multipart : pyval :=
  user_message (VList [text_part (lit "<Foo>old</Foo>"); image_part]).

(** A tag whose content holds its own footer. *)
Definition Nested : Tag :=
  tag_at "Foo" (lit "a</Foo>b") "user_message_after".

(** A configuration whose second slot names an anchor that does not
    exist. *)
Definition bogus_slot : Slot :=
  {| enabled := Some true;
     slot_tag_name := Some (lit " Foo ");
     slot_content := Some (lit "Hello\nWorld ");
     injection_position := Some (lit "top") |}.

Definition bogus_config : Config := [(lit "tag_2", CfgSlot bogus_slot)].

(** A tag whose content quotes a block of another tag. *)
Definition Quoting : Tag :=
  tag_at "Foo" (lit "see <Bar>x</Bar> here") "user_message_after".

(** A dict entry whose content is neither a string nor a list. *)
Definition other_content (d : list (str * pyval)) : Prop :=
  match dict_get (lit "content") d (VStr []) with
  | VStr _ | VList _ => False
  | _ => True
  end.

(** An assistant entry that carries tool calls and no content. *)
Definition tool_call_dict : list (str * pyval) :=
  [(lit "role", VStr (lit "assistant"));
   (lit "content", VNone);
   (lit "tool_calls", VList [VOther 0])].

Definition tool_call_message : pyval := VDict tool_call_dict.

(** ** Diagnostics and the plugin object *)

(** The records the plugin hands to [logger], with the values the
    messages interpolate. *)
Inductive LogRecord :=
| warn_empty_name (slot_key : str)
| warn_bad_name (slot_key tag_name : str)
| warn_empty_content (slot_key : str)
| warn_bad_position (slot_key position : str)
| info_loaded (tag_name position : str) (content_length : nat)
| info_initialised (count : nat)
| info_cleaned (session_id : str) (total_removed : nat)
| info_injected (anchor session_id : str) (count : nat)
| error_hook (key : str)
| info_stopped.

(** The body of the loop of [_load_tags] with its [logger] calls. *)
Definition load_slot_logged (cfg : Config) (slot_key : str)
  : option Tag * list LogRecord :=
  match or_default (CfgSlot (Build_Slot None None None None))
                   (config_get cfg slot_key) with
  | CfgOther => (None, [])
  | CfgSlot s =>
      if negb (or_default false (enabled s)) then (None, [])
      else
        let tag_name := Py.strip (or_default [] (slot_tag_name s)) in
        let content := or_default [] (slot_content s) in
        let content := Py.strip (Py.replace_escaped_newline content) in
        let position :=
          Py.strip (or_default (lit "user_message_after")
                               (injection_position s)) in
        if is_empty tag_name then (None, [warn_empty_name slot_key])
        else if negb (TAG_NAME_PATTERN tag_name)
        then (None, [warn_bad_name slot_key tag_name])
        else if is_empty content then (None, [warn_empty_content slot_key])
        else
          let unknown := negb (recognized_position position) in
          let warning :=
            if unknown then [warn_bad_position slot_key position] else [] in
          let position :=
            if unknown then lit "user_message_after" else position in
          (Some {| slot := slot_key;
                   tag_name := tag_name;
                   content := content;
                   position := position;
                   header := [lt_sign] ++ tag_name ++ [gt_sign];
                   footer := [lt_sign; slash] ++ tag_name ++ [gt_sign] |},
           warning ++ [info_loaded tag_name position (length content)])
  end.

Fixpoint load_slots_logged (cfg : Config) (keys : list str)
  : list Tag * list LogRecord :=
  match keys with
  | [] => ([], [])
  | k :: rest =>
      let '(o, log) := load_slot_logged cfg k in
      let '(tags, logs) := load_slots_logged cfg rest in
      match o with
      | Some t => (t :: tags, log ++ logs)
      | None => (tags, log ++ logs)
      end
  end.

Definition _load_tags_logged (cfg : Config) : list Tag * list LogRecord :=
  load_slots_logged cfg TAG_SLOT_KEYS.

(** The state of a [PromptTagsPlugin] object. *)
Record PromptTagsPlugin := {
  config : Config;
  _tags : list Tag
}.

(** [__init__]: the registry is loaded, and its size is logged. *)
Definition __init__ (cfg : Config) : PromptTagsPlugin * list LogRecord :=
  let '(tags, logs) := _load_tags_logged cfg in
  ({| config := cfg; _tags := tags |},
   logs ++ [info_initialised (length tags)]).

Definition terminate (self : PromptTagsPlugin)
  : PromptTagsPlugin * list LogRecord :=
  ({| config := config self; _tags := [] |}, [info_stopped]).

(** The grouping loop of the hook, with the key of its KeyError. *)
Fixpoint group_tags_raising (tags : list Tag) (bp : list (str * list str))
  : list (str * list str) + str :=
  match tags with
  | [] => inl bp
  | tag :: rest =>
      match bucket_append (position tag) (_format_tag tag) bp with
      | None => inr (position tag)
      | Some bp' => group_tags_raising rest bp'
      end
  end.

(** [session_id = event.unified_msg_origin or "unknown"] *)
Definition session_of (unified_msg_origin : option str) : str :=
  match unified_msg_origin with
  | Some (c :: r) => c :: r
  | _ => lit "unknown"
  end.

(** [handle_inject_tags] with its [logger] calls and its [except]
    clause. *)
Definition handle_inject_tags_logged (unified_msg_origin : option str)
  (tags : list Tag) (req : ProviderRequest)
  : ProviderRequest * list LogRecord :=
  match tags with
  | [] => (req, [])
  | _ :: _ =>
      let session_id := session_of unified_msg_origin in
      let '(req1, total_removed) := cleanup_all tags req in
      let log_cleaned :=
        if 0 <? total_removed
        then [info_cleaned session_id total_removed] else [] in
      match group_tags_raising tags by_position_init with
      | inr key => (req1, log_cleaned ++ [error_hook key])
      | inl bp =>
          let before := bucket (lit "user_message_before") bp in
          let after := bucket (lit "user_message_after") bp in
          let sys := bucket (lit "system_prompt") bp in
          let '(prompt1, log_before) :=
            match before with
            | [] => (prompt req1, [])
            | _ :: _ =>
                (Some (Py.join blank_line before ++ blank_line
                       ++ or_default [] (prompt req1)),
                 [info_injected (lit "user_message_before") session_id
                                (length before)])
            end in
          let '(prompt2, log_after) :=
            match after with
            | [] => (prompt1, [])
            | _ :: _ =>
                (Some (or_default [] prompt1 ++ blank_line
                       ++ Py.join blank_line after),
                 [info_injected (lit "user_message_after") session_id
                                (length after)])
            end in
          let '(system_prompt1, log_system) :=
            match sys with
            | [] => (system_prompt req1, [])
            | _ :: _ =>
                (Some (or_default [] (system_prompt req1) ++ blank_line
                       ++ Py.join blank_line sys),
                 [info_injected (lit "system_prompt") session_id
                                (length sys)])
            end in
          ({| system_prompt := system_prompt1;
              prompt := prompt2;
              contexts := contexts req1 |},
           log_cleaned ++ log_before ++ log_after ++ log_system)
      end
  end.

(** The hook as the host calls it on the plugin object. *)
Definition on_llm_request (self : PromptTagsPlugin)
  (unified_msg_origin : option str) (req : ProviderRequest)
  : ProviderRequest * list LogRecord :=
  handle_inject_tags_logged unified_msg_origin (_tags self) req.

(** ** Vocabulary of the further properties *)

(** The two characters a text area stores for a line break. *)
Definition escaped_newline : str := [backslash; letter_n].

(** [slot.get("enabled", False)] is truthy for the slot of [key]. *)
Definition slot_enabled (cfg : Config) (key : str) : bool :=
  match config_get cfg key with
  | Some (CfgSlot s) => or_default false (enabled s)
  | _ => false
  end.

Definition is_some {A} (o : option A) : bool :=
  match o with Some _ => true | None => false end.

Definition is_warning (r : LogRecord) : bool :=
  match r with
  | warn_empty_name _ | warn_bad_name _ _ | warn_empty_content _
  | warn_bad_position _ _ => true
  | _ => false
  end.

(** The slot key a warning names. *)
Definition warned_slot (r : LogRecord) : option str :=
  match r with
  | warn_empty_name k | warn_bad_name k _ | warn_empty_content k
  | warn_bad_position k _ => Some k
  | _ => None
  end.

Definition is_error (r : LogRecord) : bool :=
  match r with error_hook _ => true | _ => false end.

Definition loaded_record (t : Tag) : LogRecord :=
  info_loaded (tag_name t) (position t) (length (content t)).

Definition is_loaded_record (r : LogRecord) : bool :=
  match r with info_loaded _ _ _ => true | _ => false end.

(** The shapes of a history entry that the loop over [req.contexts]
    appends when it finds nothing to clean: a string, a dict whose content
    is a string or a list with an item, or a value that is neither a
    string nor a dict. *)
Definition handled_shape (msg : pyval) : Prop :=
  match msg with
  | VDict d =>
      match dict_get (lit "content") d (VStr []) with
      | VStr _ => True
      | VList (_ :: _) => True
      | _ => False
      end
  | _ => True
  end.

(** A white-space padded text with the footer before the header. *)
Definition padded_reversed : str := lit "  </Foo> then <Foo>  ".

Definition two_blocks : str := lit "a<Foo>1</Foo>b<Foo>2</Foo>c".

Definition empty_content_dict : list (str * pyval) :=
  [(lit "role", VStr (lit "user")); (lit "content", VList [])].

Definition disabled_config : Config :=
  [(lit "tag_1",
    CfgSlot {| enabled := Some false;
               slot_tag_name := Some (lit "Foo");
               slot_content := Some (lit "x");
               injection_position := None |});
   (lit "tag_9", CfgSlot bogus_slot);
   (lit "tag_3", CfgOther)].

Definition nameless_slot : Slot :=
  {| enabled := Some true;
     slot_tag_name := Some (lit "  ");
     slot_content := Some (lit "x");
     injection_position := None |}.

Definition Stray : Tag := tag_at "Stray" (lit "s") "nowhere".

(** The history entry of scenario B, and a request that holds no pair of
    delimiters of [Foo]. *)
Definition stale_entry : list (str * pyval) :=
  [(lit "role", VStr (lit "user"));
   (lit "content", VStr (lit "<Foo>old</Foo> Hi"))].

Definition quiet_request : ProviderRequest :=
  {| system_prompt := Some (lit "  rules  ");
     prompt := Some (lit " Hi </Foo> " ++ [nl; nl; nl]);
     contexts := Some [VStr (lit "<Foo> open");
                       user_message (VList [image_part]);
                       VNone] |}.

(** The number of tags an injection record reports. *)
Definition injected_count (r : LogRecord) : nat :=
  match r with info_injected _ _ n => n | _ => 0 end.

(** ** Vocabulary of the round trip of a registry *)

(** What [_clean_string] does after the substitution. *)
Definition normalise (s : str) : str := Py.strip (Re.collapse_newlines s).

(** A field laid out as a first gap and a list of blocks, each block
    followed by a gap. *)
Fixpoint render (W0 : str) (items : list (Tag * str)) : str :=
  match items with
  | [] => W0
  | (c, W) :: rest => W0 ++ block_core c ++ render W rest
  end.

(** The gaps alone. *)
Fixpoint flat (W0 : str) (items : list (Tag * str)) : str :=
  match items with
  | [] => W0
  | (_, W) :: rest => W0 ++ flat W rest
  end.

(** [f] on the last gap. *)
Fixpoint on_last (f : str -> str) (W0 : str) (items : list (Tag * str))
  : str * list (Tag * str) :=
  match items with
  | [] => (f W0, [])
  | (c, W) :: rest =>
      let '(W', rest') := on_last f W rest in (W0, (c, W') :: rest')
  end.

Definition map_gaps (f : str -> str) (items : list (Tag * str))
  : list (Tag * str) :=
  map (fun i => (fst i, f (snd i))) items.

(** The joined blocks of an anchor as blocks and gaps. *)
Fixpoint joined_items (ts : list Tag) : list (Tag * str) :=
  match ts with
  | [] => []
  | [a] => [(a, [nl])]
  | a :: rest => (a, nl :: blank_line) :: joined_items rest
  end.

Definition tags_at (anchor : str) (tags : list Tag) : list Tag :=
  filter (fun t => str_eqb (position t) anchor) tags.

(** A registry whose tags do not interfere: well-formed tags with
    different names, no content holding a delimiter of a tag of the
    registry or a run of three newlines. *)
Definition registry_separate (tags : list Tag) : Prop :=
  Forall (fun t => tag_ok t = true) tags
  /\ NoDup (map tag_name tags)
  /\ (forall t t', In t tags -> In t' tags ->
                   ~ occurs (header t') (content t)
                   /\ ~ occurs (footer t') (content t))
  /\ (forall t, In t tags -> ~ occurs [nl; nl; nl] (content t)).

Definition header_free (tags : list Tag) (f : option str) : Prop :=
  forall t, In t tags -> ~ occurs (header t) (or_default [] f).

(** The gaps of a laid out field: free of every header of the registry,
    and, behind a block, empty or starting with a newline. *)
Definition gap_free (tags : list Tag) (W : str) : Prop :=
  forall t, In t tags -> ~ occurs (header t) W.

Definition gap_sep (W : str) : Prop :=
  match W with [] => True | c :: _ => c = nl end.

Definition items_ok (tags : list Tag) (items : list (Tag * str)) : Prop :=
  Forall (fun i => In (fst i) tags /\ gap_free tags (snd i)
                   /\ gap_sep (snd i)) items.

Definition laid (tags : list Tag) (W0 : str) (items : list (Tag * str))
  : Prop :=
  gap_free tags W0 /\ items_ok tags items /\ NoDup (map fst items).

(** The cleanup of one field for the tags in turn. *)
Definition clean_fold (tags : list Tag) (f : option str) : option str :=
  fold_left (fun f t => fst (clean_field t f)) tags f.

(** The gap between the user text and the blocks behind it. *)
Definition post_gap (ts : list Tag) : str :=
  match ts with [] => [] | _ :: _ => blank_line end.

(** The blocks put before and behind a text by the injection. *)
Definition blocks_before (ts : list Tag) : str :=
  match ts with
  | [] => []
  | _ :: _ => Py.join blank_line (map _format_tag ts) ++ blank_line
  end.

Definition blocks_behind (ts : list Tag) : str :=
  match ts with
  | [] => []
  | _ :: _ => blank_line ++ Py.join blank_line (map _format_tag ts)
  end.

(** The request a later turn finds after its cleanup: the fields that got
    blocks hold their text in normal form. *)
Definition settled (tags : list Tag) (req : ProviderRequest)
  : ProviderRequest :=
  {| system_prompt :=
       match tags_at (lit "system_prompt") tags with
       | [] => system_prompt req
       | _ :: _ => Some (normalise (or_default [] (system_prompt req)))
       end;
     prompt :=
       match tags_at (lit "user_message_before") tags
             ++ tags_at (lit "user_message_after") tags with
       | [] => prompt req
       | _ :: _ => Some (normalise (or_default [] (prompt req)))
       end;
     contexts := contexts req |}.

Definition same_fields (r1 r2 : ProviderRequest) : Prop :=
  prompt r1 = prompt r2 /\ system_prompt r1 = system_prompt r2.

(** A registry of three tags, one per anchor, and a request without
    blocks. *)
Definition trio : list Tag := [Foo_before; Bar; Sys].

Definition plain_request : ProviderRequest :=
  {| system_prompt := Some (lit "You are helpful.");
     prompt := Some (lit " Hi" ++ [nl; nl; nl; nl] ++ lit "there ");
     contexts := None |}.

(** One history entry through the cleanup for the tags in turn: the entry
    that is left, if one is. *)
Fixpoint message_fold (tags : list Tag) (msg : pyval) : option pyval :=
  match tags with
  | [] => Some msg
  | t :: rest =>
      match fst (clean_message t msg) with
      | Some msg' => message_fold rest msg'
      | None => None
      end
  end.

Definition option_list {A} (o : option A) : list A :=
  match o with Some a => [a] | None => [] end.

(** The history after the cleanup for the tags in turn. *)
Definition survivors (tags : list Tag) (msgs : list pyval) : list pyval :=
  flat_map (fun m => option_list (message_fold tags m)) msgs.

(** A history entry with the text [s]: a plain string, or the dict [d]
    with [s] as its content. *)
Definition entry_with (d : option (list (str * pyval))) (s : str) : pyval :=
  match d with
  | None => VStr s
  | Some d => VDict (dict_set (lit "content") (VStr s) d)
  end.

(** The history of the turn after [plain_request] went through the hook
    with [trio]: the user entry holds the prompt with its blocks. *)
Definition next_history : list pyval :=
  [VStr (lit "earlier");
   entry_with (Some [(lit "role", VStr (lit "user"))])
              (or_default [] (prompt (inject_tags trio plain_request)));
   user_message (VStr (lit "later"))].
(** * Properties *)

(** ** Strings: equality, prefixes, first occurrence *)

Lemma str_eqb_eq (a b : str) : str_eqb a b = true <-> a = b.
Proof.
  unfold str_eqb. destruct (list_eq_dec N.eq_dec a b); split; congruence.
Qed.

Lemma str_eqb_refl (a : str) : str_eqb a a = true.
Proof. apply str_eqb_eq; reflexivity. Qed.

Lemma str_eqb_neq (a b : str) : str_eqb a b = false <-> a <> b.
Proof.
  unfold str_eqb. destruct (list_eq_dec N.eq_dec a b); split; congruence.
Qed.

Lemma str_eqb_sym_false (a b : str) :
  str_eqb a b = false -> str_eqb b a = false.
Proof. rewrite !str_eqb_neq. congruence. Qed.

Lemma str_eqb_comm (a b : str) : str_eqb a b = str_eqb b a.
Proof.
  destruct (str_eqb b a) eqn:E.
  - apply str_eqb_eq in E. subst. apply str_eqb_refl.
  - now apply str_eqb_sym_false.
Qed.

Lemma is_empty_true (s : str) : is_empty s = true <-> s = [].
Proof. destruct s; simpl; split; congruence. Qed.

Lemma starts_with_app (p r : str) : Py.starts_with p (p ++ r) = true.
Proof.
  induction p as [|a p IH]; simpl; [reflexivity|].
  rewrite N.eqb_refl; exact IH.
Qed.

Lemma starts_with_inv (p s : str) :
  Py.starts_with p s = true -> exists r, s = p ++ r.
Proof.
  revert s; induction p as [|a p IH]; intros s H.
  - exists s; reflexivity.
  - destruct s as [|b s]; simpl in H; [discriminate|].
    apply andb_true_iff in H as [Hab Hps].
    apply N.eqb_eq in Hab; subst b.
    destruct (IH _ Hps) as [r ->]. exists r; reflexivity.
Qed.

Lemma find_occurrence (p s : str) (i : nat) :
  Py.find p s = Some i ->
  exists a b, s = a ++ p ++ b /\ length a = i.
Proof.
  revert i; induction s as [|c s IH]; intros i H; simpl in H.
  - destruct (Py.starts_with p []) eqn:E; [|discriminate].
    injection H as <-. apply starts_with_inv in E as [r ->].
    exists [], r; split; reflexivity.
  - destruct (Py.starts_with p (c :: s)) eqn:E.
    + injection H as <-. apply starts_with_inv in E as [r ->].
      exists [], r; split; reflexivity.
    + destruct (Py.find p s) as [j|] eqn:F; simpl in H; [|discriminate].
      injection H as <-. destruct (IH j eq_refl) as (a & b & -> & <-).
      exists (c :: a), b; split; reflexivity.
Qed.

Lemma find_is_first (p s : str) (i : nat) :
  Py.find p s = Some i ->
  forall a b, s = a ++ p ++ b -> i <= length a.
Proof.
  revert i; induction s as [|c s IH]; intros i H a b Hs.
  - simpl in H. destruct (Py.starts_with p []); [|discriminate].
    injection H as <-. lia.
  - simpl in H. destruct (Py.starts_with p (c :: s)) eqn:E.
    + injection H as <-. lia.
    + destruct (Py.find p s) as [j|] eqn:F; simpl in H; [|discriminate].
      injection H as <-. destruct a as [|a0 a].
      * simpl in Hs. rewrite Hs, starts_with_app in E. discriminate.
      * simpl in Hs. injection Hs as _ Hs.
        specialize (IH j eq_refl a b Hs). simpl; lia.
Qed.

Lemma occurs_find (p s : str) :
  occurs p s -> exists i, Py.find p s = Some i.
Proof.
  intros (a & b & ->). induction a as [|c a IH]; simpl.
  - destruct p as [|x p]; simpl.
    + destruct b; simpl; eauto.
    + rewrite N.eqb_refl, starts_with_app; simpl. eauto.
  - destruct IH as [i Hi].
    destruct (Py.starts_with p (c :: a ++ p ++ b)); eauto.
    rewrite Hi; simpl; eauto.
Qed.

Lemma find_none (p s : str) : Py.find p s = None -> ~ occurs p s.
Proof.
  intros H Ho. destruct (occurs_find _ _ Ho) as [i Hi]. congruence.
Qed.

Lemma contains_occurs (p s : str) : Py.contains p s = true <-> occurs p s.
Proof.
  unfold Py.contains; split.
  - destruct (Py.find p s) as [i|] eqn:F; [|discriminate].
    intros _. destruct (find_occurrence _ _ _ F) as (a & b & -> & _).
    exists a, b; reflexivity.
  - intros Ho. destruct (occurs_find _ _ Ho) as [i ->]. reflexivity.
Qed.

Lemma contains_false (p s : str) : Py.contains p s = false <-> ~ occurs p s.
Proof.
  rewrite <- contains_occurs. destruct (Py.contains p s); split; congruence.
Qed.

(** The first occurrence is where no occurrence starts earlier. *)
Lemma find_at (p a b : str) :
  (forall a' b', a ++ p ++ b = a' ++ p ++ b' -> length a <= length a') ->
  Py.find p (a ++ p ++ b) = Some (length a).
Proof.
  intros Hfirst.
  destruct (occurs_find p (a ++ p ++ b)) as [i Hi]; [exists a, b; reflexivity|].
  pose proof (find_is_first _ _ _ Hi a b eq_refl) as Hle.
  destruct (find_occurrence _ _ _ Hi) as (a' & b' & Heq & Hlen).
  specialize (Hfirst a' b' Heq). rewrite Hi; f_equal; lia.
Qed.

Lemma occurs_app_l (p a b : str) : occurs p a -> occurs p (a ++ b).
Proof.
  intros (x & y & ->). exists x, (y ++ b). now rewrite <- !app_assoc.
Qed.

Lemma occurs_app_r (p a b : str) : occurs p b -> occurs p (a ++ b).
Proof.
  intros (x & y & ->). exists (a ++ x), y. now rewrite <- !app_assoc.
Qed.

Lemma occurs_nil_inv (p : str) : occurs p [] -> p = [].
Proof.
  intros (a & b & H). symmetry in H.
  apply app_eq_nil in H as [_ H]. apply app_eq_nil in H as [H _]. exact H.
Qed.

Lemma occurs_trans (p q s : str) : occurs p q -> occurs q s -> occurs p s.
Proof.
  intros (a & b & ->) (x & y & ->).
  exists (x ++ a), (b ++ y). now rewrite <- !app_assoc.
Qed.

(** Lists of appended pieces, brought to one shape. *)
Ltac app_norm :=
  repeat (progress (repeat rewrite <- app_assoc; cbn [app])).

(** ** Occurrences across a boundary *)

(** An occurrence of [d] in [A ++ c :: Q], where [c] is not among the
    characters of [d] after the first, lies in [A] or starts at the
    boundary or behind it. *)
Lemma occurrence_split (d A Q a b : str) (c : char) :
  ~ In c (tl d) ->
  A ++ c :: Q = a ++ d ++ b ->
  (exists m, A = a ++ d ++ m /\ b = m ++ c :: Q)
  \/ (exists l, a = A ++ l /\ c :: Q = l ++ d ++ b).
Proof.
  intros Hc H. apply app_eq_app in H as [l [[HA Hd]|[Ha HQ]]].
  - apply app_eq_app in Hd as [m [[Hd Hm]|[Hl Hb]]].
    + destruct m as [|x m].
      * left. exists []. rewrite app_nil_r in Hd. subst l.
        rewrite app_nil_r. split; [exact HA | simpl in *; congruence].
      * simpl in Hm. injection Hm as Hx Hm. subst x.
        destruct l as [|y l].
        -- right. exists []. rewrite app_nil_r in *. subst a.
           split; [reflexivity|]. simpl in Hd. subst d. simpl.
           now rewrite Hm.
        -- exfalso. apply Hc. subst d. simpl.
           apply in_app_iff. right; left; reflexivity.
    + left. exists m. subst l. split; [exact HA | exact Hb].
  - right. exists l. split; assumption.
Qed.

(** A character that is not in [d] separates its occurrences. *)
Lemma occurs_sep (d A Q : str) (c : char) :
  d <> [] -> ~ In c d ->
  occurs d (A ++ c :: Q) -> occurs d A \/ occurs d Q.
Proof.
  intros Hne Hc (a & b & H).
  assert (Htl : ~ In c (tl d)) by (destruct d; simpl in *; tauto).
  destruct (occurrence_split d A Q a b c Htl H)
    as [(m & HA & _)|(l & _ & HQ)].
  - left. exists a, m. exact HA.
  - right. destruct l as [|x l].
    + destruct d as [|y d]; [congruence|]. simpl in HQ.
      injection HQ as Hy _. subst y. exfalso; apply Hc; left; reflexivity.
    + simpl in HQ. injection HQ as _ HQ. exists l, b. exact HQ.
Qed.

Lemma firstn_exact (a b : str) : firstn (length a) (a ++ b) = a.
Proof.
  rewrite firstn_app, Nat.sub_diag, firstn_all2 by lia.
  simpl. apply app_nil_r.
Qed.

Lemma skipn_exact (a b : str) : skipn (length a) (a ++ b) = b.
Proof.
  rewrite skipn_app, Nat.sub_diag, skipn_all2 by lia. reflexivity.
Qed.

Lemma skipn_exact2 (a h b : str) :
  skipn (length a + length h) (a ++ h ++ b) = b.
Proof.
  rewrite app_assoc, <- length_app. apply skipn_exact.
Qed.

(** ** The cleanup pattern: search and substitution *)

Lemma find_nil_nonempty (p : str) : p <> [] -> Py.find p [] = None.
Proof. destruct p; [congruence|reflexivity]. Qed.

Lemma search_some (pat : Pattern) (s : str) (p e : nat) :
  Re.search pat s = Some (p, e) ->
  exists a c r,
    s = a ++ pat_header pat ++ c ++ pat_footer pat ++ r
    /\ length a = p
    /\ e = length a + length (pat_header pat) + length c
           + length (pat_footer pat)
    /\ Py.find (pat_header pat) s = Some p
    /\ Py.find (pat_footer pat) (c ++ pat_footer pat ++ r)
       = Some (length c).
Proof.
  unfold Re.search. intros H.
  destruct (Py.find (pat_header pat) s) as [i|] eqn:Fh; [|discriminate].
  destruct (find_occurrence _ _ _ Fh) as (a & b & Hs & Ha).
  rewrite Hs, <- Ha, skipn_exact2 in H.
  destruct (Py.find (pat_footer pat) b) as [q|] eqn:Ff; [|discriminate].
  destruct (find_occurrence _ _ _ Ff) as (c & r & Hb & Hc).
  injection H as Hp He. exists a, c, r. subst b.
  repeat split; try congruence; try lia.
Qed.

Lemma search_block (pat : Pattern) (a c r : str) :
  Py.find (pat_header pat)
          (a ++ pat_header pat ++ c ++ pat_footer pat ++ r)
    = Some (length a) ->
  Py.find (pat_footer pat) (c ++ pat_footer pat ++ r) = Some (length c) ->
  Re.search pat (a ++ pat_header pat ++ c ++ pat_footer pat ++ r)
    = Some (length a,
            length a + length (pat_header pat) + length c
            + length (pat_footer pat)).
Proof.
  intros Hh Hf. unfold Re.search. rewrite Hh, skipn_exact2, Hf.
  reflexivity.
Qed.

Lemma search_none_header (pat : Pattern) (s : str) :
  ~ occurs (pat_header pat) s -> Re.search pat s = None.
Proof.
  intros H. unfold Re.search.
  destruct (Py.find (pat_header pat) s) as [i|] eqn:F; [|reflexivity].
  exfalso. apply H. apply contains_occurs. unfold Py.contains.
  now rewrite F.
Qed.

(** [Re.search] returns the match the regular expression engine returns:
    the leftmost one and, the quantifier being lazy, the shortest from
    there; it returns none only when there is none. *)
Lemma search_is_match (pat : Pattern) (s : str) (p e : nat) :
  Re.search pat s = Some (p, e) -> match_span pat s p e.
Proof.
  intros H. destruct (search_some _ _ _ _ H) as (a & c & r & Hs & Ha & He & _).
  exists a, c, r. repeat split; trivial. lia.
Qed.

Lemma same_prefix (a a' b b' : str) :
  a ++ b = a' ++ b' -> length a = length a' -> a = a' /\ b = b'.
Proof.
  revert a'. induction a as [|x a IH]; intros [|y a'] H L;
    try discriminate.
  - now split.
  - cbn in H, L. injection H as -> H. injection L as L.
    destruct (IH _ H L) as [-> ->]. now split.
Qed.

Lemma search_leftmost_lazy (pat : Pattern) (s : str) (p e p' e' : nat) :
  Re.search pat s = Some (p, e) -> match_span pat s p' e' ->
  p <= p' /\ (p' = p -> e <= e').
Proof.
  intros H (a' & c' & r' & Hs' & Ha' & He').
  destruct (search_some _ _ _ _ H) as (a & c & r & Hs & Ha & He & Fh & Ff).
  pose proof (find_is_first _ _ _ Fh a' _ Hs') as L. split; [lia|].
  intros ->. rewrite Hs in Hs'.
  destruct (same_prefix _ _ _ _ Hs' ltac:(lia)) as [_ E].
  apply app_inv_head in E.
  pose proof (find_is_first _ _ _ Ff c' r' E). lia.
Qed.

Lemma search_none_no_match (pat : Pattern) (s : str) (p e : nat) :
  Re.search pat s = None -> ~ match_span pat s p e.
Proof.
  unfold Re.search. intros H (a' & c' & r' & Hs' & Ha' & He').
  destruct (Py.find (pat_header pat) s) as [q|] eqn:Fh.
  - destruct (find_occurrence _ _ _ Fh) as (a & b & Hs & Ha).
    pose proof (find_is_first _ _ _ Fh a' _ Hs') as L.
    rewrite Hs, <- Ha, skipn_exact2 in H.
    destruct (Py.find (pat_footer pat) b) eqn:Ff; [discriminate|].
    apply (find_none _ _ Ff).
    assert (Hb : b = skipn (length a + length (pat_header pat)) s)
      by (now rewrite Hs, skipn_exact2).
    assert (Hc : c' ++ pat_footer pat ++ r'
                 = skipn (length a' + length (pat_header pat)) s)
      by (now rewrite Hs', skipn_exact2).
    replace (length a' + length (pat_header pat))
      with ((length a' - length a)
            + (length a + length (pat_header pat))) in Hc by lia.
    rewrite <- skipn_skipn, <- Hb in Hc.
    rewrite <- (firstn_skipn (length a' - length a) b), <- Hc.
    exists (firstn (length a' - length a) b ++ c'), r'.
    now rewrite <- !app_assoc.
  - apply (find_none _ _ Fh). exists a', (c' ++ pat_footer pat ++ r').
    exact Hs'.
Qed.

Section Substitution.

Variable pat : Pattern.
Hypothesis header_nonempty : pat_header pat <> [].

Lemma search_end_positive (s : str) (p e : nat) :
  Re.search pat s = Some (p, e) -> p < e /\ e <= length s.
Proof.
  intros H. destruct (search_some _ _ _ _ H) as (a & c & r & -> & <- & -> & _).
  rewrite !length_app.
  destruct (pat_header pat); [congruence|]. simpl. lia.
Qed.

Lemma sub_rounds_stable (n : nat) :
  forall s, length s <= n ->
            Re.sub_rounds (S n) pat s = Re.sub_rounds n pat s.
Proof.
  induction n as [|n IH]; intros s Hs.
  - destruct s; [|simpl in Hs; lia]. simpl.
    unfold Re.search. now rewrite find_nil_nonempty.
  - change (Re.sub_rounds (S (S n)) pat s)
      with (match Re.search pat s with
            | None => s
            | Some (p, e) =>
                firstn p s ++ Re.sub_rounds (S n) pat (skipn e s)
            end).
    change (Re.sub_rounds (S n) pat s)
      with (match Re.search pat s with
            | None => s
            | Some (p, e) => firstn p s ++ Re.sub_rounds n pat (skipn e s)
            end).
    destruct (Re.search pat s) as [[p e]|] eqn:E; [|reflexivity].
    apply search_end_positive in E. rewrite IH; [reflexivity|].
    rewrite length_skipn. lia.
Qed.

Lemma sub_rounds_enough (n : nat) (s : str) :
  length s <= n -> Re.sub_rounds n pat s = Re.sub_empty pat s.
Proof.
  unfold Re.sub_empty. intros H.
  induction H as [|m Hm IH]; [reflexivity|].
  rewrite sub_rounds_stable by exact Hm. exact IH.
Qed.

(** The unfolding equation of [pattern.sub("", s)]. *)
Lemma sub_empty_eq (s : str) :
  Re.sub_empty pat s =
    match Re.search pat s with
    | None => s
    | Some (p, e) => firstn p s ++ Re.sub_empty pat (skipn e s)
    end.
Proof.
  destruct s as [|x s].
  - unfold Re.search. rewrite find_nil_nonempty by assumption.
    reflexivity.
  - unfold Re.sub_empty at 1.
    change (Re.sub_rounds (length (x :: s)) pat (x :: s))
      with (match Re.search pat (x :: s) with
            | None => x :: s
            | Some (p, e) =>
                firstn p (x :: s)
                ++ Re.sub_rounds (length s) pat (skipn e (x :: s))
            end).
    destruct (Re.search pat (x :: s)) as [[p e]|] eqn:E; [|reflexivity].
    apply search_end_positive in E.
    rewrite sub_rounds_enough; [reflexivity|].
    rewrite length_skipn. cbn [length] in *. lia.
Qed.

Lemma sub_empty_no_match (s : str) :
  Re.search pat s = None -> Re.sub_empty pat s = s.
Proof. intros H. rewrite sub_empty_eq, H. reflexivity. Qed.

Lemma sub_empty_block (a c r : str) :
  Py.find (pat_header pat)
          (a ++ pat_header pat ++ c ++ pat_footer pat ++ r)
    = Some (length a) ->
  Py.find (pat_footer pat) (c ++ pat_footer pat ++ r) = Some (length c) ->
  Re.sub_empty pat (a ++ pat_header pat ++ c ++ pat_footer pat ++ r)
    = a ++ Re.sub_empty pat r.
Proof.
  intros Hh Hf. rewrite sub_empty_eq, (search_block _ _ _ _ Hh Hf).
  rewrite firstn_exact. f_equal. f_equal.
  replace (length a + length (pat_header pat) + length c
           + length (pat_footer pat))
    with (length (a ++ pat_header pat ++ c ++ pat_footer pat))
    by (rewrite !length_app; lia).
  replace (a ++ pat_header pat ++ c ++ pat_footer pat ++ r)
    with ((a ++ pat_header pat ++ c ++ pat_footer pat) ++ r)
    by (now rewrite <- !app_assoc).
  apply skipn_exact.
Qed.

Lemma sub_empty_length (s : str) :
  length (Re.sub_empty pat s) <= length s.
Proof.
  remember (length s) as n eqn:Hn.
  revert s Hn. induction n as [n IH] using lt_wf_ind. intros s Hn.
  rewrite sub_empty_eq.
  destruct (Re.search pat s) as [[p e]|] eqn:E; [|lia].
  apply search_end_positive in E.
  rewrite length_app, length_firstn.
  assert (H : length (skipn e s) < n) by (rewrite length_skipn; lia).
  specialize (IH _ H _ eq_refl). rewrite length_skipn in IH. lia.
Qed.

Lemma sub_empty_shrinks (s : str) :
  Re.search pat s <> None -> length (Re.sub_empty pat s) < length s.
Proof.
  intros H. rewrite sub_empty_eq.
  destruct (Re.search pat s) as [[p e]|] eqn:E; [|congruence].
  apply search_end_positive in E.
  rewrite length_app, length_firstn.
  pose proof (sub_empty_length (skipn e s)) as L.
  rewrite length_skipn in L. lia.
Qed.

End Substitution.

(** ** Matches and concatenation *)

Section Locality.

Variable pat : Pattern.
Hypothesis header_nonempty : pat_header pat <> [].

Lemma confined_suffix (d A B Q : str) :
  confined d (A ++ B) Q -> confined d B Q.
Proof.
  intros H a b E.
  destruct (H (A ++ a) b) as [m Hm].
  - now rewrite <- !app_assoc, E.
  - exists m. rewrite <- app_assoc in Hm. now apply app_inv_head in Hm.
Qed.

Lemma find_confined (d P Q : str) :
  confined d P Q -> Py.find d (P ++ Q) = Py.find d P.
Proof.
  intros Hc. destruct (Py.find d P) as [p|] eqn:F.
  - destruct (find_occurrence _ _ _ F) as (a & b & -> & <-).
    rewrite <- !app_assoc. apply find_at. intros a' b' E.
    destruct (Hc a' b') as [m Hm]; [now rewrite <- !app_assoc|].
    exact (find_is_first _ _ _ F a' m Hm).
  - destruct (Py.find d (P ++ Q)) as [p|] eqn:F'; [|reflexivity].
    exfalso. destruct (find_occurrence _ _ _ F') as (a & b & E & _).
    destruct (Hc a b E) as [m Hm]. apply (find_none _ _ F).
    now exists a, m.
Qed.

Lemma search_confined (P Q : str) :
  confined (pat_header pat) P Q -> confined (pat_footer pat) P Q ->
  Re.search pat (P ++ Q) = Re.search pat P.
Proof.
  intros Hh Hf. unfold Re.search. rewrite (find_confined _ _ _ Hh).
  destruct (Py.find (pat_header pat) P) as [p|] eqn:F; [|reflexivity].
  destruct (find_occurrence _ _ _ F) as (a & b & -> & <-).
  rewrite <- !app_assoc, !skipn_exact2.
  rewrite find_confined; [reflexivity|].
  apply (confined_suffix _ (a ++ pat_header pat)).
  now rewrite <- app_assoc.
Qed.

(** Text behind [P] that no match reaches is left where it is. *)
Lemma sub_empty_app_confined (Q : str) :
  forall P,
    confined (pat_header pat) P Q -> confined (pat_footer pat) P Q ->
    Re.sub_empty pat (P ++ Q) = Re.sub_empty pat P ++ Q.
Proof.
  intros P. remember (length P) as n eqn:Hn. revert P Hn.
  induction n as [n IH] using lt_wf_ind. intros P Hn Hh Hf.
  rewrite (sub_empty_eq pat header_nonempty (P ++ Q)).
  rewrite (sub_empty_eq pat header_nonempty P).
  rewrite (search_confined P Q Hh Hf).
  destruct (Re.search pat P) as [[p e]|] eqn:E; [|reflexivity].
  destruct (search_end_positive pat header_nonempty _ _ _ E) as [Hpe He].
  rewrite firstn_app, skipn_app.
  replace (p - length P) with 0 by lia.
  replace (e - length P) with 0 by lia.
  cbn [firstn skipn]. rewrite app_nil_r, <- app_assoc. f_equal.
  assert (Hsplit : P = firstn e P ++ skipn e P)
    by (now rewrite firstn_skipn).
  apply (IH (length (skipn e P))).
  - rewrite length_skipn. lia.
  - reflexivity.
  - apply (confined_suffix _ (firstn e P)). now rewrite <- Hsplit.
  - apply (confined_suffix _ (firstn e P)). now rewrite <- Hsplit.
Qed.

Lemma find_clear (d A Q : str) :
  clear_of d A Q ->
  Py.find d (A ++ Q) = option_map (Nat.add (length A)) (Py.find d Q).
Proof.
  intros Hc. destruct (Py.find d Q) as [p|] eqn:F; cbn [option_map].
  - destruct (find_occurrence _ _ _ F) as (a & b & -> & <-).
    rewrite <- length_app, app_assoc. apply find_at. intros a' b' E.
    destruct (Hc a' b') as [l ->]; [now rewrite <- app_assoc in E|].
    rewrite <- !app_assoc in E. apply app_inv_head in E.
    pose proof (find_is_first _ _ _ F l b' E) as L.
    rewrite !length_app. lia.
  - destruct (Py.find d (A ++ Q)) as [p|] eqn:F'; [|reflexivity].
    exfalso. destruct (find_occurrence _ _ _ F') as (a & b & E & _).
    destruct (Hc a b E) as [l ->]. rewrite <- app_assoc in E.
    apply app_inv_head in E. apply (find_none _ _ F). now exists l, b.
Qed.

(** Text before [Q] that no match starts in is left where it is. *)
Lemma sub_empty_app_clear (A Q : str) :
  clear_of (pat_header pat) A Q ->
  Re.sub_empty pat (A ++ Q) = A ++ Re.sub_empty pat Q.
Proof.
  intros Hc.
  rewrite (sub_empty_eq pat header_nonempty (A ++ Q)).
  rewrite (sub_empty_eq pat header_nonempty Q).
  unfold Re.search. rewrite (find_clear _ _ _ Hc).
  destruct (Py.find (pat_header pat) Q) as [p|] eqn:F; cbn [option_map];
    [|reflexivity].
  replace (skipn (length A + p + length (pat_header pat)) (A ++ Q))
    with (skipn (p + length (pat_header pat)) Q).
  2:{ rewrite skipn_app.
      replace (length A + p + length (pat_header pat) - length A)
        with (p + length (pat_header pat)) by lia.
      rewrite (@skipn_all2 _ _ A) by lia. reflexivity. }
  destruct (Py.find (pat_footer pat)
              (skipn (p + length (pat_header pat)) Q)) as [q|];
    [|reflexivity].
  rewrite firstn_app, skipn_app.
  replace (length A + p - length A) with p by lia.
  rewrite (@firstn_all2 _ _ A) by lia. rewrite (@skipn_all2 _ _ A) by lia.
  rewrite <- app_assoc.
  replace (length A + p + length (pat_header pat) + q
           + length (pat_footer pat) - length A)
    with (p + length (pat_header pat) + q + length (pat_footer pat))
    by lia.
  reflexivity.
Qed.

End Locality.

(** ** Delimiters of checked names *)

Ltac char_facts :=
  unfold Re.is_name_char, Py.is_space, nl, lt_sign, gt_sign, slash in *;
  repeat (rewrite ?orb_true_iff, ?andb_true_iff, ?orb_false_iff,
           ?andb_false_iff, ?N.leb_le, ?N.eqb_eq, ?N.leb_gt, ?N.eqb_neq
           in * );
  lia.

Lemma name_char_plain (c : char) :
  Re.is_name_char c = true ->
  c <> lt_sign /\ c <> gt_sign /\ c <> slash /\ c <> nl
  /\ Py.is_space c = false.
Proof. intros H. repeat split; char_facts. Qed.

Lemma valid_name_inv (n : str) :
  valid_name n = true ->
  n <> [] /\ forall c, In c n -> Re.is_name_char c = true.
Proof.
  unfold valid_name. intros H. apply andb_true_iff in H as [Hne Hall].
  split.
  - destruct n; simpl in Hne; [discriminate Hne|intros E; discriminate E].
  - now apply forallb_forall.
Qed.

Lemma tag_ok_inv (t : Tag) :
  tag_ok t = true ->
  valid_name (tag_name t) = true
  /\ header t = mk_header (tag_name t)
  /\ footer t = mk_footer (tag_name t)
  /\ content t <> []
  /\ Py.strip (content t) = content t
  /\ recognized_position (position t) = true.
Proof.
  unfold tag_ok. intros H.
  repeat (apply andb_true_iff in H as [H ?]).
  split; [unfold valid_name; now rewrite H|]. split; [now apply str_eqb_eq|].
  split; [now apply str_eqb_eq|]. split.
  - destruct (content t); simpl in *; [discriminate|intros E; discriminate E].
  - split; [now apply str_eqb_eq|assumption].
Qed.

Lemma mk_header_delimiter (n : str) :
  valid_name n = true -> delimiter (mk_header n).
Proof.
  intros H. apply valid_name_inv in H as [_ Hall].
  exists (n ++ [gt_sign]). split; [reflexivity|].
  split; intros Hin; apply in_app_iff in Hin as [Hin|[Hin|[]]];
    try (apply Hall, name_char_plain in Hin; tauto); discriminate.
Qed.

Lemma mk_footer_delimiter (n : str) :
  valid_name n = true -> delimiter (mk_footer n).
Proof.
  intros H. apply valid_name_inv in H as [_ Hall].
  exists (slash :: n ++ [gt_sign]). split; [reflexivity|].
  split; intros [Hin|Hin]; try discriminate;
    apply in_app_iff in Hin as [Hin|[Hin|[]]];
    try (apply Hall, name_char_plain in Hin; tauto); discriminate.
Qed.

Lemma header_delimiter (t : Tag) : tag_ok t = true -> delimiter (header t).
Proof.
  intros H. apply tag_ok_inv in H as (Hn & -> & _).
  now apply mk_header_delimiter.
Qed.

Lemma footer_delimiter (t : Tag) : tag_ok t = true -> delimiter (footer t).
Proof.
  intros H. apply tag_ok_inv in H as (Hn & _ & -> & _).
  now apply mk_footer_delimiter.
Qed.

Lemma delimiter_nonempty (d : str) : delimiter d -> d <> [].
Proof. intros (body & -> & _). discriminate. Qed.

Lemma delimiter_no_newline (d : str) : delimiter d -> ~ In nl d.
Proof.
  intros (body & -> & _ & Hnl) [H|H]; [discriminate|tauto].
Qed.

(** Where a delimiter follows text that does not contain it, that is its
    first occurrence. *)
Lemma find_before_delimiter (d a r : str) :
  delimiter d -> ~ occurs d a ->
  Py.find d (a ++ d ++ r) = Some (length a).
Proof.
  intros (body & -> & Hlt & _) Hno. apply find_at. intros a' b' H.
  simpl in H.
  destruct (occurrence_split (lt_sign :: body) a (body ++ r) a' b' lt_sign
              Hlt H) as [(m & Ha & _)|(l & -> & _)].
  - exfalso. apply Hno. exists a', m. exact Ha.
  - rewrite length_app. lia.
Qed.

Section TaggedText.

Variable pat : Pattern.
Hypothesis header_delim : delimiter (pat_header pat).
Hypothesis footer_delim : delimiter (pat_footer pat).

Let header_nonempty : pat_header pat <> [] :=
  delimiter_nonempty _ header_delim.

(** One inserted block is one match. *)
Lemma sub_empty_one_block (s0 c rest : str) :
  ~ occurs (pat_header pat) s0 ->
  ~ occurs (pat_footer pat) c ->
  Re.sub_empty pat (s0 ++ pat_header pat ++ c ++ pat_footer pat ++ rest)
    = s0 ++ Re.sub_empty pat rest.
Proof.
  intros Hh Hf. apply (sub_empty_block pat header_nonempty).
  - now apply find_before_delimiter.
  - now apply find_before_delimiter.
Qed.

(** Substitution takes the inserted blocks out again. *)
Lemma sub_empty_tagged (s plain : str) :
  tagged_text (pat_header pat) (pat_footer pat) s plain ->
  ~ occurs (pat_header pat) plain ->
  Re.sub_empty pat s = plain.
Proof.
  induction 1 as [s|s0 c rest plain Hc Ht IH]; intros Hplain.
  - apply (sub_empty_no_match pat header_nonempty).
    now apply search_none_header.
  - rewrite sub_empty_one_block; trivial.
    + f_equal. apply IH. intros Ho. apply Hplain.
      now apply occurs_app_r.
    + intros Ho. apply Hplain. now apply occurs_app_l.
Qed.

End TaggedText.

(** ** Delimiters of two names *)

Lemma first_split_unique (c : char) (u v x y : str) :
  ~ In c u -> ~ In c v -> u ++ c :: x = v ++ c :: y -> u = v.
Proof.
  revert v. induction u as [|a u IH]; intros v Hu Hv E.
  - destruct v as [|b v]; [reflexivity|]. cbn [app] in E.
    injection E as Hb _. exfalso. apply Hv. left. congruence.
  - destruct v as [|b v]; cbn [app] in E.
    + injection E as Ha _. exfalso. apply Hu. left. congruence.
    + injection E as -> E. f_equal. apply IH; trivial.
      * intros H. apply Hu. now right.
      * intros H. apply Hv. now right.
Qed.

(** A delimiter occurs in a delimiter only as a prefix. *)
Lemma delimiter_in_delimiter (body1 body2 : str) :
  ~ In lt_sign body1 ->
  occurs (lt_sign :: body2) (lt_sign :: body1) ->
  exists b, body1 = body2 ++ b.
Proof.
  intros H1 (a & b & E). destruct a as [|x a]; cbn [app] in E.
  - injection E as E. now exists b.
  - injection E as _ E. exfalso. apply H1. rewrite E.
    apply in_app_iff. right. now left.
Qed.

Section TwoNames.

Variables n1 n2 : str.
Hypothesis n1_ok : valid_name n1 = true.
Hypothesis n2_ok : valid_name n2 = true.
Hypothesis names_differ : n1 <> n2.

Lemma name_no_char (n : str) (c : char) :
  valid_name n = true -> Re.is_name_char c = false -> ~ In c n.
Proof.
  intros Hn Hc Hin. apply valid_name_inv in Hn as [_ Hall].
  apply Hall in Hin. congruence.
Qed.

Lemma name_no_lt (n : str) : valid_name n = true -> ~ In lt_sign n.
Proof. intros H. now apply name_no_char. Qed.

Lemma name_no_gt (n : str) : valid_name n = true -> ~ In gt_sign n.
Proof. intros H. now apply name_no_char. Qed.

Lemma name_head (n : str) :
  valid_name n = true ->
  exists c r, n = c :: r /\ Re.is_name_char c = true.
Proof.
  intros H. apply valid_name_inv in H as [Hne Hall].
  destruct n as [|c r]; [congruence|]. exists c, r. split; trivial.
  apply Hall. now left.
Qed.

Lemma header_body_no_lt (n : str) :
  valid_name n = true -> ~ In lt_sign (n ++ [gt_sign]).
Proof.
  intros Hn Hin. apply in_app_iff in Hin as [Hin|[Hin|[]]].
  - now apply (name_no_lt n).
  - discriminate.
Qed.

Lemma footer_body_no_lt (n : str) :
  valid_name n = true -> ~ In lt_sign (slash :: n ++ [gt_sign]).
Proof.
  intros Hn [Hin|Hin]; [discriminate|].
  now apply (header_body_no_lt n).
Qed.

Lemma other_header_not_in_header :
  ~ occurs (mk_header n2) (mk_header n1).
Proof.
  intros Ho.
  destruct (delimiter_in_delimiter _ _ (header_body_no_lt n1 n1_ok) Ho)
    as [b E].
  rewrite <- app_assoc in E. cbn [app] in E.
  apply names_differ.
  apply (first_split_unique gt_sign n1 n2 [] b);
    auto using name_no_gt.
Qed.

Lemma other_header_not_in_footer :
  ~ occurs (mk_header n2) (mk_footer n1).
Proof.
  intros Ho.
  destruct (delimiter_in_delimiter _ _ (footer_body_no_lt n1 n1_ok) Ho)
    as [b E].
  destruct (name_head n2 n2_ok) as (c & r & -> & Hc).
  cbn [app] in E. injection E as <- _. discriminate.
Qed.

Lemma other_footer_not_in_header :
  ~ occurs (mk_footer n2) (mk_header n1).
Proof.
  intros Ho.
  destruct (delimiter_in_delimiter _ _ (header_body_no_lt n1 n1_ok) Ho)
    as [b E].
  destruct (name_head n1 n1_ok) as (c & r & -> & Hc).
  cbn [app] in E. injection E as -> _. discriminate.
Qed.

Lemma other_footer_not_in_footer :
  ~ occurs (mk_footer n2) (mk_footer n1).
Proof.
  intros Ho.
  destruct (delimiter_in_delimiter _ _ (footer_body_no_lt n1 n1_ok) Ho)
    as [b E].
  cbn [app] in E. injection E as E. rewrite <- app_assoc in E.
  cbn [app] in E. apply names_differ.
  apply (first_split_unique gt_sign n1 n2 [] b);
    auto using name_no_gt.
Qed.

End TwoNames.

(** ** Collapsing runs of newlines *)

Lemma collapse_from_cons_other (k : nat) (c : char) (s : str) :
  c <> nl -> Re.collapse_from k (c :: s) = c :: Re.collapse_from 0 s.
Proof.
  intros H. simpl. apply N.eqb_neq in H. now rewrite H.
Qed.

Lemma collapse_from_cons_nl (k : nat) (s : str) :
  Re.collapse_from k (nl :: s) =
    if k <? 2 then nl :: Re.collapse_from (S k) s
    else Re.collapse_from (S k) s.
Proof. reflexivity. Qed.

(** A newline or not: the case analysis every proof below starts with. *)
Lemma nl_dec (c : char) : {c = nl} + {c <> nl}.
Proof. apply N.eq_dec. Qed.

Lemma collapse_from_app_other (k : nat) (A B : str) (c : char) :
  c <> nl ->
  Re.collapse_from k (A ++ c :: B)
    = Re.collapse_from k A ++ c :: Re.collapse_from 0 B.
Proof.
  intros Hc. revert k. induction A as [|x A IH]; intros k.
  - cbn [app]. now rewrite collapse_from_cons_other.
  - cbn [app]. destruct (nl_dec x) as [->|Hx].
    + rewrite !collapse_from_cons_nl. destruct (k <? 2); cbn [app];
        now rewrite IH.
    + rewrite !collapse_from_cons_other by exact Hx. cbn [app].
      now rewrite IH.
Qed.

Lemma collapse_from_length (k : nat) (s : str) :
  length (Re.collapse_from k s) <= length s.
Proof.
  revert k. induction s as [|x s IH]; intros k; [simpl; lia|].
  destruct (nl_dec x) as [->|Hx].
  - rewrite collapse_from_cons_nl. destruct (k <? 2); simpl;
      specialize (IH (S k)); lia.
  - rewrite collapse_from_cons_other by exact Hx. simpl.
    specialize (IH 0); lia.
Qed.

(** What the collapsing does to a run of newlines that a character other
    than a newline ends: a run longer than two is cut down to two. *)
Lemma collapse_from_run (j k : nat) (c : char) (s : str) :
  c <> nl ->
  Re.collapse_from k (repeat nl j ++ c :: s)
  = repeat nl (Nat.min j (2 - k)) ++ c :: Re.collapse_from 0 s.
Proof.
  intros Hc. revert k. induction j as [|j IH]; intros k.
  - cbn [repeat app Nat.min]. now apply collapse_from_cons_other.
  - cbn [repeat app]. rewrite collapse_from_cons_nl, IH.
    destruct (k <? 2) eqn:E.
    + apply Nat.ltb_lt in E.
      replace (Nat.min (S j) (2 - k)) with (S (Nat.min j (2 - S k)))
        by lia.
      reflexivity.
    + apply Nat.ltb_ge in E.
      replace (Nat.min (S j) (2 - k)) with 0 by lia.
      replace (Nat.min j (2 - S k)) with 0 by lia. reflexivity.
Qed.

(** Collapsing is idempotent (from any state of the run counter). *)
Lemma collapse_from_idem (k : nat) (s : str) :
  Re.collapse_from (Nat.min k 2) (Re.collapse_from k s)
    = Re.collapse_from k s.
Proof.
  revert k. induction s as [|x s IH]; intros k; [reflexivity|].
  destruct (nl_dec x) as [->|Hx].
  - rewrite collapse_from_cons_nl. destruct (k <? 2) eqn:E.
    + apply Nat.ltb_lt in E. rewrite Nat.min_l by lia.
      rewrite collapse_from_cons_nl.
      replace (k <? 2) with true by (symmetry; apply Nat.ltb_lt; lia).
      f_equal. specialize (IH (S k)).
      rewrite Nat.min_l in IH by lia. exact IH.
    + apply Nat.ltb_ge in E. specialize (IH (S k)).
      rewrite Nat.min_r in IH by lia. rewrite Nat.min_r by lia. exact IH.
  - rewrite !collapse_from_cons_other by exact Hx. f_equal.
    exact (IH 0).
Qed.

Lemma collapse_newlines_idem (s : str) :
  Re.collapse_newlines (Re.collapse_newlines s) = Re.collapse_newlines s.
Proof. exact (collapse_from_idem 0 s). Qed.

(** A text the collapsing leaves alone stays so from an earlier state, and
    so do its prefixes and suffixes. *)
Lemma collapse_fixed_weaken (s : str) :
  forall k j, Re.collapse_from k s = s -> j <= k ->
              Re.collapse_from j s = s.
Proof.
  induction s as [|x s IH]; intros k j H Hjk; [reflexivity|].
  destruct (nl_dec x) as [->|Hx].
  - rewrite collapse_from_cons_nl in *. destruct (k <? 2) eqn:E.
    + apply Nat.ltb_lt in E.
      replace (j <? 2) with true by (symmetry; apply Nat.ltb_lt; lia).
      f_equal. injection H as H. apply (IH (S k)); [exact H|lia].
    + exfalso. pose proof (collapse_from_length (S k) s) as L.
      rewrite H in L. simpl in L. lia.
  - rewrite collapse_from_cons_other in * by exact Hx. exact H.
Qed.

Lemma collapse_fixed_prefix (A B : str) :
  forall k, Re.collapse_from k (A ++ B) = A ++ B ->
            Re.collapse_from k A = A.
Proof.
  induction A as [|x A IH]; intros k H; [reflexivity|].
  cbn [app] in H. destruct (nl_dec x) as [->|Hx].
  - rewrite collapse_from_cons_nl in *. destruct (k <? 2) eqn:E.
    + injection H as H. f_equal. now apply IH.
    + exfalso. pose proof (collapse_from_length (S k) (A ++ B)) as L.
      rewrite H in L. simpl in L. lia.
  - rewrite collapse_from_cons_other in * by exact Hx.
    injection H as H. f_equal. now apply IH.
Qed.

Lemma collapse_fixed_suffix (A B : str) :
  Re.collapse_from 0 (A ++ B) = A ++ B -> Re.collapse_from 0 B = B.
Proof.
  induction A as [|x A IH]; intros H; [exact H|].
  cbn [app] in H. apply IH. destruct (nl_dec x) as [->|Hx].
  - rewrite collapse_from_cons_nl in H. simpl in H. injection H as H.
    apply (collapse_fixed_weaken _ 1 0 H). lia.
  - rewrite collapse_from_cons_other in H by exact Hx.
    now injection H as H.
Qed.

(** Collapsing creates no occurrence of a newline-free string. *)
Lemma collapse_from_prefix_inv (h : str) :
  ~ In nl h ->
  forall k s b, k < 2 \/ h = [] ->
    Re.collapse_from k s = h ++ b -> exists b', s = h ++ b'.
Proof.
  intros Hnl. induction h as [|y h IH]; intros k s b Hk H.
  - exists s; reflexivity.
  - assert (Hy : y <> nl) by (intros ->; apply Hnl; left; reflexivity).
    assert (Hh : ~ In nl h) by (intros Hin; apply Hnl; right; exact Hin).
    destruct Hk as [Hk|Hk]; [|discriminate].
    destruct s as [|x s]; [discriminate|].
    destruct (nl_dec x) as [->|Hx].
    + rewrite collapse_from_cons_nl in H.
      replace (k <? 2) with true in H by (symmetry; apply Nat.ltb_lt; lia).
      simpl in H. injection H as Hxy _. congruence.
    + rewrite collapse_from_cons_other in H by exact Hx.
      simpl in H. injection H as -> H.
      destruct (IH Hh 0 s b (or_introl Nat.lt_0_2) H) as [b' ->].
      exists b'; reflexivity.
Qed.

Lemma collapse_from_occurs (d : str) :
  d <> [] -> ~ In nl d ->
  forall s k, occurs d (Re.collapse_from k s) -> occurs d s.
Proof.
  intros Hne Hnl. induction s as [|x s IH]; intros k (a & b & H).
  - simpl in H. symmetry in H. apply app_eq_nil in H as [_ H].
    apply app_eq_nil in H as [H _]. congruence.
  - destruct (nl_dec x) as [->|Hx].
    + rewrite collapse_from_cons_nl in H.
      assert (Hrec : occurs d (Re.collapse_from (S k) s)
                     -> occurs d (nl :: s)).
      { intros Ho. apply (occurs_app_r d [nl] s). now apply (IH (S k)). }
      destruct (k <? 2); [|apply Hrec; now exists a, b].
      destruct a as [|y a].
      * destruct d as [|y d]; [congruence|]. simpl in H.
        injection H as Hy _. exfalso; apply Hnl; left; congruence.
      * simpl in H. injection H as _ H. apply Hrec. now exists a, b.
    + rewrite collapse_from_cons_other in H by exact Hx.
      destruct a as [|y a].
      * destruct d as [|y d]; [congruence|]. simpl in H.
        injection H as Hy H. subst y.
        assert (Hd : ~ In nl d) by (intros Hin; apply Hnl; right; exact Hin).
        destruct (collapse_from_prefix_inv d Hd 0 s b
                    (or_introl Nat.lt_0_2) H) as [b' ->].
        exists [], b'. reflexivity.
      * simpl in H. injection H as _ H.
        apply (occurs_app_r d [x] s). apply (IH 0). now exists a, b.
Qed.

(** ** Trimming *)

Lemma lstrip_cons_space (c : char) (s : str) :
  Py.is_space c = true -> Py.lstrip (c :: s) = Py.lstrip s.
Proof. intros H. simpl. now rewrite H. Qed.

Lemma lstrip_cons_other (c : char) (s : str) :
  Py.is_space c = false -> Py.lstrip (c :: s) = c :: s.
Proof. intros H. simpl. now rewrite H. Qed.

Lemma lstrip_suffix (s : str) :
  exists w, s = w ++ Py.lstrip s /\ forallb Py.is_space w = true.
Proof.
  induction s as [|c s (w & Hs & Hw)]; [exists []; split; reflexivity|].
  destruct (Py.is_space c) eqn:E.
  - exists (c :: w). rewrite lstrip_cons_space by exact E. split.
    + simpl. now f_equal.
    + simpl. now rewrite E.
  - exists []. rewrite lstrip_cons_other by exact E. split; reflexivity.
Qed.

Lemma lstrip_head (s r : str) (c : char) :
  Py.lstrip s = c :: r -> Py.is_space c = false.
Proof.
  induction s as [|x s IH]; intros H; [discriminate|].
  destruct (Py.is_space x) eqn:E.
  - rewrite lstrip_cons_space in H by exact E. now apply IH.
  - rewrite lstrip_cons_other in H by exact E. congruence.
Qed.

Lemma lstrip_fixed (s : str) :
  (forall c r, s = c :: r -> Py.is_space c = false) -> Py.lstrip s = s.
Proof.
  destruct s as [|c s]; intros H; [reflexivity|].
  apply lstrip_cons_other. now apply (H c s).
Qed.

Lemma lstrip_idem (s : str) : Py.lstrip (Py.lstrip s) = Py.lstrip s.
Proof.
  apply lstrip_fixed. intros c r H. now apply lstrip_head in H.
Qed.

Lemma lstrip_app_space (w s : str) :
  forallb Py.is_space w = true -> Py.lstrip (w ++ s) = Py.lstrip s.
Proof.
  induction w as [|c w IH]; intros H; [reflexivity|].
  simpl in H. apply andb_true_iff in H as [Hc Hw].
  cbn [app]. rewrite lstrip_cons_space by exact Hc. now apply IH.
Qed.

Lemma lstrip_all_space (w : str) :
  forallb Py.is_space w = true -> Py.lstrip w = [].
Proof.
  intros H. rewrite <- (app_nil_r w). now rewrite lstrip_app_space.
Qed.

(** Trimming on the left stops at the first character that is not white
    space. *)
Lemma lstrip_keeps (U X : str) (a : char) :
  Py.is_space a = false ->
  exists U', Py.lstrip (U ++ a :: X) = U' ++ a :: X.
Proof.
  intros Ha. induction U as [|c U [U' IH]].
  - exists []. now apply lstrip_cons_other.
  - cbn [app]. destruct (Py.is_space c) eqn:E.
    + exists U'. now rewrite lstrip_cons_space.
    + exists (c :: U). now rewrite lstrip_cons_other.
Qed.

Lemma rstrip_prefix (s : str) :
  exists w, s = Py.rstrip s ++ w /\ forallb Py.is_space w = true.
Proof.
  unfold Py.rstrip. destruct (lstrip_suffix (rev s)) as (w & Hs & Hw).
  exists (rev w). split.
  - rewrite <- rev_app_distr, <- Hs. now rewrite rev_involutive.
  - rewrite forallb_forall in *. intros x Hx. apply Hw.
    now apply in_rev.
Qed.

Lemma rstrip_keeps (P V : str) (z : char) :
  Py.is_space z = false ->
  exists V', Py.rstrip (P ++ z :: V) = P ++ z :: V'.
Proof.
  intros Hz. unfold Py.rstrip.
  rewrite rev_app_distr. cbn [rev]. rewrite <- app_assoc. cbn [app].
  destruct (lstrip_keeps (rev V) (rev P) z Hz) as [V' ->].
  exists (rev V'). rewrite rev_app_distr. cbn [rev].
  rewrite rev_involutive, <- app_assoc. reflexivity.
Qed.

Lemma rstrip_app_space (s w : str) :
  forallb Py.is_space w = true -> Py.rstrip (s ++ w) = Py.rstrip s.
Proof.
  intros H. unfold Py.rstrip. rewrite rev_app_distr.
  rewrite lstrip_app_space; [reflexivity|].
  rewrite forallb_forall in *. intros x Hx. apply H. now apply in_rev.
Qed.

Lemma rstrip_idem (s : str) : Py.rstrip (Py.rstrip s) = Py.rstrip s.
Proof.
  unfold Py.rstrip. now rewrite rev_involutive, lstrip_idem.
Qed.

Lemma strip_infix (s : str) : exists u w, s = u ++ Py.strip s ++ w.
Proof.
  unfold Py.strip. destruct (lstrip_suffix s) as (u & Hs & _).
  destruct (rstrip_prefix (Py.lstrip s)) as (w & Hl & _).
  exists u, w. now rewrite <- Hl.
Qed.

Lemma strip_length (s : str) : length (Py.strip s) <= length s.
Proof.
  destruct (strip_infix s) as (u & w & H).
  rewrite H at 2. rewrite !length_app. lia.
Qed.

Lemma strip_occurs (d s : str) : occurs d (Py.strip s) -> occurs d s.
Proof.
  intros H. apply (occurs_trans _ _ _ H).
  destruct (strip_infix s) as (u & w & Hs). now exists u, w.
Qed.

Lemma strip_idem (s : str) : Py.strip (Py.strip s) = Py.strip s.
Proof.
  unfold Py.strip at 1.
  assert (Hl : Py.lstrip (Py.strip s) = Py.strip s).
  { apply lstrip_fixed. intros c r H. unfold Py.strip in H.
    destruct (rstrip_prefix (Py.lstrip s)) as (w & Hw & _).
    rewrite H in Hw. cbn [app] in Hw. now apply lstrip_head in Hw. }
  rewrite Hl. unfold Py.strip. apply rstrip_idem.
Qed.

Lemma strip_all_space (w : str) :
  forallb Py.is_space w = true -> Py.strip w = [].
Proof.
  intros H. unfold Py.strip. now rewrite lstrip_all_space.
Qed.

(** A trimmed, non-empty text starts and ends with a character that is not
    white space. *)
Lemma strip_fixed_head (s r : str) (a : char) :
  Py.strip s = s -> s = a :: r -> Py.is_space a = false.
Proof.
  intros H ->. unfold Py.strip in H.
  destruct (rstrip_prefix (Py.lstrip (a :: r))) as (w & Hw & _).
  rewrite H in Hw. cbn [app] in Hw. now apply lstrip_head in Hw.
Qed.

Lemma strip_fixed_last (s r : str) (z : char) :
  Py.strip s = s -> s = r ++ [z] -> Py.is_space z = false.
Proof.
  intros H ->. unfold Py.strip, Py.rstrip in H.
  apply (f_equal (@rev char)) in H. rewrite rev_involutive in H.
  rewrite rev_app_distr in H. cbn [rev app] in H.
  now apply lstrip_head in H.
Qed.

Lemma nonempty_last (s : str) : s <> [] -> exists r z, s = r ++ [z].
Proof.
  intros H. destruct (exists_last H) as (r & z & ->). now exists r, z.
Qed.

(** Trimming keeps whatever lies between two characters that are not white
    space. *)
Lemma strip_keeps (U M V : str) (a z : char) :
  Py.is_space a = false -> Py.is_space z = false ->
  exists U' V',
    Py.strip (U ++ a :: M ++ z :: V) = U' ++ a :: M ++ z :: V'.
Proof.
  intros Ha Hz. unfold Py.strip.
  destruct (lstrip_keeps U (M ++ z :: V) a Ha) as [U' ->].
  replace (U' ++ a :: M ++ z :: V) with ((U' ++ a :: M) ++ z :: V)
    by (now rewrite <- app_assoc).
  destruct (rstrip_keeps (U' ++ a :: M) V z Hz) as [V' ->].
  exists U', V'. now rewrite <- app_assoc.
Qed.

(** ** Collapsing and trimming around a block *)

Lemma collapse_plain (s : str) (k : nat) :
  ~ In nl s -> Re.collapse_from k s = s.
Proof.
  revert k. induction s as [|c s IH]; intros k H; [reflexivity|].
  rewrite collapse_from_cons_other.
  - f_equal. apply IH. intros Hin. apply H. now right.
  - intros ->. apply H. now left.
Qed.

(** A text without three newlines in a row is left alone. *)
Lemma collapse_no_triple (s : str) :
  forall k, k <= 2 -> ~ occurs [nl; nl; nl] (repeat nl k ++ s) ->
            Re.collapse_from k s = s.
Proof.
  induction s as [|c s IH]; intros k Hk H; [reflexivity|].
  destruct (nl_dec c) as [->|Hc].
  - rewrite collapse_from_cons_nl.
    assert (Hk2 : k < 2).
    { destruct (Nat.eq_dec k 2) as [->|]; [|lia]. exfalso. apply H.
      exists [], s. reflexivity. }
    replace (k <? 2) with true by (symmetry; now apply Nat.ltb_lt).
    f_equal. apply IH; [lia|].
    replace (repeat nl (S k) ++ s) with (repeat nl k ++ nl :: s); trivial.
    change (nl :: s) with ([nl] ++ s). rewrite app_assoc. f_equal.
    change [nl] with (repeat nl 1). rewrite <- repeat_app.
    f_equal. lia.
  - rewrite collapse_from_cons_other by exact Hc. f_equal.
    apply (IH 0); [lia|]. cbn [repeat app]. intros Ho. apply H.
    apply occurs_app_r. now apply (occurs_app_r _ [c]).
Qed.

(** Two texts the collapsing leaves alone, joined by one newline between
    two characters that are not newlines. *)
Lemma collapse_joined (A B : str) (z b : char) :
  z <> nl -> b <> nl ->
  Re.collapse_from 0 (A ++ [z]) = A ++ [z] ->
  Re.collapse_from 0 (b :: B) = b :: B ->
  Re.collapse_from 0 ((A ++ [z]) ++ nl :: b :: B)
  = (A ++ [z]) ++ nl :: b :: B.
Proof.
  intros Hz Hb HA HB. rewrite <- app_assoc. cbn [app].
  rewrite collapse_from_app_other in * by exact Hz.
  rewrite collapse_from_cons_nl. change (0 <? 2) with true. cbv iota.
  rewrite collapse_from_cons_other in * by exact Hb.
  cbn [Re.collapse_from] in HA. apply app_inv_tail in HA.
  injection HB as HB. now rewrite HA, HB.
Qed.

(** The collapsing keeps a text it leaves alone, when that text starts and
    ends with characters that are not newlines. *)
Lemma collapse_around (U M V : str) (a z : char) :
  a <> nl -> z <> nl ->
  Re.collapse_from 0 (a :: M ++ [z]) = a :: M ++ [z] ->
  Re.collapse_from 0 (U ++ (a :: M ++ [z]) ++ V)
  = Re.collapse_from 0 U ++ (a :: M ++ [z]) ++ Re.collapse_from 0 V.
Proof.
  intros Ha Hz H. cbn [app].
  rewrite collapse_from_app_other by exact Ha. do 2 f_equal.
  rewrite collapse_from_cons_other in H by exact Ha. injection H as H.
  rewrite collapse_from_app_other in H by exact Hz.
  cbn [Re.collapse_from] in H. apply app_inv_tail in H.
  rewrite <- !app_assoc. cbn [app].
  rewrite collapse_from_app_other by exact Hz. now rewrite H.
Qed.

Lemma is_space_nl : Py.is_space nl = true.
Proof. reflexivity. Qed.

Lemma not_space_not_nl (c : char) : Py.is_space c = false -> c <> nl.
Proof. intros H ->. discriminate. Qed.

(** Newlines already read change only the newlines that lead the
    result. *)
Lemma lstrip_collapse_from (s : str) (k : nat) :
  Py.lstrip (Re.collapse_from k s) = Py.lstrip (Re.collapse_from 0 s).
Proof.
  revert k. induction s as [|c s IH]; intros k; [reflexivity|].
  destruct (nl_dec c) as [->|Hc].
  - rewrite !collapse_from_cons_nl. change (0 <? 2) with true. cbv iota.
    rewrite (lstrip_cons_space nl (Re.collapse_from 1 s) is_space_nl).
    rewrite (IH 1).
    destruct (k <? 2); [rewrite (lstrip_cons_space nl _ is_space_nl)|];
      apply IH.
  - now rewrite !collapse_from_cons_other.
Qed.

Lemma collapse_from_spaces (w : str) (k : nat) :
  forallb Py.is_space w = true ->
  forallb Py.is_space (Re.collapse_from k w) = true.
Proof.
  revert k. induction w as [|c w IH]; intros k H; [reflexivity|].
  cbn [forallb] in H. apply andb_true_iff in H as [Hc Hw].
  cbn [Re.collapse_from].
  destruct (c =? nl)%N; [destruct (k <? 2)|]; cbn [forallb];
    rewrite ?Hc; cbn [andb]; now apply IH.
Qed.

Lemma collapse_from_app_spaces (s w : str) (k : nat) :
  forallb Py.is_space w = true ->
  exists w', Re.collapse_from k (s ++ w) = Re.collapse_from k s ++ w'
             /\ forallb Py.is_space w' = true.
Proof.
  intros Hw. revert k. induction s as [|c s IH]; intros k.
  - exists (Re.collapse_from k w). split; [reflexivity|].
    now apply collapse_from_spaces.
  - cbn [app Re.collapse_from].
    destruct (c =? nl)%N; [destruct (k <? 2)|].
    + destruct (IH (S k)) as (w' & -> & H). now exists w'.
    + apply IH.
    + destruct (IH 0) as (w' & -> & H). now exists w'.
Qed.

Lemma strip_app_space (s w : str) :
  forallb Py.is_space w = true -> Py.strip (s ++ w) = Py.strip s.
Proof.
  intros Hw. unfold Py.strip.
  destruct (lstrip_suffix s) as (u & Hs & Hu).
  rewrite Hs at 1. rewrite <- app_assoc, (lstrip_app_space u _ Hu).
  destruct (Py.lstrip s) as [|a y] eqn:E.
  - cbn [app]. now rewrite (lstrip_all_space w Hw).
  - cbn [app]. pose proof (lstrip_head _ _ _ E) as Ha.
    rewrite lstrip_cons_other by exact Ha.
    exact (rstrip_app_space (a :: y) w Hw).
Qed.

Lemma strip_space_app (w s : str) :
  forallb Py.is_space w = true -> Py.strip (w ++ s) = Py.strip s.
Proof.
  intros Hw. unfold Py.strip. now rewrite lstrip_app_space.
Qed.

(** White space behind a text, or newlines before it, do not show after
    collapsing and trimming. *)
Lemma normalise_app_spaces (s w : str) :
  forallb Py.is_space w = true ->
  Py.strip (Re.collapse_newlines (s ++ w))
  = Py.strip (Re.collapse_newlines s).
Proof.
  intros Hw. unfold Re.collapse_newlines.
  destruct (collapse_from_app_spaces s w 0 Hw) as (w' & -> & Hw').
  now apply strip_app_space.
Qed.

Lemma normalise_newlines_app (j : nat) (s : str) :
  Py.strip (Re.collapse_newlines (repeat nl j ++ s))
  = Py.strip (Re.collapse_newlines s).
Proof.
  unfold Re.collapse_newlines, Py.strip. f_equal.
  generalize 0 at 1. induction j as [|j IH]; intros k.
  - cbn [repeat app]. apply lstrip_collapse_from.
  - cbn [repeat app]. rewrite collapse_from_cons_nl.
    destruct (k <? 2);
      [rewrite (lstrip_cons_space nl _ is_space_nl)|]; apply IH.
Qed.

(** ** [_clean_string] *)

Section CleanString.

Variable t : Tag.
Hypothesis t_ok : tag_ok t = true.

Let pat := _build_cleanup_pattern t.

Lemma pattern_header_nonempty : pat_header pat <> [].
Proof. apply delimiter_nonempty. simpl. now apply header_delimiter. Qed.

(** The result of a cleaning is left alone by the collapsing and by the
    trimming. *)
Lemma clean_string_normal (s : str) :
  Re.collapse_newlines (_clean_string s pat) = _clean_string s pat
  /\ Py.strip (_clean_string s pat) = _clean_string s pat.
Proof.
  unfold _clean_string. split; [|apply strip_idem].
  set (X := Re.collapse_newlines (Re.sub_empty pat s)).
  assert (HX : Re.collapse_from 0 X = X) by apply collapse_newlines_idem.
  destruct (strip_infix X) as (u & w & Hs). rewrite Hs in HX.
  apply collapse_fixed_suffix in HX.
  now apply collapse_fixed_prefix in HX.
Qed.

Lemma clean_string_fixed (s : str) :
  Re.search pat s = None ->
  Re.collapse_newlines s = s -> Py.strip s = s ->
  _clean_string s pat = s.
Proof.
  intros Hs Hc Ht. unfold _clean_string.
  rewrite (sub_empty_no_match pat pattern_header_nonempty s Hs).
  now rewrite Hc.
Qed.

Lemma clean_string_length (s : str) :
  length (_clean_string s pat) <= length (Re.sub_empty pat s).
Proof.
  unfold _clean_string.
  pose proof (strip_length
                (Re.collapse_newlines (Re.sub_empty pat s))) as L1.
  pose proof (collapse_from_length 0 (Re.sub_empty pat s)) as L2.
  unfold Re.collapse_newlines in *. lia.
Qed.

(** A second cleaning changes nothing exactly when the first one left no
    match behind. *)
Lemma clean_string_twice (s : str) :
  _clean_string (_clean_string s pat) pat = _clean_string s pat
  <-> Re.search pat (_clean_string s pat) = None.
Proof.
  split.
  - intros H. destruct (Re.search pat (_clean_string s pat)) eqn:E;
      [|reflexivity].
    exfalso.
    assert (Hne : Re.search pat (_clean_string s pat) <> None)
      by congruence.
    pose proof (sub_empty_shrinks pat pattern_header_nonempty _ Hne) as L.
    pose proof (clean_string_length (_clean_string s pat)) as L'.
    rewrite H in L'. lia.
  - intros H. destruct (clean_string_normal s) as [Hc Ht].
    now apply clean_string_fixed.
Qed.

(** Cleaning a text made of header-free text and whole blocks leaves the
    header-free text, normalised, and no header in it. *)
Lemma clean_string_tagged (s plain : str) :
  tagged_text (header t) (footer t) s plain ->
  ~ occurs (header t) plain ->
  _clean_string s pat = Py.strip (Re.collapse_newlines plain)
  /\ ~ occurs (header t) (_clean_string s pat).
Proof.
  intros Ht Hp.
  assert (E : Re.sub_empty pat s = plain).
  { apply sub_empty_tagged; simpl; trivial.
    - now apply header_delimiter.
    - now apply footer_delimiter. }
  unfold _clean_string. rewrite E. split; [reflexivity|].
  intros Ho. apply Hp. apply strip_occurs in Ho.
  pose proof (header_delimiter t t_ok) as Hd.
  apply (collapse_from_occurs (header t)
           (delimiter_nonempty _ Hd) (delimiter_no_newline _ Hd)
           plain 0 Ho).
Qed.

End CleanString.

(** ** Dicts *)

Lemma dict_get_set_same (k : str) (v dflt : pyval) (d : list (str * pyval)) :
  dict_get k (dict_set k v d) dflt = v.
Proof.
  induction d as [|[k' w] d IH]; simpl.
  - now rewrite str_eqb_refl.
  - destruct (str_eqb k' k) eqn:E; simpl; now rewrite E.
Qed.

Lemma dict_get_set_other (k k' : str) (v dflt : pyval)
  (d : list (str * pyval)) :
  k <> k' -> dict_get k' (dict_set k v d) dflt = dict_get k' d dflt.
Proof.
  intros Hk. induction d as [|[k0 w] d IH]; simpl.
  - destruct (str_eqb k k') eqn:E; [|reflexivity].
    apply str_eqb_eq in E. contradiction.
  - destruct (str_eqb k0 k) eqn:E; simpl.
    + apply str_eqb_eq in E. subst k0.
      destruct (str_eqb k k') eqn:E'; [|reflexivity].
      apply str_eqb_eq in E'. contradiction.
    + destruct (str_eqb k0 k'); [reflexivity|exact IH].
Qed.

(** ** One text, one part, one entry *)

Section CleanupSteps.

Variable t : Tag.

Let pat := _build_cleanup_pattern t.

Lemma clean_text_dropped (s : str) :
  clean_text t s = Dropped <-> emptied_text t s.
Proof.
  unfold clean_text, emptied_text. fold pat.
  destruct (both_present t s); [|split; [discriminate|intros [? _]; discriminate]].
  destruct (_clean_string s pat) as [|c r] eqn:E; simpl.
  - split; auto.
  - split; [|intros [_ ?]; discriminate].
    destruct (negb (str_eqb (c :: r) s)); discriminate.
Qed.

Lemma clean_text_replaced (s c : str) :
  clean_text t s = Replaced c ->
  both_present t s = true /\ c = _clean_string s pat /\ c <> [] /\ c <> s.
Proof.
  unfold clean_text. fold pat.
  destruct (both_present t s); [|discriminate].
  destruct (_clean_string s pat) as [|x r] eqn:E; simpl; [discriminate|].
  destruct (str_eqb (x :: r) s) eqn:Q; simpl; [discriminate|].
  intros H. injection H as <-. apply str_eqb_neq in Q.
  repeat split; trivial. discriminate.
Qed.

Lemma clean_text_kept (s : str) :
  clean_text t s = Kept -> derived t s s.
Proof.
  unfold clean_text, derived. fold pat.
  destruct (both_present t s); [|now left].
  destruct (_clean_string s pat) as [|x r] eqn:E; simpl; [discriminate|].
  destruct (str_eqb (x :: r) s) eqn:Q; simpl; [|discriminate].
  intros _. right. apply str_eqb_eq in Q. now split.
Qed.

Lemma type_is_not_text : lit "text" <> lit "type".
Proof. discriminate. Qed.

Lemma part_texts_set_text (d : list (str * pyval)) (c : str) :
  dict_get (lit "type") d VNone = VStr (lit "text") ->
  part_texts (VDict (dict_set (lit "text") (VStr c) d)) = [c].
Proof.
  intros H. unfold part_texts.
  rewrite dict_get_set_other by exact type_is_not_text.
  rewrite H, str_eqb_refl, dict_get_set_same. reflexivity.
Qed.

(** The shape a part must have for [clean_part] to look at its text. *)
Lemma clean_part_text_part (part : pyval) :
  clean_part t part <> Kept ->
  exists d s, part = VDict d
              /\ dict_get (lit "type") d VNone = VStr (lit "text")
              /\ dict_get (lit "text") d (VStr []) = VStr s
              /\ clean_part t part =
                   match clean_text t s with
                   | Dropped => Dropped
                   | Replaced c =>
                       Replaced (VDict (dict_set (lit "text") (VStr c) d))
                   | Kept => Kept
                   end.
Proof.
  intros H. destruct part as [| | | | |d|]; try (exfalso; now apply H).
  unfold clean_part in *.
  destruct (dict_get (lit "type") d VNone) as [| | |ty| | |] eqn:Ety;
    try (exfalso; now apply H).
  destruct (str_eqb ty (lit "text")) eqn:Q; [|exfalso; now apply H].
  apply str_eqb_eq in Q. subst ty.
  destruct (dict_get (lit "text") d (VStr [])) as [| | |s| | |] eqn:Etx;
    try (exfalso; now apply H).
  exists d, s. repeat split; trivial.
Qed.

Lemma part_texts_text_part (d : list (str * pyval)) (s : str) :
  dict_get (lit "type") d VNone = VStr (lit "text") ->
  dict_get (lit "text") d (VStr []) = VStr s ->
  part_texts (VDict d) = [s].
Proof.
  intros Hty Htx. unfold part_texts. now rewrite Hty, str_eqb_refl, Htx.
Qed.

Lemma clean_part_kept (part : pyval) (u : str) :
  clean_part t part = Kept -> In u (part_texts part) -> derived t u u.
Proof.
  intros H Hu. destruct part as [| | | | |d|]; try contradiction.
  unfold clean_part in H. unfold part_texts in Hu.
  destruct (dict_get (lit "type") d VNone) as [| | |ty| | |];
    try contradiction.
  destruct (str_eqb ty (lit "text")); [|contradiction].
  destruct (dict_get (lit "text") d (VStr [])) as [| | |s| | |];
    try contradiction.
  destruct Hu as [<-|[]].
  destruct (clean_text t s) eqn:E; try discriminate.
  now apply clean_text_kept.
Qed.

Lemma clean_part_replaced (part part' : pyval) (u : str) :
  clean_part t part = Replaced part' -> In u (part_texts part') ->
  exists s, In s (part_texts part) /\ derived t s u.
Proof.
  intros H Hu.
  destruct (clean_part_text_part part) as (d & s & -> & Hty & Htx & E);
    [congruence|].
  rewrite H in E. destruct (clean_text t s) as [|c|] eqn:Ec;
    try discriminate.
  injection E as ->. rewrite part_texts_set_text in Hu by exact Hty.
  destruct Hu as [<-|[]]. exists s. split.
  - rewrite (part_texts_text_part d s Hty Htx). now left.
  - apply clean_text_replaced in Ec as (Hb & -> & _). right. now split.
Qed.

Lemma clean_parts_texts (parts : list pyval) (u : str) :
  In u (flat_map part_texts (fst (fst (clean_parts t parts)))) ->
  exists s, In s (flat_map part_texts parts) /\ derived t s u.
Proof.
  induction parts as [|part parts IH]; [intros []|].
  cbn [clean_parts]. destruct (clean_parts t parts) as [[cp ch] n].
  cbn [fst] in IH. cbn [flat_map].
  assert (Hrest : In u (flat_map part_texts cp) ->
                  exists s, In s (part_texts part
                                  ++ flat_map part_texts parts)
                            /\ derived t s u).
  { intros Hu. destruct (IH Hu) as (s & Hs & Hd). exists s. split; trivial.
    apply in_app_iff. now right. }
  destruct (clean_part t part) as [|part'|] eqn:E; cbn [fst flat_map];
    trivial; intros Hu; apply in_app_iff in Hu as [Hu|Hu]; auto.
  - destruct (clean_part_replaced _ _ _ E Hu) as (s & Hs & Hd).
    exists s. split; trivial. apply in_app_iff. now left.
  - exists u. split; [apply in_app_iff; now left|].
    now apply (clean_part_kept part).
Qed.

(** Without a change the loop over the parts rebuilds the list it read. *)
Lemma clean_parts_unchanged (parts : list pyval) :
  snd (fst (clean_parts t parts)) = false ->
  fst (fst (clean_parts t parts)) = parts.
Proof.
  induction parts as [|part parts IH]; [reflexivity|].
  cbn [clean_parts]. destruct (clean_parts t parts) as [[cp ch] n].
  cbn [fst snd] in *.
  destruct (clean_part t part); cbn [fst snd]; try discriminate.
  intros H. f_equal. now apply IH.
Qed.

Lemma message_texts_set_content (d : list (str * pyval)) (v : pyval) :
  message_texts (VDict (dict_set (lit "content") v d)) =
    match v with
    | VStr c => [c]
    | VList parts => flat_map part_texts parts
    | _ => []
    end.
Proof. unfold message_texts. now rewrite dict_get_set_same. Qed.

Lemma clean_message_texts (msg msg' : pyval) (k : nat) (u : str) :
  clean_message t msg = (Some msg', k) ->
  In u (message_texts msg') ->
  exists s, In s (message_texts msg) /\ derived t s u.
Proof.
  intros H Hu. destruct msg as [| | |s|l|d|]; cbn [clean_message] in H;
    try (injection H as <- _; contradiction).
  - destruct (clean_text t s) as [|c|] eqn:E; try discriminate;
      injection H as <- _; destruct Hu as [<-|[]]; exists s; (split; [now left|]).
    + apply clean_text_replaced in E as (Hb & -> & _). right. now split.
    + now apply clean_text_kept.
  - unfold message_texts.
    destruct (dict_get (lit "content") d (VStr [])) as [| | |s|parts| |] eqn:Ec;
      try discriminate.
    + destruct (clean_text t s) as [|c|] eqn:E; try discriminate;
        injection H as <- _.
      * rewrite message_texts_set_content in Hu. destruct Hu as [<-|[]].
        exists s. split; [now left|].
        apply clean_text_replaced in E as (Hb & -> & _). right. now split.
      * unfold message_texts in Hu. rewrite Ec in Hu.
        destruct Hu as [<-|[]]. exists s. split; [now left|].
        now apply clean_text_kept.
    + pose proof (clean_parts_texts parts u) as Ht.
      pose proof (clean_parts_unchanged parts) as Hsame.
      destruct (clean_parts t parts) as [[cp ch] n]. cbn [fst snd] in *.
      destruct cp as [|p0 cp]; [discriminate|].
      destruct ch; injection H as <- _.
      * rewrite message_texts_set_content in Hu. now apply Ht.
      * unfold message_texts in Hu. rewrite Ec in Hu.
        rewrite Hsame in Ht by reflexivity. now apply Ht.
Qed.

Lemma clean_contexts_texts (msgs : list pyval) (u : str) :
  In u (flat_map message_texts (fst (clean_contexts t msgs))) ->
  exists s, In s (flat_map message_texts msgs) /\ derived t s u.
Proof.
  induction msgs as [|msg msgs IH]; [intros []|].
  cbn [clean_contexts]. destruct (clean_contexts t msgs) as [out n].
  cbn [fst] in IH. cbn [flat_map].
  assert (Hrest : In u (flat_map message_texts out) ->
                  exists s, In s (message_texts msg
                                  ++ flat_map message_texts msgs)
                            /\ derived t s u).
  { intros Hu. destruct (IH Hu) as (s & Hs & Hd). exists s. split; trivial.
    apply in_app_iff. now right. }
  destruct (clean_message t msg) as [[m|] k] eqn:E; cbn [fst flat_map];
    trivial.
  intros Hu. apply in_app_iff in Hu as [Hu|Hu]; auto.
  destruct (clean_message_texts _ _ _ _ E Hu) as (s & Hs & Hd).
  exists s. split; trivial. apply in_app_iff. now left.
Qed.

Lemma clean_field_texts (field : option str) (u : str) :
  In u (option_texts (fst (clean_field t field))) ->
  exists s, In s (option_texts field) /\ derived t s u.
Proof.
  destruct field as [s|]; [|intros []].
  cbn [clean_field]. fold pat.
  destruct (is_empty s) eqn:Es; cbn [negb andb].
  - cbn [fst option_texts]. intros [<-|[]]. exists s. split; [now left|].
    apply is_empty_true in Es. subst s. unfold derived.
    destruct (both_present t []); [right|left]; split; reflexivity.
  - destruct (both_present t s) eqn:Eb; cbn [fst option_texts];
      intros [<-|[]]; exists s; (split; [now left|]).
    + right. now split.
    + left. now split.
Qed.

(** Every text that survives the cleanup of [t] derives from a text of the
    request. *)
Lemma surviving_texts (req : ProviderRequest) (u : str) :
  In u (request_texts (fst (_remove_tags_from_context t req))) ->
  exists s, In s (request_texts req) /\ derived t s u.
Proof.
  unfold _remove_tags_from_context, request_texts.
  pose proof (clean_field_texts (system_prompt req) u) as Hsp.
  pose proof (clean_field_texts (prompt req) u) as Hpr.
  destruct (clean_field t (system_prompt req)) as [sp n1].
  destruct (clean_field t (prompt req)) as [pr n2].
  cbn [fst] in *.
  assert (Hcx : forall cx n3,
             (cx, n3) =
               match contexts req with
               | Some (msg :: rest) =>
                   let '(filtered, n) := clean_contexts t (msg :: rest) in
                   (Some filtered, n)
               | other => (other, 0)
               end ->
             In u (flat_map message_texts (or_default [] cx)) ->
             exists s, In s (flat_map message_texts
                               (or_default [] (contexts req)))
                       /\ derived t s u).
  { intros cx n3 E Hu. destruct (contexts req) as [[|msg rest]|].
    - injection E as -> _. destruct Hu.
    - pose proof (clean_contexts_texts (msg :: rest) u) as Hc.
      destruct (clean_contexts t (msg :: rest)) as [out n].
      injection E as -> _. now apply Hc.
    - injection E as -> _. destruct Hu. }
  destruct (match contexts req with
            | Some (msg :: rest) =>
                let '(filtered, n) := clean_contexts t (msg :: rest) in
                (Some filtered, n)
            | other => (other, 0)
            end) as [cx n3] eqn:E.
  cbn [fst system_prompt prompt contexts]. intros Hu.
  apply in_app_iff in Hu as [Hu|Hu];
    [|apply in_app_iff in Hu as [Hu|Hu]].
  - destruct (Hsp Hu) as (s & Hs & Hd). exists s. split; trivial.
    apply in_app_iff. now left.
  - destruct (Hpr Hu) as (s & Hs & Hd). exists s. split; trivial.
    apply in_app_iff. right. apply in_app_iff. now left.
  - destruct (Hcx cx n3 eq_refl Hu) as (s & Hs & Hd). exists s.
    split; trivial. apply in_app_iff. right. apply in_app_iff. now right.
Qed.

End CleanupSteps.

(** ** Grouping by anchor *)

Lemma bucket_append_bucket (key x : str) (bp bp' : list (str * list str)) :
  bucket_append key x bp = Some bp' ->
  forall k, bucket k bp'
            = bucket k bp ++ (if str_eqb key k then [x] else []).
Proof.
  revert bp'. induction bp as [|[k0 v] bp IH]; intros bp' H k;
    [discriminate|].
  cbn [bucket_append] in H. destruct (str_eqb k0 key) eqn:E.
  - injection H as <-. apply str_eqb_eq in E. subst k0. cbn [bucket].
    destruct (str_eqb key k); [reflexivity|now rewrite app_nil_r].
  - destruct (bucket_append key x bp) as [r|] eqn:B; [|discriminate].
    injection H as <-. cbn [bucket].
    destruct (str_eqb k0 k) eqn:E'; [|now apply IH].
    apply str_eqb_eq in E'. subst k0. rewrite str_eqb_sym_false by exact E.
    now rewrite app_nil_r.
Qed.

Lemma bucket_append_keys (key x : str) (bp bp' : list (str * list str)) :
  bucket_append key x bp = Some bp' -> map fst bp' = map fst bp.
Proof.
  revert bp'. induction bp as [|[k0 v] bp IH]; intros bp' H;
    [discriminate|].
  cbn [bucket_append] in H. destruct (str_eqb k0 key).
  - now injection H as <-.
  - destruct (bucket_append key x bp) as [r|]; [|discriminate].
    injection H as <-. cbn [map fst]. f_equal. now apply IH.
Qed.

Lemma bucket_append_succeeds (key x : str) (bp : list (str * list str)) :
  In key (map fst bp) -> exists bp', bucket_append key x bp = Some bp'.
Proof.
  induction bp as [|[k0 v] bp IH]; [intros []|].
  intros Hin. cbn [bucket_append]. destruct (str_eqb k0 key) eqn:E; eauto.
  destruct Hin as [Hk|Hin].
  - cbn [fst] in Hk. subst k0. now rewrite str_eqb_refl in E.
  - destruct (IH Hin) as [r ->]. cbn [option_map]. eauto.
Qed.

Lemma group_tags_buckets (tags : list Tag) :
  forall bp bp', group_tags tags bp = Some bp' ->
                 forall k, bucket k bp' = bucket k bp ++ blocks_at k tags.
Proof.
  induction tags as [|tag tags IH]; intros bp bp' H k.
  - injection H as <-. unfold blocks_at. cbn [filter map].
    now rewrite app_nil_r.
  - cbn [group_tags] in H.
    destruct (bucket_append (position tag) (_format_tag tag) bp)
      as [bp1|] eqn:B; [|discriminate].
    rewrite (IH _ _ H k), (bucket_append_bucket _ _ _ _ B k).
    unfold blocks_at. cbn [filter].
    destruct (str_eqb (position tag) k); cbn [map];
      now rewrite <- app_assoc.
Qed.

Lemma recognized_position_key (p : str) :
  recognized_position p = true -> In p (map fst by_position_init).
Proof.
  unfold recognized_position. intros H.
  apply orb_true_iff in H as [H|H]; [apply orb_true_iff in H as [H|H]|];
    apply str_eqb_eq in H; subst p; cbn; auto.
Qed.

Lemma group_tags_succeeds (tags : list Tag) :
  positions_ok tags ->
  forall bp, map fst bp = map fst by_position_init ->
             exists bp', group_tags tags bp = Some bp'.
Proof.
  induction 1 as [|tag tags Hp _ IH]; intros bp Hkeys; [cbn; eauto|].
  cbn [group_tags].
  destruct (bucket_append_succeeds (position tag) (_format_tag tag) bp)
    as [bp1 B].
  { rewrite Hkeys. now apply recognized_position_key. }
  rewrite B. apply IH. now rewrite (bucket_append_keys _ _ _ _ B).
Qed.

Lemma inject_tags_cases (tags : list Tag) (req : ProviderRequest) :
  inject_tags tags req = injected tags req
  \/ inject_tags tags req = req.
Proof.
  unfold inject_tags.
  destruct (group_tags tags by_position_init) as [bp|] eqn:G;
    [left|now right].
  rewrite !(group_tags_buckets _ _ _ G). reflexivity.
Qed.

Lemma inject_tags_ok (tags : list Tag) (req : ProviderRequest) :
  positions_ok tags -> inject_tags tags req = injected tags req.
Proof.
  intros Hp. unfold inject_tags.
  destruct (group_tags_succeeds tags Hp by_position_init eq_refl)
    as [bp G].
  rewrite G, !(group_tags_buckets _ _ _ G). reflexivity.
Qed.

Lemma blocks_at_nil (anchor : str) (tags : list Tag) :
  (forall t, In t tags -> position t <> anchor) ->
  blocks_at anchor tags = [].
Proof.
  intros H. unfold blocks_at. induction tags as [|t tags IH]; [reflexivity|].
  cbn [filter].
  replace (str_eqb (position t) anchor) with false.
  - apply IH. intros t' Ht'. apply H. now right.
  - symmetry. apply str_eqb_neq. apply H. now left.
Qed.

(** ** The loops over parts and entries *)

Lemma clean_parts_app (t : Tag) (a b : list pyval) :
  clean_parts t (a ++ b) =
    (fst (fst (clean_parts t a)) ++ fst (fst (clean_parts t b)),
     snd (fst (clean_parts t a)) || snd (fst (clean_parts t b)),
     snd (clean_parts t a) + snd (clean_parts t b)).
Proof.
  induction a as [|p a IH].
  - cbn [app clean_parts fst snd orb plus].
    now destruct (clean_parts t b) as [[cb chb] nb].
  - cbn [app clean_parts]. rewrite IH.
    destruct (clean_parts t a) as [[ca cha] na].
    destruct (clean_parts t b) as [[cb chb] nb]. cbn [fst snd].
    destruct (clean_part t p); reflexivity.
Qed.

Lemma clean_contexts_app (t : Tag) (a b : list pyval) :
  clean_contexts t (a ++ b) =
    (fst (clean_contexts t a) ++ fst (clean_contexts t b),
     snd (clean_contexts t a) + snd (clean_contexts t b)).
Proof.
  induction a as [|m a IH].
  - cbn [app clean_contexts fst snd plus].
    now destruct (clean_contexts t b).
  - cbn [app clean_contexts]. rewrite IH.
    destruct (clean_contexts t a) as [ca na].
    destruct (clean_contexts t b) as [cb nb]. cbn [fst snd].
    destruct (clean_message t m) as [[m'|] k]; cbn [fst snd app];
      f_equal; lia.
Qed.

Lemma clean_contexts_cons (t : Tag) (m : pyval) (rest : list pyval) :
  fst (clean_contexts t (m :: rest)) =
    match fst (clean_message t m) with
    | Some m' => m' :: fst (clean_contexts t rest)
    | None => fst (clean_contexts t rest)
    end.
Proof.
  cbn [clean_contexts]. destruct (clean_contexts t rest) as [out n].
  now destruct (clean_message t m) as [[m'|] k].
Qed.

(** The history after the cleanup, when it has an entry. *)
Lemma remove_contexts_nonempty (t : Tag) (sp pr : option str)
  (pre post : list pyval) (m : pyval) :
  contexts (fst (_remove_tags_from_context t
                   {| system_prompt := sp; prompt := pr;
                      contexts := Some (pre ++ m :: post) |}))
  = Some (fst (clean_contexts t (pre ++ m :: post))).
Proof.
  unfold _remove_tags_from_context. cbn [system_prompt prompt contexts].
  destruct (clean_field t sp) as [sp' n1].
  destruct (clean_field t pr) as [pr' n2].
  destruct (pre ++ m :: post) as [|x l] eqn:E.
  - destruct pre; discriminate.
  - destruct (clean_contexts t (x :: l)) as [out n]. reflexivity.
Qed.

Lemma emptied_part_dropped (t : Tag) (part : pyval) :
  emptied_part t part -> clean_part t part = Dropped.
Proof.
  intros (d & s & -> & Hty & Htx & He). unfold clean_part.
  rewrite Hty, str_eqb_refl, Htx.
  apply clean_text_dropped in He. now rewrite He.
Qed.

Lemma clean_parts_all_dropped (t : Tag) (parts : list pyval) :
  Forall (emptied_part t) parts ->
  fst (fst (clean_parts t parts)) = [] /\ snd (clean_parts t parts) = 0.
Proof.
  induction 1 as [|p parts Hp _ [IH1 IH2]]; [split; reflexivity|].
  cbn [clean_parts]. destruct (clean_parts t parts) as [[cp ch] n].
  cbn [fst snd] in *. rewrite (emptied_part_dropped t p Hp).
  now split.
Qed.

Lemma consumed_dropped (t : Tag) (msg : pyval) :
  consumed t msg -> clean_message t msg = (None, 1).
Proof.
  intros [s He|d s Hc He|d parts Hc Hall]; cbn [clean_message].
  - apply clean_text_dropped in He. now rewrite He.
  - rewrite Hc. apply clean_text_dropped in He. now rewrite He.
  - rewrite Hc. destruct (clean_parts_all_dropped t parts Hall) as [H1 H2].
    destruct (clean_parts t parts) as [[cp ch] n]. cbn [fst snd] in *.
    now subst.
Qed.

Lemma foreign_part_kept (t : Tag) (part : pyval) :
  foreign_part part -> clean_part t part = Kept.
Proof.
  intros Hf. destruct (clean_part t part) eqn:E; trivial; exfalso;
    (destruct (clean_part_text_part t part) as (d & s & -> & Hty & Htx & _);
     [congruence|]);
    unfold foreign_part in Hf;
    rewrite (part_texts_text_part d s Hty Htx) in Hf; discriminate.
Qed.

(** ** A block next to other text *)

Lemma not_in_newlines (d : str) (j : nat) :
  d <> [] -> ~ In nl d -> ~ occurs d (repeat nl j).
Proof.
  intros Hne Hnl. induction j as [|j IH]; intros Ho.
  - apply occurs_nil_inv in Ho. contradiction.
  - cbn [repeat] in Ho.
    destruct (occurs_sep d [] (repeat nl j) nl Hne Hnl Ho) as [H|H].
    + apply occurs_nil_inv in H. contradiction.
    + contradiction.
Qed.

Lemma occurs_app_newlines (d P : str) (j : nat) :
  d <> [] -> ~ In nl d -> occurs d (P ++ repeat nl j) -> occurs d P.
Proof.
  intros Hne Hnl Ho. destruct j as [|j].
  - cbn [repeat] in Ho. now rewrite app_nil_r in Ho.
  - cbn [repeat] in Ho.
    destruct (occurs_sep d P (repeat nl j) nl Hne Hnl Ho) as [H|H];
      trivial.
    now apply not_in_newlines in H.
Qed.

Lemma occurs_newlines_app (d P : str) (j : nat) :
  d <> [] -> ~ In nl d -> occurs d (repeat nl j ++ P) -> occurs d P.
Proof.
  intros Hne Hnl. induction j as [|j IH]; intros Ho; [exact Ho|].
  cbn [repeat app] in Ho.
  destruct (occurs_sep d [] (repeat nl j ++ P) nl Hne Hnl Ho) as [H|H].
  - apply occurs_nil_inv in H. contradiction.
  - now apply IH.
Qed.

(** A newline on each side adds no occurrence of a delimiter. *)
Lemma occurs_wrapped (d c : str) :
  d <> [] -> ~ In nl d -> occurs d ([nl] ++ c ++ [nl]) -> occurs d c.
Proof.
  intros Hne Hnl Ho.
  apply (occurs_newlines_app d (c ++ [nl]) 1 Hne Hnl) in Ho.
  now apply (occurs_app_newlines d c 1 Hne Hnl) in Ho.
Qed.

Lemma spaces_newlines (j : nat) : forallb Py.is_space (repeat nl j) = true.
Proof. induction j; [reflexivity|exact IHj]. Qed.

Section OneBlock.

Variable t : Tag.
Hypothesis t_ok : tag_ok t = true.
Hypothesis content_no_footer : ~ occurs (footer t) (content t).

Let pat := _build_cleanup_pattern t.

Lemma wrapped_content_no_footer :
  ~ occurs (footer t) ([nl] ++ content t ++ [nl]).
Proof.
  intros Ho. apply content_no_footer.
  pose proof (footer_delimiter t t_ok) as Hd.
  exact (occurs_wrapped _ _ (delimiter_nonempty _ Hd)
           (delimiter_no_newline _ Hd) Ho).
Qed.

(** Cleaning takes a block behind a header-free text away, and one before
    it. *)
Lemma clean_block_after (P : str) :
  ~ occurs (header t) P ->
  _clean_string (P ++ blank_line ++ _format_tag t) pat
  = Py.strip (Re.collapse_newlines P).
Proof.
  intros HP. pose proof (header_delimiter t t_ok) as Hd.
  assert (Ht : tagged_text (header t) (footer t)
                 (P ++ blank_line ++ _format_tag t)
                 ((P ++ blank_line) ++ [nl])).
  { replace (P ++ blank_line ++ _format_tag t)
      with ((P ++ blank_line) ++ header t ++ ([nl] ++ content t ++ [nl])
            ++ footer t ++ [nl]).
    - apply tagged_block; [exact wrapped_content_no_footer|].
      apply tagged_plain.
    - unfold _format_tag. now rewrite <- !app_assoc. }
  assert (Hplain : (P ++ blank_line) ++ [nl] = P ++ repeat nl 3)
    by (now rewrite <- app_assoc).
  rewrite Hplain in Ht.
  assert (Hfree : ~ occurs (header t) (P ++ repeat nl 3)).
  { intros Ho. apply HP.
    exact (occurs_app_newlines _ _ 3 (delimiter_nonempty _ Hd)
             (delimiter_no_newline _ Hd) Ho). }
  destruct (clean_string_tagged t t_ok _ _ Ht Hfree) as [E _].
  unfold pat. rewrite E. apply normalise_app_spaces, spaces_newlines.
Qed.

Lemma clean_block_before (P : str) :
  ~ occurs (header t) P ->
  _clean_string (_format_tag t ++ blank_line ++ P) pat
  = Py.strip (Re.collapse_newlines P).
Proof.
  intros HP. pose proof (header_delimiter t t_ok) as Hd.
  assert (Ht : tagged_text (header t) (footer t)
                 (_format_tag t ++ blank_line ++ P)
                 ([] ++ repeat nl 3 ++ P)).
  { replace (_format_tag t ++ blank_line ++ P)
      with ([] ++ header t ++ ([nl] ++ content t ++ [nl])
            ++ footer t ++ repeat nl 3 ++ P).
    - apply tagged_block; [exact wrapped_content_no_footer|].
      apply tagged_plain.
    - unfold _format_tag. now rewrite <- !app_assoc. }
  assert (Hfree : ~ occurs (header t) ([] ++ repeat nl 3 ++ P)).
  { intros Ho. apply HP.
    exact (occurs_newlines_app _ _ 3 (delimiter_nonempty _ Hd)
             (delimiter_no_newline _ Hd) Ho). }
  destruct (clean_string_tagged t t_ok _ _ Ht Hfree) as [E _].
  unfold pat. rewrite E. apply (normalise_newlines_app 3).
Qed.

Lemma clean_header_free (P : str) :
  ~ occurs (header t) P ->
  _clean_string P pat = Py.strip (Re.collapse_newlines P).
Proof.
  intros HP. unfold _clean_string.
  rewrite (sub_empty_no_match pat (pattern_header_nonempty t t_ok));
    [reflexivity|].
  now apply search_none_header.
Qed.

End OneBlock.

Lemma recognized_position_cases (p : str) :
  recognized_position p = true ->
  p = lit "user_message_before" \/ p = lit "user_message_after"
  \/ p = lit "system_prompt".
Proof.
  unfold recognized_position. intros H.
  apply orb_true_iff in H as [H|H]; [apply orb_true_iff in H as [H|H]|];
    apply str_eqb_eq in H; auto.
Qed.

Lemma tag_ok_positions (t : Tag) : tag_ok t = true -> positions_ok [t].
Proof.
  intros H. apply tag_ok_inv in H as (_ & _ & _ & _ & _ & Hp).
  now repeat constructor.
Qed.

(** The fields after the injection of one tag, by anchor. *)
Lemma inject_one (t : Tag) (req : ProviderRequest) :
  tag_ok t = true ->
  (position t = lit "user_message_before"
   /\ prompt (inject_tags [t] req)
      = Some (_format_tag t ++ blank_line ++ or_default [] (prompt req))
   /\ system_prompt (inject_tags [t] req) = system_prompt req)
  \/ (position t = lit "user_message_after"
      /\ prompt (inject_tags [t] req)
         = Some (or_default [] (prompt req) ++ blank_line ++ _format_tag t)
      /\ system_prompt (inject_tags [t] req) = system_prompt req)
  \/ (position t = lit "system_prompt"
      /\ prompt (inject_tags [t] req) = prompt req
      /\ system_prompt (inject_tags [t] req)
         = Some (or_default [] (system_prompt req) ++ blank_line
                 ++ _format_tag t)).
Proof.
  intros Hok. rewrite (inject_tags_ok [t] req (tag_ok_positions t Hok)).
  pose proof Hok as Hp.
  apply tag_ok_inv in Hp as (_ & _ & _ & _ & _ & Hp).
  unfold injected, blocks_at. cbn [filter].
  destruct (recognized_position_cases _ Hp) as [E|[E|E]]; rewrite E.
  - left. repeat split.
  - right; left. repeat split.
  - right; right. repeat split.
Qed.

(** ** Loading the registry *)

Lemma load_slot_enabled (cfg : Config) (key : str) (s : Slot) :
  config_get cfg key = Some (CfgSlot s) ->
  enabled s = Some true ->
  load_slot cfg key =
    if is_empty (slot_name s) then None
    else if negb (TAG_NAME_PATTERN (slot_name s)) then None
    else if is_empty (slot_body s) then None
    else Some {| slot := key;
                 tag_name := slot_name s;
                 content := slot_body s;
                 position :=
                   if negb (recognized_position (slot_position s))
                   then lit "user_message_after" else slot_position s;
                 header := mk_header (slot_name s);
                 footer := mk_footer (slot_name s) |}.
Proof.
  intros Hc He. unfold load_slot. rewrite Hc. cbn [or_default].
  rewrite He. reflexivity.
Qed.

Lemma load_slots_in (cfg : Config) (keys : list str) (key : str) (t : Tag) :
  In key keys -> load_slot cfg key = Some t -> In t (load_slots cfg keys).
Proof.
  intros Hin Hl. induction keys as [|k keys IH]; [destruct Hin|].
  cbn [load_slots]. destruct Hin as [->|Hin].
  - rewrite Hl. now left.
  - destruct (load_slot cfg k); [right|]; now apply IH.
Qed.

Lemma load_slots_from (cfg : Config) (keys : list str) (t : Tag) :
  In t (load_slots cfg keys) ->
  exists key, In key keys /\ load_slot cfg key = Some t.
Proof.
  induction keys as [|k keys IH]; [intros []|].
  cbn [load_slots]. destruct (load_slot cfg k) as [t'|] eqn:E.
  - intros [<-|Hin].
    + exists k. split; [now left|exact E].
    + destruct (IH Hin) as (key & Hk & Hl). exists key.
      split; [now right|exact Hl].
  - intros Hin. destruct (IH Hin) as (key & Hk & Hl). exists key.
    split; [now right|exact Hl].
Qed.

(** A name that passes [TAG_NAME_PATTERN] after trimming is made of name
    characters only: the newline that [$] tolerates is white space. *)
Lemma name_chars_to_end_inv (s : str) :
  Re.name_chars_to_end s = true ->
  s = [] \/ exists r z, s = r ++ [z]
                        /\ forallb Re.is_name_char r = true
                        /\ (Re.is_name_char z = true \/ z = nl).
Proof.
  induction s as [|c s IH]; intros H; [now left|]. right.
  destruct s as [|d s].
  - exists [], c. repeat split. cbn in H.
    apply orb_true_iff in H as [H|H]; [now left|right].
    now apply N.eqb_eq in H.
  - cbn [Re.name_chars_to_end] in H. apply andb_true_iff in H as [Hc H].
    destruct (IH H) as [E|(r & z & E & Hr & Hz)]; [discriminate|].
    exists (c :: r), z. rewrite E. repeat split; trivial.
    cbn [forallb]. now rewrite Hc.
Qed.

Lemma trimmed_name_valid (s : str) :
  Py.strip s = s -> TAG_NAME_PATTERN s = true -> valid_name s = true.
Proof.
  intros Hs Hm. unfold TAG_NAME_PATTERN in Hm.
  destruct s as [|c s']; [discriminate|].
  apply andb_true_iff in Hm as [_ Hm].
  destruct (name_chars_to_end_inv _ Hm) as [E|(r & z & E & Hr & Hz)];
    [discriminate|].
  unfold valid_name. cbn [is_empty negb andb]. rewrite E, forallb_app, Hr.
  cbn [forallb andb]. destruct Hz as [Hz| ->]; [now rewrite Hz|].
  pose proof (strip_fixed_last _ r nl Hs E) as Hsp. discriminate.
Qed.

Lemma load_slot_ok (cfg : Config) (key : str) (t : Tag) :
  load_slot cfg key = Some t -> tag_ok t = true.
Proof.
  unfold load_slot.
  destruct (or_default _ (config_get cfg key)) as [s|]; [|discriminate].
  destruct (negb (or_default false (enabled s))); [discriminate|].
  fold (slot_name s) (slot_body s) (slot_position s).
  destruct (is_empty (slot_name s)) eqn:En; [discriminate|].
  destruct (TAG_NAME_PATTERN (slot_name s)) eqn:Em; [|discriminate].
  destruct (is_empty (slot_body s)) eqn:Eb; [discriminate|].
  cbn [negb]. intros H. injection H as <-. unfold tag_ok.
  cbn [tag_name header footer content position].
  rewrite (trimmed_name_valid (slot_name s) (strip_idem _) Em).
  rewrite !str_eqb_refl, Eb. cbn [negb andb].
  replace (str_eqb (Py.strip (slot_body s)) (slot_body s)) with true
    by (symmetry; apply str_eqb_eq, strip_idem).
  cbn [andb].
  destruct (recognized_position (slot_position s)) eqn:Ep; cbn [negb];
    [exact Ep|reflexivity].
Qed.

(** Every tag of the registry has the shape [tag_ok]. *)
Lemma loaded_tags_ok (cfg : Config) (t : Tag) :
  In t (_load_tags cfg) -> tag_ok t = true.
Proof.
  intros Hin. destruct (load_slots_from _ _ _ Hin) as (key & _ & Hl).
  exact (load_slot_ok _ _ _ Hl).
Qed.

(** ** The block of one tag and the cleanup for another *)

Lemma confined_newline (d P R : str) :
  d <> [] -> ~ In nl d -> ~ occurs d R -> confined d P (nl :: R).
Proof.
  intros Hne Hnl HR a b E.
  assert (Htl : ~ In nl (tl d)) by (destruct d; cbn in *; tauto).
  destruct (occurrence_split d P R a b nl Htl E)
    as [(m & HP & _)|(l & _ & HQ)]; [now exists m|].
  exfalso. destruct l as [|x l].
  - destruct d as [|y d]; [congruence|]. cbn [app] in HQ.
    injection HQ as Hy _. apply Hnl. left. congruence.
  - cbn [app] in HQ. injection HQ as _ HQ. apply HR. now exists l, b.
Qed.

Lemma clear_newline (d A Q : str) :
  d <> [] -> ~ In nl d -> ~ occurs d A -> clear_of d (A ++ [nl]) Q.
Proof.
  intros Hne Hnl HA a b E. rewrite <- app_assoc in E. cbn [app] in E.
  assert (Htl : ~ In nl (tl d)) by (destruct d; cbn in *; tauto).
  destruct (occurrence_split d A Q a b nl Htl E)
    as [(m & HP & _)|(l & Ha & HQ)].
  - exfalso. apply HA. now exists a, m.
  - destruct l as [|x l].
    + exfalso. destruct d as [|y d]; [congruence|]. cbn [app] in HQ.
      injection HQ as Hy _. apply Hnl. left. congruence.
    + cbn [app] in HQ. injection HQ as <- _. exists l.
      now rewrite Ha, <- app_assoc.
Qed.

Section TwoTags.

Variables t1 t2 : Tag.
Hypothesis t1_ok : tag_ok t1 = true.
Hypothesis t2_ok : tag_ok t2 = true.
Hypothesis names_differ : tag_name t1 <> tag_name t2.
Hypothesis no_header2 : ~ occurs (header t2) (content t1).
Hypothesis no_footer2 : ~ occurs (footer t2) (content t1).
Hypothesis no_triple : ~ occurs [nl; nl; nl] (content t1).

Let pat2 := _build_cleanup_pattern t2.

Lemma header2_facts : header t2 <> [] /\ ~ In nl (header t2).
Proof.
  pose proof (header_delimiter t2 t2_ok) as Hd.
  split; [exact (delimiter_nonempty _ Hd)|exact (delimiter_no_newline _ Hd)].
Qed.

Lemma footer2_facts : footer t2 <> [] /\ ~ In nl (footer t2).
Proof.
  pose proof (footer_delimiter t2 t2_ok) as Hd.
  split; [exact (delimiter_nonempty _ Hd)|exact (delimiter_no_newline _ Hd)].
Qed.

(** Neither delimiter of the second tag occurs in the block of the
    first. *)
Lemma core_free (d : str) :
  d <> [] -> ~ In nl d ->
  ~ occurs d (header t1) -> ~ occurs d (content t1) ->
  ~ occurs d (footer t1) ->
  ~ occurs d (block_core t1).
Proof.
  intros Hne Hnl Hh Hc Hf Ho. unfold block_core in Ho. cbn [app] in Ho.
  destruct (occurs_sep d _ _ nl Hne Hnl Ho) as [H|H]; [contradiction|].
  destruct (occurs_sep d _ _ nl Hne Hnl H) as [H'|H']; contradiction.
Qed.

Lemma core_free_header2 : ~ occurs (header t2) (block_core t1).
Proof.
  destruct header2_facts as [Hne Hnl].
  destruct (tag_ok_inv t1 t1_ok) as (Hn1 & Hh1 & Hf1 & _).
  destruct (tag_ok_inv t2 t2_ok) as (Hn2 & Hh2 & Hf2 & _).
  apply core_free; trivial; rewrite ?Hh1, ?Hf1, Hh2.
  - now apply other_header_not_in_header.
  - now apply other_header_not_in_footer.
Qed.

Lemma core_free_footer2 : ~ occurs (footer t2) (block_core t1).
Proof.
  destruct footer2_facts as [Hne Hnl].
  destruct (tag_ok_inv t1 t1_ok) as (Hn1 & Hh1 & Hf1 & _).
  destruct (tag_ok_inv t2 t2_ok) as (Hn2 & Hh2 & Hf2 & _).
  apply core_free; trivial; rewrite ?Hh1, ?Hf1, Hf2.
  - now apply other_footer_not_in_header.
  - now apply other_footer_not_in_footer.
Qed.

Lemma format_tag_core : _format_tag t1 = block_core t1 ++ [nl].
Proof. unfold _format_tag, block_core. now rewrite <- !app_assoc. Qed.

(** The block starts with [<] and ends with [>]. *)
Lemma core_ends :
  exists M, block_core t1 = lt_sign :: M ++ [gt_sign].
Proof.
  destruct (tag_ok_inv t1 t1_ok) as (_ & Hh1 & Hf1 & _).
  unfold block_core. rewrite Hh1, Hf1. unfold mk_header, mk_footer.
  exists (tag_name t1 ++ [gt_sign] ++ [nl] ++ content t1 ++ [nl]
          ++ [lt_sign; slash] ++ tag_name t1).
  cbn [app]. f_equal. app_norm. reflexivity.
Qed.

Lemma content_ends :
  exists a r z M,
    content t1 = a :: r /\ content t1 = M ++ [z]
    /\ a <> nl /\ z <> nl.
Proof.
  destruct (tag_ok_inv t1 t1_ok) as (_ & _ & _ & Hne & Hs & _).
  destruct (content t1) as [|a r] eqn:E; [congruence|].
  destruct (nonempty_last (a :: r)) as (M & z & EM); [discriminate|].
  exists a, r, z, M. repeat split; trivial.
  - apply not_space_not_nl. exact (strip_fixed_head _ r a Hs eq_refl).
  - apply not_space_not_nl. exact (strip_fixed_last _ M z Hs EM).
Qed.

(** The collapsing leaves the block alone. *)
Lemma core_collapse_fixed :
  Re.collapse_from 0 (block_core t1) = block_core t1.
Proof.
  destruct (tag_ok_inv t1 t1_ok) as (Hn1 & Hh1 & Hf1 & _).
  destruct content_ends as (a & r & z & M & Ea & Ez & Ha & Hz).
  pose proof (header_delimiter t1 t1_ok) as Hdh.
  pose proof (footer_delimiter t1 t1_ok) as Hdf.
  assert (Hc : Re.collapse_from 0 (content t1) = content t1)
    by (apply collapse_no_triple; [lia|exact no_triple]).
  assert (Hf : Re.collapse_from 0 (footer t1) = footer t1)
    by (apply collapse_plain, delimiter_no_newline, Hdf).
  assert (Hh : Re.collapse_from 0 (header t1) = header t1)
    by (apply collapse_plain, delimiter_no_newline, Hdh).
  assert (Hcf : Re.collapse_from 0 (content t1 ++ nl :: footer t1)
                = content t1 ++ nl :: footer t1).
  { rewrite Ez in Hc |- *. rewrite Hf1 in Hf |- *.
    apply (collapse_joined M (slash :: tag_name t1 ++ [gt_sign])
             z lt_sign Hz); [discriminate|exact Hc|exact Hf]. }
  replace (block_core t1)
    with (((lt_sign :: tag_name t1) ++ [gt_sign])
          ++ nl :: a :: (r ++ nl :: footer t1)).
  - rewrite Ea in Hcf. rewrite Hh1 in Hh.
    apply (collapse_joined (lt_sign :: tag_name t1)
             (r ++ nl :: footer t1) gt_sign a);
      [discriminate|exact Ha|exact Hh|exact Hcf].
  - unfold block_core. rewrite Hh1, Ea. unfold mk_header.
    app_norm. reflexivity.
Qed.

(** Collapsing and trimming keep the block, whatever stands around it. *)
Lemma normalise_keeps_core (U V : str) :
  occurs (block_core t1)
         (Py.strip (Re.collapse_newlines (U ++ block_core t1 ++ V))).
Proof.
  destruct core_ends as [M EM]. pose proof core_collapse_fixed as Hfix.
  unfold Re.collapse_newlines. rewrite EM in *.
  rewrite (collapse_around U M V lt_sign gt_sign); trivial;
    try discriminate.
  cbn [app]. rewrite <- app_assoc. cbn [app].
  destruct (strip_keeps (Re.collapse_from 0 U) M (Re.collapse_from 0 V)
              lt_sign gt_sign eq_refl eq_refl) as (U' & V' & ->).
  exists U', V'. cbn [app]. now rewrite <- app_assoc.
Qed.

Lemma pattern2_header_nonempty : pat_header pat2 <> [].
Proof. exact (pattern_header_nonempty t2 t2_ok). Qed.

(** The cleanup for the second tag keeps the block of the first where it
    stands behind other text, and where it stands before other text. *)
Lemma clean_keeps_core_after (X : str) :
  occurs (block_core t1)
         (_clean_string (X ++ blank_line ++ _format_tag t1) pat2).
Proof.
  unfold _clean_string, blank_line. rewrite format_tag_core.
  assert (Hfree : forall d, d <> [] -> ~ In nl d ->
                            ~ occurs d (block_core t1) ->
                            confined d X ([nl; nl] ++ block_core t1 ++ [nl])).
  { intros d Hne Hnl Hd. cbn [app]. apply confined_newline; trivial.
    intros Ho. apply (occurs_newlines_app d _ 1 Hne Hnl) in Ho.
    apply (occurs_app_newlines d _ 1 Hne Hnl) in Ho. contradiction. }
  rewrite (sub_empty_app_confined pat2 pattern2_header_nonempty).
  - replace (Re.sub_empty pat2 X ++ [nl; nl] ++ block_core t1 ++ [nl])
      with ((Re.sub_empty pat2 X ++ [nl; nl]) ++ block_core t1 ++ [nl])
      by (now rewrite <- app_assoc).
    apply normalise_keeps_core.
  - destruct header2_facts. apply Hfree; trivial. apply core_free_header2.
  - destruct footer2_facts. apply Hfree; trivial. apply core_free_footer2.
Qed.

Lemma clean_keeps_core_before (X : str) :
  occurs (block_core t1)
         (_clean_string (_format_tag t1 ++ blank_line ++ X) pat2).
Proof.
  unfold _clean_string, blank_line. rewrite format_tag_core.
  destruct header2_facts as [Hne Hnl].
  replace ((block_core t1 ++ [nl]) ++ [nl; nl] ++ X)
    with (((block_core t1 ++ [nl; nl]) ++ [nl]) ++ X)
    by (now rewrite <- !app_assoc).
  rewrite (sub_empty_app_clear pat2 pattern2_header_nonempty).
  - rewrite <- !app_assoc.
    apply (normalise_keeps_core []).
  - apply clear_newline; trivial. intros Ho.
    apply (occurs_app_newlines _ _ 2 Hne Hnl) in Ho.
    now apply core_free_header2.
Qed.

Lemma clean_field_keeps_core (F X : str) :
  F = X ++ blank_line ++ _format_tag t1
  \/ F = _format_tag t1 ++ blank_line ++ X ->
  occurs (block_core t1) (or_default [] (fst (clean_field t2 (Some F)))).
Proof.
  intros HF. cbn [clean_field]. fold pat2.
  destruct (negb (is_empty F) && both_present t2 F); cbn [fst or_default].
  - destruct HF as [-> | ->].
    + apply clean_keeps_core_after.
    + apply clean_keeps_core_before.
  - rewrite format_tag_core in HF. destruct HF as [-> | ->].
    + exists (X ++ blank_line), [nl]. now rewrite <- !app_assoc.
    + exists [], ([nl] ++ blank_line ++ X). now rewrite <- !app_assoc.
Qed.

End TwoTags.

Lemma remove_fields (t : Tag) (req : ProviderRequest) :
  system_prompt (fst (_remove_tags_from_context t req))
  = fst (clean_field t (system_prompt req))
  /\ prompt (fst (_remove_tags_from_context t req))
     = fst (clean_field t (prompt req)).
Proof.
  unfold _remove_tags_from_context.
  destruct (clean_field t (system_prompt req)) as [sp n1].
  destruct (clean_field t (prompt req)) as [pr n2].
  destruct (contexts req) as [[|m r]|]; try (split; reflexivity).
  destruct (clean_contexts t (m :: r)). split; reflexivity.
Qed.

(** The registry holds tags with recognized anchors only: the grouping
    loop of the hook never meets an unknown key. *)
Lemma loaded_positions_ok (cfg : Config) : positions_ok (_load_tags cfg).
Proof.
  apply Forall_forall. intros t Hin.
  apply loaded_tags_ok, tag_ok_inv in Hin.
  now destruct Hin as (_ & _ & _ & _ & _ & Hp).
Qed.

(** ** No type error in the cleanup *)

Section NoError.

Variable t : Tag.

Lemma clean_text_checked_ok (s : str) :
  clean_text_checked t (VStr s) = Some (clean_text t s).
Proof.
  unfold clean_text_checked, clean_text, both_present.
  cbn [py_in _clean_string_checked py_eq_str bind ret].
  destruct (Py.contains (header t) s); [|reflexivity].
  destruct (Py.contains (footer t) s); [|reflexivity].
  cbn [andb]. rewrite (str_eqb_comm s).
  destruct (is_empty _); [reflexivity|].
  now destruct (negb _).
Qed.

Lemma clean_part_checked_ok (part : pyval) :
  clean_part_checked t part = Some (clean_part t part).
Proof.
  destruct part as [| | | | |d|]; try reflexivity.
  unfold clean_part_checked, clean_part.
  cbn [isinstance_dict py_get bind ret].
  destruct (dict_get (lit "type") d VNone) as [| | |ty| | |];
    try reflexivity.
  cbn [py_eq_str]. destruct (str_eqb ty (lit "text")); [|reflexivity].
  destruct (dict_get (lit "text") d (VStr [])) as [| | |s| | |];
    try reflexivity.
  cbn [isinstance_str]. rewrite clean_text_checked_ok.
  cbn [bind]. now destruct (clean_text t s).
Qed.

Lemma clean_parts_checked_ok (parts : list pyval) :
  clean_parts_checked t parts = Some (clean_parts t parts).
Proof.
  induction parts as [|p parts IH]; [reflexivity|].
  cbn [clean_parts_checked clean_parts].
  rewrite clean_part_checked_ok, IH. cbn [bind ret].
  destruct (clean_parts t parts) as [[cp ch] n].
  now destruct (clean_part t p).
Qed.

Lemma clean_message_checked_ok (msg : pyval) :
  clean_message_checked t msg = Some (clean_message t msg).
Proof.
  destruct msg as [| | |s|l|d|]; try reflexivity.
  - unfold clean_message_checked. cbn [isinstance_str clean_message].
    rewrite clean_text_checked_ok. cbn [bind ret].
    now destruct (clean_text t s).
  - unfold clean_message_checked.
    cbn [isinstance_str isinstance_dict py_get clean_message bind ret].
    destruct (dict_get (lit "content") d (VStr [])) as [| | |s|parts| |];
      try reflexivity.
    + cbn [isinstance_str]. rewrite clean_text_checked_ok.
      cbn [bind ret py_copy_set]. now destruct (clean_text t s).
    + cbn [isinstance_str isinstance_list py_iter bind ret].
      rewrite clean_parts_checked_ok. cbn [bind ret py_copy_set].
      destruct (clean_parts t parts) as [[cp ch] n].
      destruct cp; [reflexivity|]. now destruct ch.
Qed.

Lemma clean_contexts_checked_ok (msgs : list pyval) :
  clean_contexts_checked t msgs = Some (clean_contexts t msgs).
Proof.
  induction msgs as [|m msgs IH]; [reflexivity|].
  cbn [clean_contexts_checked clean_contexts].
  rewrite clean_message_checked_ok, IH. cbn [bind ret].
  destruct (clean_contexts t msgs) as [out n].
  now destruct (clean_message t m) as [[m'|] k].
Qed.

(** The cleanup raises no type error, whatever the history holds, and
    returns what [_remove_tags_from_context] describes. *)
Lemma remove_checked_ok (req : ProviderRequest) :
  remove_checked t req = Some (_remove_tags_from_context t req).
Proof.
  unfold remove_checked, _remove_tags_from_context.
  destruct (clean_field t (system_prompt req)) as [sp n1].
  destruct (clean_field t (prompt req)) as [pr n2].
  destruct (contexts req) as [[|m r]|]; try reflexivity.
  rewrite clean_contexts_checked_ok. cbn [bind ret fst snd].
  now destruct (clean_contexts t (m :: r)).
Qed.

End NoError.

(** * The claims *)

(** ** C1: the invariant after a cleanup pass *)

(** C1, as stated, fails: after the cleanup for [Foo] the user prompt
    [reversed_text] is unchanged and still holds both delimiters, and the
    history entry [splice_text] is replaced by a text that is a whole
    block. *)
Lemma C1_counterexample :
  tag_ok Foo = true
  /\ prompt (fst (_remove_tags_from_context Foo (with_prompt reversed_text)))
     = Some reversed_text
  /\ both_present Foo reversed_text = true
  /\ contexts (fst (_remove_tags_from_context Foo
                      (with_contexts [VStr splice_text])))
     = Some [VStr (lit "<Foo>x</Foo>")]
  /\ both_present Foo (lit "<Foo>x</Foo>") = true.
Proof. repeat split; vm_compute; reflexivity. Qed.

(** C1 (amended): when every text of the request lacks one of the
    delimiters of [t], or is text free of the header of [t] with whole
    blocks header...footer inserted (no footer inside a block), then after
    [_remove_tags_from_context] no text of the system prompt, of the user
    prompt or of the history holds both the header and the footer. *)
Theorem C1_cleanup_leaves_no_delimiter_pair
  (t : Tag) (req : ProviderRequest) :
  tag_ok t = true ->
  (forall s, In s (request_texts req) -> well_tagged t s) ->
  forall u,
    In u (request_texts (fst (_remove_tags_from_context t req))) ->
    both_present t u = false.
Proof.
  intros Hok Hwell u Hu.
  destruct (surviving_texts t req u Hu) as (s & Hs & [[Hb ->]|[Hb ->]]).
  - exact Hb.
  - destruct (Hwell s Hs) as [Hno|(plain & Ht & Hp)]; [congruence|].
    destruct (clean_string_tagged t Hok s plain Ht Hp) as [_ Hfree].
    unfold both_present. apply contains_false in Hfree.
    now rewrite Hfree.
Qed.

Lemma Foo_block_tagged (s0 c rest : str) :
  Py.contains (footer Foo) c = false ->
  Py.contains (header Foo) (s0 ++ rest) = false ->
  well_tagged Foo (s0 ++ header Foo ++ c ++ footer Foo ++ rest).
Proof.
  intros Hc Hp. right. exists (s0 ++ rest). split.
  - apply tagged_block; [now apply contains_false|apply tagged_plain].
  - now apply contains_false.
Qed.

Lemma C1_witness :
  tag_ok Foo = true
  /\ (forall s, In s (request_texts stale_request) -> well_tagged Foo s)
  /\ (forall u,
        In u (request_texts
                (fst (_remove_tags_from_context Foo stale_request))) ->
        both_present Foo u = false).
Proof.
  assert (Hwell : forall s, In s (request_texts stale_request) ->
                            well_tagged Foo s).
  { intros s [<-|[<-|[<-|[<-|[<-|[]]]]]].
    - left. reflexivity.
    - apply (Foo_block_tagged (lit "Hi ") (lit "old") (lit " there"));
        reflexivity.
    - apply (Foo_block_tagged [] (lit "old") []); reflexivity.
    - apply (Foo_block_tagged [] (lit "old") (lit " Hi")); reflexivity.
    - apply (Foo_block_tagged (lit "a") (lit "b") []); reflexivity. }
  split; [reflexivity|]. split; [exact Hwell|].
  exact (C1_cleanup_leaves_no_delimiter_pair Foo stale_request
           eq_refl Hwell).
Defined.

(** ** C2: idempotence of [_clean_string] *)

(** C2, as stated, fails: [splice_text] holds no delimiter of another tag,
    its cleaning is a whole block of [Foo], and a second cleaning removes
    that block. *)
Lemma C2_counterexample :
  no_other_delimiters (tag_name Foo) splice_text = true
  /\ _clean_string splice_text (_build_cleanup_pattern Foo)
     = lit "<Foo>x</Foo>"
  /\ _clean_string
       (_clean_string splice_text (_build_cleanup_pattern Foo))
       (_build_cleanup_pattern Foo) = []
  /\ str_eqb
       (_clean_string
          (_clean_string splice_text (_build_cleanup_pattern Foo))
          (_build_cleanup_pattern Foo))
       (_clean_string splice_text (_build_cleanup_pattern Foo)) = false.
Proof. repeat split; vm_compute; reflexivity. Qed.

(** C2 (amended): for a tag [t] as the registry builds it,
    [_clean_string] applied twice equals [_clean_string] applied once
    exactly when the first result holds no match of the pattern of [t]
    (no header with a footer behind it); this is the case for every text
    that is header-free text with whole blocks inserted. *)
Theorem C2_clean_string_idempotent_iff (t : Tag) (s : str) :
  tag_ok t = true ->
  (_clean_string (_clean_string s (_build_cleanup_pattern t))
                 (_build_cleanup_pattern t)
   = _clean_string s (_build_cleanup_pattern t)
   <-> Re.search (_build_cleanup_pattern t)
                 (_clean_string s (_build_cleanup_pattern t)) = None)
  /\ (forall plain,
         tagged_text (header t) (footer t) s plain ->
         ~ occurs (header t) plain ->
         _clean_string (_clean_string s (_build_cleanup_pattern t))
                       (_build_cleanup_pattern t)
         = _clean_string s (_build_cleanup_pattern t)).
Proof.
  intros Hok. split; [now apply clean_string_twice|].
  intros plain Ht Hp. apply clean_string_twice; [exact Hok|].
  apply search_none_header.
  now destruct (clean_string_tagged t Hok s plain Ht Hp).
Qed.

Lemma C2_witness :
  tag_ok Foo = true
  /\ _clean_string
       (_clean_string (lit "<Foo>old</Foo> Hi") (_build_cleanup_pattern Foo))
       (_build_cleanup_pattern Foo)
     = _clean_string (lit "<Foo>old</Foo> Hi") (_build_cleanup_pattern Foo).
Proof.
  split; [reflexivity|].
  apply (C2_clean_string_idempotent_iff Foo (lit "<Foo>old</Foo> Hi")
           eq_refl).
  reflexivity.
Defined.

(** ** C3: what injection makes of the user prompt *)

(** C3: for tags with recognized anchors the user prompt after injection
    is (joined before-user blocks, blank line) (original prompt or the
    empty string) (blank line, joined after-user blocks); a tag renders as
    header, newline, content, newline, footer, newline; the blocks of one
    anchor are joined with a blank line in registry order; with both
    buckets filled the shape is before, blank line, original, blank line,
    after; and tag Foo with content Hello/World behind the prompt Hi gives
    the text of scenario A. *)
Theorem C3_injection_composes_user_prompt
  (tags : list Tag) (req : ProviderRequest) :
  positions_ok tags ->
  let before := blocks_at (lit "user_message_before") tags in
  let after := blocks_at (lit "user_message_after") tags in
  let original := or_default [] (prompt req) in
  (before = [] -> after = [] -> prompt (inject_tags tags req) = prompt req)
  /\ (before <> [] -> after = [] ->
      prompt (inject_tags tags req)
      = Some (Py.join blank_line before ++ blank_line ++ original))
  /\ (before = [] -> after <> [] ->
      prompt (inject_tags tags req)
      = Some (original ++ blank_line ++ Py.join blank_line after))
  /\ (before <> [] -> after <> [] ->
      prompt (inject_tags tags req)
      = Some (Py.join blank_line before ++ blank_line ++ original
              ++ blank_line ++ Py.join blank_line after))
  /\ (forall t,
        _format_tag t
        = header t ++ [nl] ++ content t ++ [nl] ++ footer t ++ [nl])
  /\ (forall a b rest,
        Py.join blank_line (a :: b :: rest)
        = a ++ blank_line ++ Py.join blank_line (b :: rest))
  /\ prompt (inject_tags [Foo] (with_prompt (lit "Hi")))
     = Some (lit "Hi" ++ [nl; nl] ++ lit "<Foo>" ++ [nl] ++ lit "Hello"
             ++ [nl] ++ lit "World" ++ [nl] ++ lit "</Foo>" ++ [nl]).
Proof.
  intros Hp before after original.
  rewrite (inject_tags_ok tags req Hp). unfold injected.
  fold before after original.
  repeat split; try reflexivity.
  - intros -> ->. reflexivity.
  - intros Hb ->. destruct before; [congruence|reflexivity].
  - intros -> Ha. destruct after; [congruence|reflexivity].
  - intros Hb Ha. destruct before; [congruence|].
    destruct after; [congruence|]. cbn [or_default].
    now rewrite <- !app_assoc.
Qed.

Lemma C3_witness :
  positions_ok [Foo_before; Bar]
  /\ prompt (inject_tags [Foo_before; Bar] (with_prompt (lit "Q")))
     = Some (lit "<Foo>" ++ [nl] ++ lit "one" ++ [nl] ++ lit "</Foo>"
             ++ [nl; nl; nl] ++ lit "Q" ++ [nl; nl] ++ lit "<Bar>" ++ [nl]
             ++ lit "bar" ++ [nl] ++ lit "</Bar>" ++ [nl]).
Proof.
  assert (Hp : positions_ok [Foo_before; Bar])
    by (repeat constructor).
  split; [exact Hp|].
  destruct (C3_injection_composes_user_prompt [Foo_before; Bar]
              (with_prompt (lit "Q")) Hp) as (_ & _ & _ & H & _).
  rewrite H; [reflexivity|discriminate|discriminate].
Defined.

(** ** C4: an entry emptied by the cleanup is removed *)

(** C4: a history entry whose whole content is consumed by the cleanup of
    [t] (a plain string or a string content that holds both delimiters and
    is cleaned to the empty string, or a multipart content all of whose
    parts are such text parts) is not appended to the filtered history:
    the history after the cleanup is what the entries before it and the
    entries behind it leave, with nothing, and no empty string, in
    between. *)
Theorem C4_consumed_entry_removed
  (t : Tag) (msg : pyval) (pre post : list pyval) (sp pr : option str) :
  consumed t msg ->
  clean_message t msg = (None, 1)
  /\ contexts (fst (_remove_tags_from_context t
                      {| system_prompt := sp; prompt := pr;
                         contexts := Some (pre ++ msg :: post) |}))
     = Some (fst (clean_contexts t pre) ++ fst (clean_contexts t post)).
Proof.
  intros Hc. pose proof (consumed_dropped t msg Hc) as Hd.
  split; [exact Hd|].
  rewrite remove_contexts_nonempty, clean_contexts_app. cbn [fst].
  now rewrite clean_contexts_cons, Hd.
Qed.

Lemma C4_witness :
  consumed Foo (user_message (VList [text_part (lit "<Foo>old</Foo>")]))
  /\ contexts (fst (_remove_tags_from_context Foo
                      (with_contexts
                         [VStr (lit "Hi");
                          user_message
                            (VList [text_part (lit "<Foo>old</Foo>")]);
                          VStr (lit "Bye")])))
     = Some [VStr (lit "Hi"); VStr (lit "Bye")].
Proof.
  assert (Hc : consumed Foo
                 (user_message (VList [text_part (lit "<Foo>old</Foo>")]))).
  { eapply consumed_parts; [reflexivity|].
    constructor; [|constructor].
    eexists _, _. repeat split; reflexivity. }
  split; [exact Hc|].
  exact (proj2 (C4_consumed_entry_removed Foo _ [VStr (lit "Hi")]
                  [VStr (lit "Bye")] None None Hc)).
Defined.

(** ** C5: the cleanup for one tag and the block of another *)

(** C5, as stated, fails.  The content of [Quoting] quotes a block of
    [Bar]: after [Quoting] is injected into the empty conversation, the
    cleanup for [Bar] cuts that block out of the content.  And where the
    cleanup for [Bar] rewrites the prompt at all, the trimming takes the
    last newline of the rendered block of [Foo]. *)
Lemma C5_counterexample :
  tag_ok Quoting = true /\ tag_ok Foo = true /\ tag_ok Bar = true
  /\ str_eqb (tag_name Quoting) (tag_name Bar) = false
  /\ prompt (fst (_remove_tags_from_context Bar
                    (inject_tags [Quoting] empty_request)))
     = Some (lit "<Foo>" ++ [nl] ++ lit "see  here" ++ [nl] ++ lit "</Foo>")
  /\ Py.contains (block_core Quoting)
       (lit "<Foo>" ++ [nl] ++ lit "see  here" ++ [nl] ++ lit "</Foo>")
     = false
  /\ prompt (fst (_remove_tags_from_context Bar
                    (inject_tags [Foo]
                       (with_prompt (lit "<Bar>old</Bar> Hi")))))
     = Some (lit "Hi" ++ [nl; nl] ++ block_core Foo)
  /\ Py.contains (_format_tag Foo)
       (lit "Hi" ++ [nl; nl] ++ block_core Foo) = false.
Proof. repeat split; vm_compute; reflexivity. Qed.

(** C5 (amended): for two tags as the registry builds them, with distinct
    names, where the content of the first holds neither delimiter of the
    second and no run of three newlines: after the first is injected and
    the cleanup for the second has run, the field the first was injected
    into still contains its header, newline, content, newline, footer (the
    rendered block up to its last newline). *)
Theorem C5_cleanup_spares_other_block
  (t1 t2 : Tag) (req : ProviderRequest) :
  tag_ok t1 = true -> tag_ok t2 = true ->
  tag_name t1 <> tag_name t2 ->
  ~ occurs (header t2) (content t1) ->
  ~ occurs (footer t2) (content t1) ->
  ~ occurs [nl; nl; nl] (content t1) ->
  occurs (block_core t1)
         (or_default []
            (anchored_field t1
               (fst (_remove_tags_from_context t2
                       (inject_tags [t1] req))))).
Proof.
  intros Hok1 Hok2 Hn Hh Hf Htr.
  destruct (remove_fields t2 (inject_tags [t1] req)) as [Hsp Hpr].
  unfold anchored_field.
  destruct (inject_one t1 req Hok1)
    as [(Ep & E & _)|[(Ep & E & _)|(Ep & _ & E)]]; rewrite Ep.
  - change (str_eqb (lit "user_message_before") (lit "system_prompt"))
      with false. cbv iota. rewrite Hpr, E.
    apply (clean_field_keeps_core t1 t2 Hok1 Hok2 Hn Hh Hf Htr _
             (or_default [] (prompt req))). now right.
  - change (str_eqb (lit "user_message_after") (lit "system_prompt"))
      with false. cbv iota. rewrite Hpr, E.
    apply (clean_field_keeps_core t1 t2 Hok1 Hok2 Hn Hh Hf Htr _
             (or_default [] (prompt req))). now left.
  - rewrite str_eqb_refl. rewrite Hsp, E.
    apply (clean_field_keeps_core t1 t2 Hok1 Hok2 Hn Hh Hf Htr _
             (or_default [] (system_prompt req))). now left.
Qed.

Lemma C5_witness :
  tag_ok Foo = true /\ tag_ok Bar = true
  /\ tag_name Foo <> tag_name Bar
  /\ ~ occurs (header Bar) (content Foo)
  /\ ~ occurs (footer Bar) (content Foo)
  /\ ~ occurs [nl; nl; nl] (content Foo)
  /\ occurs (block_core Foo)
       (or_default []
          (anchored_field Foo
             (fst (_remove_tags_from_context Bar
                     (inject_tags [Foo]
                        (with_prompt (lit "<Bar>old</Bar> Hi"))))))).
Proof.
  assert (Hn : tag_name Foo <> tag_name Bar) by discriminate.
  assert (Hh : ~ occurs (header Bar) (content Foo))
    by (apply contains_false; reflexivity).
  assert (Hf : ~ occurs (footer Bar) (content Foo))
    by (apply contains_false; reflexivity).
  assert (Htr : ~ occurs [nl; nl; nl] (content Foo))
    by (apply contains_false; reflexivity).
  repeat (split; [first [reflexivity | assumption]|]).
  exact (C5_cleanup_spares_other_block Foo Bar
           (with_prompt (lit "<Bar>old</Bar> Hi"))
           eq_refl eq_refl Hn Hh Hf Htr).
Defined.

(** ** C6: injection, then cleaning *)

(** C6, as stated, fails: the content of [Nested] holds the footer of its
    own tag; cleaning the user prompt that the injection into the empty
    conversation leaves stops at that footer and does not give back the
    empty prompt. *)
Lemma C6_counterexample :
  tag_ok Nested = true
  /\ prompt empty_request = None
  /\ prompt (inject_tags [Nested] empty_request)
     = Some ([nl; nl] ++ lit "<Foo>" ++ [nl] ++ lit "a</Foo>b" ++ [nl]
             ++ lit "</Foo>" ++ [nl])
  /\ _clean_string
       (or_default [] (prompt (inject_tags [Nested] empty_request)))
       (_build_cleanup_pattern Nested)
     = lit "b" ++ [nl] ++ lit "</Foo>".
Proof. repeat split; vm_compute; reflexivity. Qed.

(** C6 (amended): for a tag [t] as the registry builds it whose content
    does not contain the footer of [t]: after [t] alone is injected into a
    request whose user prompt is free of the header of [t], cleaning the
    user prompt with the pattern of [t] gives the prior user prompt with
    its runs of newlines collapsed and its outer white space trimmed; for
    the empty conversation this is the empty string, the prior value.  (A
    prompt that is [None] is read as the empty string.) *)
Theorem C6_round_trip (t : Tag) :
  tag_ok t = true ->
  ~ occurs (footer t) (content t) ->
  (forall req,
      ~ occurs (header t) (or_default [] (prompt req)) ->
      _clean_string (or_default [] (prompt (inject_tags [t] req)))
                    (_build_cleanup_pattern t)
      = Py.strip (Re.collapse_newlines (or_default [] (prompt req))))
  /\ _clean_string
       (or_default [] (prompt (inject_tags [t] empty_request)))
       (_build_cleanup_pattern t)
     = or_default [] (prompt empty_request).
Proof.
  intros Hok Hc.
  assert (Hgen : forall req,
             ~ occurs (header t) (or_default [] (prompt req)) ->
             _clean_string (or_default [] (prompt (inject_tags [t] req)))
                           (_build_cleanup_pattern t)
             = Py.strip (Re.collapse_newlines (or_default [] (prompt req)))).
  { intros req HP.
    destruct (inject_one t req Hok)
      as [(_ & -> & _)|[(_ & -> & _)|(_ & -> & _)]]; cbn [or_default].
    - now apply clean_block_before.
    - now apply clean_block_after.
    - now apply clean_header_free. }
  split; [exact Hgen|].
  rewrite Hgen; [reflexivity|].
  cbn [empty_request prompt or_default]. intros Ho.
  apply occurs_nil_inv in Ho.
  exact (delimiter_nonempty _ (header_delimiter t Hok) Ho).
Qed.

Lemma C6_witness :
  tag_ok Foo = true
  /\ ~ occurs (footer Foo) (content Foo)
  /\ _clean_string
       (or_default [] (prompt (inject_tags [Foo] empty_request)))
       (_build_cleanup_pattern Foo) = [].
Proof.
  assert (Hc : ~ occurs (footer Foo) (content Foo))
    by (apply contains_false; reflexivity).
  split; [reflexivity|]. split; [exact Hc|].
  exact (proj2 (C6_round_trip Foo eq_refl Hc)).
Defined.

(** ** C7: the count and the dropped parts *)

(** C7 fails on the code: the text part of [stale_multipart] is emptied
    and dropped, the entry is kept with the image part alone, and the
    count returned is 0; the same block as a plain-string entry counts
    1. *)
Lemma C7_dropped_part_not_counted :
  _remove_tags_from_context Foo (with_contexts [stale_multipart])
  = (with_contexts [user_message (VList [image_part])], 0)
  /\ _remove_tags_from_context Foo
       (with_contexts [VStr (lit "<Foo>old</Foo>")])
     = (with_contexts [], 1).
Proof. split; vm_compute; reflexivity. Qed.

(** ** C8: a slot with an unknown anchor *)

(** C8: an enabled slot whose [injection_position], as the loader reads it
    (converted to a string and trimmed), is not one of the three anchors
    is loaded exactly as the same slot with [user_message_after] would
    be: it is skipped only by the checks of name and content, the tag it
    yields is anchored at [user_message_after], and it is in the registry
    when its key is one of the five slot keys. *)
Theorem C8_unknown_anchor_falls_back
  (cfg : Config) (key : str) (s : Slot) :
  config_get cfg key = Some (CfgSlot s) ->
  enabled s = Some true ->
  recognized_position (slot_position s) = false ->
  load_slot cfg key
  = load_slot ((key, CfgSlot (with_position s (lit "user_message_after")))
               :: cfg) key
  /\ (slot_name s <> [] -> TAG_NAME_PATTERN (slot_name s) = true ->
      slot_body s <> [] ->
      exists t, load_slot cfg key = Some t
                /\ position t = lit "user_message_after"
                /\ tag_name t = slot_name s
                /\ content t = slot_body s
                /\ (In key TAG_SLOT_KEYS -> In t (_load_tags cfg)))
  /\ (forall t, load_slot cfg key = Some t ->
                position t = lit "user_message_after").
Proof.
  intros Hc He Hp.
  assert (Hc' : config_get
                  ((key, CfgSlot (with_position s (lit "user_message_after")))
                   :: cfg) key
                = Some (CfgSlot (with_position s (lit "user_message_after")))).
  { cbn [config_get]. now rewrite str_eqb_refl. }
  rewrite (load_slot_enabled _ _ _ Hc He).
  rewrite (load_slot_enabled _ _ _ Hc' He).
  rewrite Hp. cbn [negb].
  change (slot_name (with_position s (lit "user_message_after")))
    with (slot_name s).
  change (slot_body (with_position s (lit "user_message_after")))
    with (slot_body s).
  assert (Hafter : slot_position
                     (with_position s (lit "user_message_after"))
                   = lit "user_message_after") by reflexivity.
  rewrite Hafter.
  assert (Hrec : recognized_position (lit "user_message_after") = true)
    by reflexivity.
  rewrite Hrec. cbn [negb].
  split; [reflexivity|]. split.
  - intros Hn Hm Hb.
    assert (Hne : is_empty (slot_name s) = false)
      by (destruct (slot_name s); [congruence|reflexivity]).
    assert (Hbe : is_empty (slot_body s) = false)
      by (destruct (slot_body s); [congruence|reflexivity]).
    rewrite Hne, Hm, Hbe. cbn [negb].
    eexists. split; [reflexivity|]. repeat split.
    intros Hk. unfold _load_tags. apply (load_slots_in cfg _ key _ Hk).
    rewrite (load_slot_enabled _ _ _ Hc He), Hp, Hne, Hm, Hbe.
    reflexivity.
  - intros t Ht.
    destruct (is_empty (slot_name s)); [discriminate|].
    destruct (negb (TAG_NAME_PATTERN (slot_name s))); [discriminate|].
    destruct (is_empty (slot_body s)); [discriminate|].
    now injection Ht as <-.
Qed.

Lemma C8_witness :
  config_get bogus_config (lit "tag_2") = Some (CfgSlot bogus_slot)
  /\ enabled bogus_slot = Some true
  /\ recognized_position (slot_position bogus_slot) = false
  /\ load_slot bogus_config (lit "tag_2")
     = load_slot ((lit "tag_2",
                   CfgSlot (with_position bogus_slot
                              (lit "user_message_after")))
                  :: bogus_config) (lit "tag_2")
  /\ _load_tags bogus_config
     = [ {| slot := lit "tag_2"; tag_name := lit "Foo";
            content := lit "Hello" ++ [nl] ++ lit "World";
            position := lit "user_message_after";
            header := lit "<Foo>"; footer := lit "</Foo>" |} ].
Proof.
  split; [reflexivity|]. split; [reflexivity|]. split; [reflexivity|].
  split; [|reflexivity].
  exact (proj1 (C8_unknown_anchor_falls_back bogus_config (lit "tag_2")
                  bogus_slot eq_refl eq_refl eq_refl)).
Defined.

(** ** C9: shapes the cleanup does not know *)

(** C9: whatever the history holds, the cleanup raises no error (the
    version with Python's type errors returns, and returns what
    [_remove_tags_from_context] describes); a history entry that is
    neither a string nor a dict is in the filtered history, unchanged,
    between what its neighbours leave; and a part that is not a text part
    with a string text is, unchanged, in the content of the entry that is
    kept for it, between what its neighbours leave. *)
Theorem C9_foreign_shapes_pass_through (t : Tag) :
  (forall req,
      remove_checked t req = Some (_remove_tags_from_context t req))
  /\ (forall msg pre post sp pr,
      foreign_message msg ->
      contexts (fst (_remove_tags_from_context t
                       {| system_prompt := sp; prompt := pr;
                          contexts := Some (pre ++ msg :: post) |}))
      = Some (fst (clean_contexts t pre) ++ msg
              :: fst (clean_contexts t post)))
  /\ (forall d part before behind pre post sp pr,
         foreign_part part ->
         dict_get (lit "content") d (VStr [])
         = VList (before ++ part :: behind) ->
         exists d',
           contexts (fst (_remove_tags_from_context t
                            {| system_prompt := sp; prompt := pr;
                               contexts := Some (pre ++ VDict d :: post) |}))
           = Some (fst (clean_contexts t pre) ++ VDict d'
                   :: fst (clean_contexts t post))
           /\ dict_get (lit "content") d' (VStr [])
              = VList (fst (fst (clean_parts t before)) ++ part
                       :: fst (fst (clean_parts t behind)))).
Proof.
  split; [exact (remove_checked_ok t)|]. split.
  - intros msg pre post sp pr Hf.
    rewrite remove_contexts_nonempty, clean_contexts_app. cbn [fst].
    rewrite clean_contexts_cons.
    now destruct msg; try contradiction.
  - intros d part before behind pre post sp pr Hf Hc.
    assert (Hparts :
              fst (fst (clean_parts t (before ++ part :: behind)))
              = fst (fst (clean_parts t before)) ++ part
                :: fst (fst (clean_parts t behind))).
    { rewrite clean_parts_app. cbn [fst]. f_equal.
      cbn [clean_parts]. rewrite (foreign_part_kept t part Hf).
      now destruct (clean_parts t behind) as [[cb chb] nb]. }
    assert (Hm : exists d',
               fst (clean_message t (VDict d)) = Some (VDict d')
               /\ dict_get (lit "content") d' (VStr [])
                  = VList (fst (fst (clean_parts t before)) ++ part
                           :: fst (fst (clean_parts t behind)))).
    { cbn [clean_message]. rewrite Hc. rewrite <- Hparts.
      pose proof (clean_parts_unchanged t (before ++ part :: behind))
        as Hsame.
      destruct (clean_parts t (before ++ part :: behind))
        as [[cp ch] n]. cbn [fst snd] in *.
      destruct cp as [|p0 cp].
      - exfalso. exact (app_cons_not_nil _ _ _ Hparts).
      - destruct ch; cbn [fst].
        + eexists. split; [reflexivity|]. apply dict_get_set_same.
        + exists d. split; [reflexivity|]. rewrite Hc.
          now rewrite Hsame. }
    destruct Hm as (d' & Hm & Hd'). exists d'. split; [|exact Hd'].
    rewrite remove_contexts_nonempty, clean_contexts_app. cbn [fst].
    now rewrite clean_contexts_cons, Hm.
Qed.

(** ** C10: the frame of the injection phase *)

(** C10: injection leaves the history as it is; it leaves the system
    prompt as it is when no tag is anchored there, and the user prompt as
    it is when no tag is anchored before or behind it. *)
Theorem C10_injection_frame (tags : list Tag) (req : ProviderRequest) :
  contexts (inject_tags tags req) = contexts req
  /\ ((forall t, In t tags -> position t <> lit "system_prompt") ->
      system_prompt (inject_tags tags req) = system_prompt req)
  /\ ((forall t, In t tags -> position t <> lit "user_message_before") ->
      (forall t, In t tags -> position t <> lit "user_message_after") ->
      prompt (inject_tags tags req) = prompt req).
Proof.
  destruct (inject_tags_cases tags req) as [-> | ->];
    [|repeat split; reflexivity].
  unfold injected. split; [reflexivity|]. split.
  - intros H. now rewrite (blocks_at_nil _ _ H).
  - intros Hb Ha. now rewrite (blocks_at_nil _ _ Hb), (blocks_at_nil _ _ Ha).
Qed.

(** * Further properties of the code *)

(** X1: a history entry that is a dict whose content is neither a string
    nor a list is appended by no branch of the loop: whenever the history
    is cleaned, such an entry is absent from the filtered history, and it
    adds nothing to the count. *)
Theorem X1_other_content_entry_dropped
  (t : Tag) (d : list (str * pyval)) (pre post : list pyval)
  (sp pr : option str) :
  other_content d ->
  clean_message t (VDict d) = (None, 0)
  /\ contexts (fst (_remove_tags_from_context t
                      {| system_prompt := sp; prompt := pr;
                         contexts := Some (pre ++ VDict d :: post) |}))
     = Some (fst (clean_contexts t pre) ++ fst (clean_contexts t post)).
Proof.
  intros Ho.
  assert (Hd : clean_message t (VDict d) = (None, 0)).
  { cbn [clean_message]. unfold other_content in Ho.
    destruct (dict_get (lit "content") d (VStr [])); trivial;
      contradiction. }
  split; [exact Hd|].
  rewrite remove_contexts_nonempty, clean_contexts_app. cbn [fst].
  now rewrite clean_contexts_cons, Hd.
Qed.

Lemma X1_witness :
  other_content tool_call_dict
  /\ contexts (fst (_remove_tags_from_context Foo
                      (with_contexts [VStr (lit "Hi"); tool_call_message])))
     = Some [VStr (lit "Hi")].
Proof.
  split; [exact I|].
  exact (proj2 (X1_other_content_entry_dropped Foo tool_call_dict
                  [VStr (lit "Hi")] [] None None I)).
Defined.

Lemma load_slots_length (cfg : Config) (keys : list str) :
  length (load_slots cfg keys) <= length keys.
Proof.
  induction keys as [|k keys IH]; [reflexivity|].
  cbn [load_slots]. destruct (load_slot cfg k); cbn [length]; lia.
Qed.

Lemma load_slot_key (cfg : Config) (key : str) (t : Tag) :
  load_slot cfg key = Some t -> slot t = key.
Proof.
  unfold load_slot.
  destruct (or_default _ (config_get cfg key)) as [s|]; [|discriminate].
  destruct (negb (or_default false (enabled s))); [discriminate|].
  destruct (is_empty _); [discriminate|].
  destruct (negb _); [discriminate|].
  destruct (is_empty _); [discriminate|].
  intros H. now injection H as <-.
Qed.

(** X2: whatever the configuration holds, the registry has at most five
    tags, each read from one of the keys tag_1 .. tag_5, and each with a
    name of name characters, the delimiters derived from the name, a
    trimmed content that is not empty and one of the three anchors. *)
Theorem X2_registry_tags_well_formed (cfg : Config) :
  length (_load_tags cfg) <= MAX_TAGS
  /\ (forall t, In t (_load_tags cfg) ->
                In (slot t) TAG_SLOT_KEYS /\ tag_ok t = true).
Proof.
  split; [exact (load_slots_length cfg TAG_SLOT_KEYS)|].
  intros t Hin.
  destruct (load_slots_from _ _ _ Hin) as (key & Hk & Hl). split.
  - now rewrite (load_slot_key _ _ _ Hl).
  - exact (load_slot_ok _ _ _ Hl).
Qed.

Lemma dict_set_keys (k : str) (v dflt : pyval) (d : list (str * pyval)) :
  dict_get k d dflt <> dflt -> map fst (dict_set k v d) = map fst d.
Proof.
  induction d as [|[k0 w] d IH]; cbn [dict_get dict_set].
  - intros H. now contradiction H.
  - destruct (str_eqb k0 k); [reflexivity|].
    intros H. cbn [map fst]. now rewrite IH.
Qed.

(** X3: a history entry that is a dict with string content holding both
    delimiters, whose cleaned content is neither empty nor the content
    itself, is replaced by a copy of the dict: the copy has the same keys
    in the same order, the cleaned text under [content], and the value of
    every other key as it was; one fragment is counted. *)
Theorem X3_structured_entry_rewritten_as_copy
  (t : Tag) (d : list (str * pyval)) (s : str) :
  dict_get (lit "content") d (VStr []) = VStr s ->
  both_present t s = true ->
  _clean_string s (_build_cleanup_pattern t) <> [] ->
  _clean_string s (_build_cleanup_pattern t) <> s ->
  exists d',
    clean_message t (VDict d) = (Some (VDict d'), 1)
    /\ map fst d' = map fst d
    /\ dict_get (lit "content") d' (VStr [])
       = VStr (_clean_string s (_build_cleanup_pattern t))
    /\ (forall k dflt, k <> lit "content" ->
                       dict_get k d' dflt = dict_get k d dflt).
Proof.
  intros Hd Hb Hne Hch.
  exists (dict_set (lit "content")
            (VStr (_clean_string s (_build_cleanup_pattern t))) d).
  split; [|split; [|split]].
  - cbn [clean_message]. rewrite Hd. unfold clean_text. rewrite Hb.
    cbv zeta.
    destruct (_clean_string s (_build_cleanup_pattern t)) as [|c r] eqn:E;
      [now contradiction Hne|].
    cbn [is_empty].
    apply str_eqb_neq in Hch. now rewrite Hch.
  - apply dict_set_keys with (dflt := VStr []). rewrite Hd.
    intros H. injection H as ->.
    now apply Hne.
  - apply dict_get_set_same.
  - intros k dflt Hk. apply dict_get_set_other. congruence.
Qed.

Lemma X3_witness :
  dict_get (lit "content") stale_entry (VStr [])
  = VStr (lit "<Foo>old</Foo> Hi")
  /\ both_present Foo (lit "<Foo>old</Foo> Hi") = true
  /\ clean_message Foo (VDict stale_entry)
     = (Some (user_message (VStr (lit "Hi"))), 1).
Proof.
  split; [reflexivity|]. split; [reflexivity|].
  destruct (X3_structured_entry_rewritten_as_copy Foo stale_entry
              (lit "<Foo>old</Foo> Hi") eq_refl eq_refl)
    as (d' & H & _).
  - intros H. vm_compute in H. discriminate.
  - intros H. vm_compute in H. discriminate.
  - reflexivity.
Defined.

Lemma cleanup_all_one (t : Tag) (req : ProviderRequest) :
  fst (cleanup_all [t] req) = fst (_remove_tags_from_context t req).
Proof.
  cbn [cleanup_all]. now destruct (_remove_tags_from_context t req).
Qed.

Lemma remove_anchored_field (t t' : Tag) (req : ProviderRequest) :
  anchored_field t' (fst (_remove_tags_from_context t req))
  = fst (clean_field t (anchored_field t' req)).
Proof.
  destruct (remove_fields t req) as [Hsp Hpr]. unfold anchored_field.
  now destruct (str_eqb (position t') (lit "system_prompt")).
Qed.

Lemma inject_anchored_field (t : Tag) (req : ProviderRequest) :
  tag_ok t = true ->
  anchored_field t (inject_tags [t] req)
  = Some (with_block t (or_default [] (anchored_field t req))).
Proof.
  intros Hok. unfold anchored_field, with_block.
  destruct (inject_one t req Hok)
    as [(Ep & E & _)|[(Ep & E & _)|(Ep & _ & E)]]; rewrite Ep, E;
    reflexivity.
Qed.

Lemma format_tag_both_present (t : Tag) (x : str) :
  both_present t (with_block t x) = true.
Proof.
  assert (Hh : forall a b, occurs (header t) (a ++ _format_tag t ++ b)).
  { intros a b. exists a, ([nl] ++ content t ++ [nl] ++ footer t ++ [nl] ++ b).
    unfold _format_tag. now rewrite <- !app_assoc. }
  assert (Hf : forall a b, occurs (footer t) (a ++ _format_tag t ++ b)).
  { intros a b. exists (a ++ header t ++ [nl] ++ content t ++ [nl]), ([nl] ++ b).
    unfold _format_tag. now rewrite <- !app_assoc. }
  unfold both_present, with_block.
  destruct (str_eqb (position t) (lit "user_message_before")).
  - specialize (Hh [] (blank_line ++ x)). specialize (Hf [] (blank_line ++ x)).
    cbn [app] in Hh, Hf. apply contains_occurs in Hh, Hf.
    now rewrite Hh, Hf.
  - specialize (Hh (x ++ blank_line) []). specialize (Hf (x ++ blank_line) []).
    rewrite app_nil_r, <- app_assoc in Hh, Hf.
    apply contains_occurs in Hh, Hf. now rewrite Hh, Hf.
Qed.

Lemma with_block_nonempty (t : Tag) (x : str) :
  is_empty (with_block t x) = false.
Proof.
  unfold with_block, _format_tag.
  destruct (str_eqb (position t) (lit "user_message_before")).
  - destruct (header t); reflexivity.
  - destruct x; [destruct (header t)|]; reflexivity.
Qed.

(** The anchored field after one run of the hook for a registry of one
    tag. *)
Lemma handle_one (t : Tag) (req : ProviderRequest) :
  tag_ok t = true ->
  anchored_field t (handle_inject_tags [t] req)
  = Some (with_block t
            (or_default [] (fst (clean_field t (anchored_field t req))))).
Proof.
  intros Hok. cbn [handle_inject_tags]. rewrite cleanup_all_one.
  now rewrite (inject_anchored_field t _ Hok), remove_anchored_field.
Qed.

(** X4: one block per turn.  For a registry of one tag whose content does
    not hold its footer, and a request whose anchored field is free of the
    header: the first run of the hook puts the rendered block next to the
    field, and the run of the next turn takes that block out before it
    injects again, so that the field holds the normalised text and one
    block, not two. *)
Theorem X4_one_block_per_turn (t : Tag) (req : ProviderRequest) :
  tag_ok t = true ->
  ~ occurs (footer t) (content t) ->
  ~ occurs (header t) (or_default [] (anchored_field t req)) ->
  anchored_field t (handle_inject_tags [t] req)
  = Some (with_block t (or_default [] (anchored_field t req)))
  /\ anchored_field t (handle_inject_tags [t] (handle_inject_tags [t] req))
     = Some (with_block t
               (Py.strip (Re.collapse_newlines
                            (or_default [] (anchored_field t req))))).
Proof.
  intros Hok Hc Hfree.
  assert (Hfirst : anchored_field t (handle_inject_tags [t] req)
                   = Some (with_block t
                             (or_default [] (anchored_field t req)))).
  { rewrite (handle_one t req Hok). do 2 f_equal.
    destruct (anchored_field t req) as [x|]; [|reflexivity].
    cbn [clean_field or_default] in *.
    assert (Hb : both_present t x = false).
    { unfold both_present. apply contains_false in Hfree.
      now rewrite Hfree. }
    rewrite Hb, andb_false_r. reflexivity. }
  split; [exact Hfirst|].
  rewrite (handle_one t _ Hok), Hfirst. cbn [clean_field].
  rewrite with_block_nonempty, format_tag_both_present.
  cbn [negb andb fst or_default]. do 2 f_equal.
  unfold with_block.
  destruct (str_eqb (position t) (lit "user_message_before")).
  - now apply clean_block_before.
  - now apply clean_block_after.
Qed.

Lemma X4_witness :
  tag_ok Foo = true
  /\ ~ occurs (footer Foo) (content Foo)
  /\ ~ occurs (header Foo)
        (or_default [] (anchored_field Foo (with_prompt (lit " Hi "))))
  /\ prompt (handle_inject_tags [Foo]
               (handle_inject_tags [Foo] (with_prompt (lit " Hi "))))
     = Some (lit "Hi" ++ [nl; nl] ++ _format_tag Foo).
Proof.
  assert (Hc : ~ occurs (footer Foo) (content Foo))
    by (apply contains_false; reflexivity).
  assert (Hf : ~ occurs (header Foo)
                 (or_default [] (anchored_field Foo
                                   (with_prompt (lit " Hi ")))))
    by (apply contains_false; reflexivity).
  split; [reflexivity|]. split; [exact Hc|]. split; [exact Hf|].
  exact (proj2 (X4_one_block_per_turn Foo (with_prompt (lit " Hi "))
                  eq_refl Hc Hf)).
Defined.

(** ** The normal form of cleaned text *)

Lemma collapse_fixed_no_triple (s : str) :
  Re.collapse_newlines s = s -> ~ occurs [nl; nl; nl] s.
Proof.
  intros Hfix (a & b & E). unfold Re.collapse_newlines in Hfix.
  rewrite E in Hfix. apply collapse_fixed_suffix in Hfix.
  assert (Hl := collapse_from_length 3 b).
  cbn [app] in Hfix. rewrite !collapse_from_cons_nl in Hfix.
  cbn [Nat.ltb Nat.leb] in Hfix.
  apply (f_equal (@length _)) in Hfix. cbn [length] in Hfix. lia.
Qed.

(** X5: the normal form of cleaned text.  Whatever the text, the result
    of [_clean_string] for a well-formed tag has no white space at either
    end, has no run of three newlines, is left as it is by the newline
    collapse and by the trimming, and is not longer than the text. *)
Theorem X5_clean_string_normal_form (t : Tag) (s : str) :
  tag_ok t = true ->
  Py.strip (_clean_string s (_build_cleanup_pattern t))
  = _clean_string s (_build_cleanup_pattern t)
  /\ Re.collapse_newlines (_clean_string s (_build_cleanup_pattern t))
     = _clean_string s (_build_cleanup_pattern t)
  /\ ~ occurs [nl; nl; nl] (_clean_string s (_build_cleanup_pattern t))
  /\ (forall c r, _clean_string s (_build_cleanup_pattern t) = c :: r ->
                  Py.is_space c = false)
  /\ (forall r c, _clean_string s (_build_cleanup_pattern t) = r ++ [c] ->
                  Py.is_space c = false)
  /\ length (_clean_string s (_build_cleanup_pattern t)) <= length s.
Proof.
  intros Hok. destruct (clean_string_normal t s) as [Hc Hs].
  split; [exact Hs|]. split; [exact Hc|].
  split; [now apply collapse_fixed_no_triple|].
  split; [intros c r E; exact (strip_fixed_head _ _ _ Hs E)|].
  split; [intros r c E; exact (strip_fixed_last _ _ _ Hs E)|].
  eapply Nat.le_trans; [apply clean_string_length|].
  apply sub_empty_length. now apply pattern_header_nonempty.
Qed.

Lemma X5_witness :
  tag_ok Foo = true
  /\ length (_clean_string two_blocks (_build_cleanup_pattern Foo))
     <= length two_blocks.
Proof.
  split; [reflexivity|].
  exact (proj2 (proj2 (proj2 (proj2 (proj2
           (X5_clean_string_normal_form Foo two_blocks eq_refl)))))).
Defined.

(** X6: what is removed.  For a text that is header-free text with whole
    blocks inserted, no block with the footer in its inside, the result of
    [_clean_string] is that text with every block taken out, its newline
    runs collapsed and its ends trimmed; neighbouring blocks are removed
    one by one and the text between them stays. *)
Theorem X6_clean_string_removes_blocks (t : Tag) (s plain : str) :
  tag_ok t = true ->
  tagged_text (header t) (footer t) s plain ->
  ~ occurs (header t) plain ->
  _clean_string s (_build_cleanup_pattern t)
  = Py.strip (Re.collapse_newlines plain).
Proof.
  intros Hok Ht Hp. now apply (clean_string_tagged t Hok s plain Ht Hp).
Qed.

Lemma two_blocks_tagged :
  tagged_text (header Foo) (footer Foo) two_blocks (lit "abc").
Proof.
  change two_blocks
    with (lit "a" ++ header Foo ++ lit "1" ++ footer Foo
          ++ (lit "b" ++ header Foo ++ lit "2" ++ footer Foo ++ lit "c")).
  change (lit "abc") with (lit "a" ++ (lit "b" ++ lit "c")).
  apply tagged_block; [apply contains_false; reflexivity|].
  apply tagged_block; [apply contains_false; reflexivity|].
  apply tagged_plain.
Qed.

Lemma X6_witness :
  tag_ok Foo = true
  /\ tagged_text (header Foo) (footer Foo) two_blocks (lit "abc")
  /\ Py.contains (header Foo) (lit "abc") = false
  /\ _clean_string two_blocks (_build_cleanup_pattern Foo) = lit "abc".
Proof.
  split; [reflexivity|]. split; [exact two_blocks_tagged|].
  split; [reflexivity|].
  exact (X6_clean_string_removes_blocks Foo two_blocks (lit "abc") eq_refl
           two_blocks_tagged
           (proj1 (contains_false (header Foo) (lit "abc")) eq_refl)).
Defined.

(** ** Cleaning where the pattern has no match *)

Lemma both_present_nil (t : Tag) :
  tag_ok t = true -> both_present t [] = false.
Proof.
  intros Hok. unfold both_present.
  assert (H : Py.contains (header t) [] = false).
  { apply contains_false. intros (a & b & E).
    assert (Hn := pattern_header_nonempty t Hok). cbn in Hn.
    destruct a; [|discriminate]. destruct (header t); [|discriminate].
    now apply Hn. }
  now rewrite H.
Qed.

(** X7: the containment test and the pattern differ.  For a text in which
    the pattern has no match (the footer missing, or present before the
    header only) nothing is removed; yet when both delimiters are present
    the field is replaced by the text with its newline runs collapsed and
    its ends trimmed, and one fragment is counted if that changed the
    text.  Without both delimiters the field stays as it is, untrimmed. *)
Theorem X7_field_without_block (t : Tag) (s : str) :
  tag_ok t = true ->
  Re.search (_build_cleanup_pattern t) s = None ->
  clean_field t (Some s)
  = if both_present t s
    then (Some (Py.strip (Re.collapse_newlines s)),
          if str_eqb (Py.strip (Re.collapse_newlines s)) s then 0 else 1)
    else (Some s, 0).
Proof.
  intros Hok Hs. cbn [clean_field].
  destruct (both_present t s) eqn:Hb.
  - destruct s as [|c r]; [now rewrite both_present_nil in Hb|].
    cbn [is_empty negb andb]. unfold _clean_string.
    rewrite (sub_empty_no_match _ (pattern_header_nonempty t Hok) _ Hs).
    now destruct (str_eqb _ _).
  - now rewrite andb_false_r.
Qed.

Lemma X7_witness :
  tag_ok Foo = true
  /\ Re.search (_build_cleanup_pattern Foo) padded_reversed = None
  /\ clean_field Foo (Some padded_reversed)
     = (Some (lit "</Foo> then <Foo>"), 1).
Proof.
  split; [reflexivity|]. split; [reflexivity|].
  exact (X7_field_without_block Foo padded_reversed eq_refl eq_refl).
Defined.

(** ** Requests the cleanup leaves alone *)

Lemma clean_text_absent (t : Tag) (s : str) :
  both_present t s = false -> clean_text t s = Kept.
Proof. intros H. unfold clean_text. now rewrite H. Qed.

Lemma clean_field_absent (t : Tag) (f : option str) :
  (forall s, In s (option_texts f) -> both_present t s = false) ->
  clean_field t f = (f, 0).
Proof.
  intros H. destruct f as [s|]; [|reflexivity]. cbn [clean_field].
  rewrite (H s (or_introl eq_refl)). now rewrite andb_false_r.
Qed.

Lemma clean_part_absent (t : Tag) (part : pyval) :
  (forall s, In s (part_texts part) -> both_present t s = false) ->
  clean_part t part = Kept.
Proof.
  intros H. destruct part as [| | | |l|d|n]; try reflexivity.
  cbn [clean_part part_texts] in *.
  destruct (dict_get (lit "type") d VNone); try reflexivity.
  destruct (str_eqb _ _); [|reflexivity].
  destruct (dict_get (lit "text") d (VStr [])); try reflexivity.
  now rewrite (clean_text_absent t _ (H _ (or_introl eq_refl))).
Qed.

Lemma clean_parts_absent (t : Tag) (parts : list pyval) :
  (forall s, In s (flat_map part_texts parts) -> both_present t s = false) ->
  clean_parts t parts = (parts, false, 0).
Proof.
  induction parts as [|p parts IH]; [reflexivity|].
  intros H. cbn [clean_parts flat_map] in *.
  rewrite IH by (intros s Hs; apply H, in_or_app; now right).
  now rewrite clean_part_absent
    by (intros s Hs; apply H, in_or_app; now left).
Qed.

Lemma clean_message_absent (t : Tag) (msg : pyval) :
  handled_shape msg ->
  (forall s, In s (message_texts msg) -> both_present t s = false) ->
  clean_message t msg = (Some msg, 0).
Proof.
  intros Hs H. destruct msg as [| | |s|l|d|n]; try reflexivity.
  - cbn [clean_message message_texts] in *.
    now rewrite (clean_text_absent t _ (H _ (or_introl eq_refl))).
  - cbn [clean_message message_texts handled_shape] in *.
    destruct (dict_get (lit "content") d (VStr []))
      as [| | |c|parts|d'|n]; try contradiction.
    + now rewrite (clean_text_absent t _ (H _ (or_introl eq_refl))).
    + rewrite (clean_parts_absent t parts H).
      destruct parts; [contradiction|reflexivity].
Qed.

Lemma clean_contexts_absent (t : Tag) (msgs : list pyval) :
  (forall m, In m msgs -> handled_shape m) ->
  (forall s, In s (flat_map message_texts msgs) ->
             both_present t s = false) ->
  clean_contexts t msgs = (msgs, 0).
Proof.
  induction msgs as [|m msgs IH]; [reflexivity|].
  intros Hs H. cbn [clean_contexts flat_map] in *.
  rewrite IH.
  - rewrite clean_message_absent; [reflexivity| |].
    + apply Hs. now left.
    + intros s Hin. apply H, in_or_app. now left.
  - intros m' Hm. apply Hs. now right.
  - intros s Hin. apply H, in_or_app. now right.
Qed.

(** X8: a request in which no text holds both delimiters of the tag, and
    whose history entries are strings, dicts with string content, dicts
    with a list content that is not empty, or values that are neither
    strings nor dicts, comes out of the cleanup as it went in (no trimming,
    no collapse), with a count of zero. *)
Theorem X8_request_without_delimiters_untouched
  (t : Tag) (req : ProviderRequest) :
  (forall s, In s (request_texts req) -> both_present t s = false) ->
  (forall m, In m (or_default [] (contexts req)) -> handled_shape m) ->
  _remove_tags_from_context t req = (req, 0).
Proof.
  intros H Hs. destruct req as [sp pr cx]. unfold request_texts in H.
  cbn [system_prompt prompt contexts] in *.
  unfold _remove_tags_from_context. cbn [system_prompt prompt contexts].
  rewrite (clean_field_absent t sp)
    by (intros s Hin; apply H, in_or_app; now left).
  rewrite (clean_field_absent t pr)
    by (intros s Hin; apply H, in_or_app; right; apply in_or_app; now left).
  destruct cx as [[|m msgs]|]; try reflexivity.
  rewrite (clean_contexts_absent t (m :: msgs)); [reflexivity|exact Hs|].
  intros s Hin. apply H, in_or_app; right; apply in_or_app; now right.
Qed.

Lemma X8_witness :
  forallb (fun s => negb (both_present Foo s)) (request_texts quiet_request)
  = true
  /\ _remove_tags_from_context Foo quiet_request = (quiet_request, 0).
Proof.
  assert (Hf : forallb (fun s => negb (both_present Foo s))
                 (request_texts quiet_request) = true) by reflexivity.
  split; [exact Hf|].
  apply X8_request_without_delimiters_untouched.
  - intros s Hs. apply negb_true_iff.
    exact (proj1 (forallb_forall _ _) Hf s Hs).
  - intros m [<-|[<-|[<-|[]]]]; exact I.
Defined.

(** ** The cleanup only takes away *)

Lemma clean_contexts_length (t : Tag) (msgs : list pyval) :
  length (fst (clean_contexts t msgs)) <= length msgs.
Proof.
  induction msgs as [|m msgs IH]; [reflexivity|].
  cbn [clean_contexts]. destruct (clean_contexts t msgs) as [f n].
  destruct (clean_message t m) as [[m'|] k]; cbn [fst length] in *; lia.
Qed.

Lemma derived_length (t : Tag) (s u : str) :
  tag_ok t = true -> derived t s u -> length u <= length s.
Proof.
  intros Hok [[_ ->]|[_ ->]]; [reflexivity|].
  eapply Nat.le_trans; [apply clean_string_length|].
  apply sub_empty_length. now apply pattern_header_nonempty.
Qed.

Lemma clean_field_zero (t : Tag) (f : option str) :
  snd (clean_field t f) = 0 -> fst (clean_field t f) = f.
Proof.
  destruct f as [s|]; [|reflexivity]. cbn [clean_field].
  destruct (negb (is_empty s) && both_present t s); [|reflexivity].
  cbn [fst snd].
  destruct (str_eqb _ s) eqn:E; [|discriminate].
  intros _. apply str_eqb_eq in E. now rewrite E.
Qed.

Lemma remove_only_takes_away (t : Tag) (req : ProviderRequest) :
  tag_ok t = true ->
  length (or_default [] (contexts (fst (_remove_tags_from_context t req))))
  <= length (or_default [] (contexts req))
  /\ (forall u,
        In u (request_texts (fst (_remove_tags_from_context t req))) ->
        exists s, In s (request_texts req) /\ length u <= length s)
  /\ (snd (_remove_tags_from_context t req) = 0 ->
      system_prompt (fst (_remove_tags_from_context t req))
      = system_prompt req
      /\ prompt (fst (_remove_tags_from_context t req)) = prompt req).
Proof.
  intros Hok. split; [|split].
  - destruct req as [sp pr cx]. unfold _remove_tags_from_context.
    cbn [system_prompt prompt contexts].
    destruct (clean_field t sp) as [sp' n1].
    destruct (clean_field t pr) as [pr' n2].
    destruct cx as [[|m msgs]|]; cbn [fst contexts or_default length];
      try lia.
    assert (H := clean_contexts_length t (m :: msgs)).
    destruct (clean_contexts t (m :: msgs)) as [f n].
    cbn [fst contexts or_default length] in *. exact H.
  - intros u Hu. destruct (surviving_texts t req u Hu) as (s & Hs & Hd).
    exists s. split; [exact Hs|]. now apply (derived_length t).
  - destruct req as [sp pr cx]. unfold _remove_tags_from_context.
    cbn [system_prompt prompt contexts].
    assert (H1 := clean_field_zero t sp). assert (H2 := clean_field_zero t pr).
    destruct (clean_field t sp) as [sp' n1].
    destruct (clean_field t pr) as [pr' n2].
    destruct cx as [[|m msgs]|];
      [| destruct (clean_contexts t (m :: msgs)) as [f n] |];
      cbn [fst snd system_prompt prompt] in *; intros Hz;
      (split; [apply H1|apply H2]; lia).
Qed.

Lemma cleanup_all_cons (t : Tag) (tags : list Tag) (req : ProviderRequest) :
  cleanup_all (t :: tags) req
  = (fst (cleanup_all tags (fst (_remove_tags_from_context t req))),
     snd (_remove_tags_from_context t req)
     + snd (cleanup_all tags (fst (_remove_tags_from_context t req)))).
Proof.
  cbn [cleanup_all]. destruct (_remove_tags_from_context t req) as [r n].
  cbn [fst snd]. now destruct (cleanup_all tags r).
Qed.

(** X9: the cleanup phase only takes away.  For well-formed tags, the
    history after the cleanup for all of them has no more entries than
    before; every text of the request after it is no longer than some text
    of the request before it; and when the total count is zero, the system
    prompt and the user prompt are as they were. *)
Theorem X9_cleanup_only_takes_away (tags : list Tag) (req : ProviderRequest) :
  Forall (fun t => tag_ok t = true) tags ->
  length (or_default [] (contexts (fst (cleanup_all tags req))))
  <= length (or_default [] (contexts req))
  /\ (forall u,
        In u (request_texts (fst (cleanup_all tags req))) ->
        exists s, In s (request_texts req) /\ length u <= length s)
  /\ (snd (cleanup_all tags req) = 0 ->
      system_prompt (fst (cleanup_all tags req)) = system_prompt req
      /\ prompt (fst (cleanup_all tags req)) = prompt req).
Proof.
  intros Hok. revert req.
  induction Hok as [|t tags Ht _ IH]; intros req.
  - cbn [cleanup_all fst snd]. split; [reflexivity|]. split; [|now split].
    intros u Hu. now exists u.
  - rewrite cleanup_all_cons. cbn [fst snd].
    destruct (remove_only_takes_away t req Ht) as (L1 & T1 & Z1).
    destruct (IH (fst (_remove_tags_from_context t req))) as (L2 & T2 & Z2).
    split; [lia|]. split.
    + intros u Hu. destruct (T2 u Hu) as (s & Hs & Hl).
      destruct (T1 s Hs) as (s0 & Hs0 & Hl0). exists s0. split; [exact Hs0|lia].
    + intros Hz. destruct Z1 as [E1 E2]; [lia|].
      destruct Z2 as [E3 E4]; [lia|]. split; congruence.
Qed.

Lemma X9_witness :
  Forall (fun t => tag_ok t = true) [Foo; Bar]
  /\ length (or_default []
               (contexts (fst (cleanup_all [Foo; Bar] stale_request))))
     <= length (or_default [] (contexts stale_request)).
Proof.
  assert (H : Forall (fun t => tag_ok t = true) [Foo; Bar])
    by (repeat constructor).
  split; [exact H|].
  exact (proj1 (X9_cleanup_only_takes_away [Foo; Bar] stale_request H)).
Defined.

(** ** A multipart entry without parts *)

(** X10: a history entry that is a dict whose content is the empty list
    holds no tag, yet the loop over its parts leaves [cleaned_parts] empty:
    the entry is taken out of the history and counted as one removed
    fragment, for every tag. *)
Theorem X10_empty_multipart_entry_dropped
  (t : Tag) (d : list (str * pyval)) (pre post : list pyval)
  (sp pr : option str) :
  dict_get (lit "content") d (VStr []) = VList [] ->
  clean_message t (VDict d) = (None, 1)
  /\ contexts (fst (_remove_tags_from_context t
                      {| system_prompt := sp; prompt := pr;
                         contexts := Some (pre ++ VDict d :: post) |}))
     = Some (fst (clean_contexts t pre) ++ fst (clean_contexts t post))
  /\ snd (clean_contexts t (pre ++ VDict d :: post))
     = snd (clean_contexts t pre) + 1 + snd (clean_contexts t post).
Proof.
  intros Hd.
  assert (Hm : clean_message t (VDict d) = (None, 1)).
  { cbn [clean_message]. now rewrite Hd. }
  split; [exact Hm|]. split.
  - rewrite remove_contexts_nonempty, clean_contexts_app. cbn [fst].
    now rewrite clean_contexts_cons, Hm.
  - rewrite clean_contexts_app. cbn [snd]. cbn [clean_contexts].
    rewrite Hm. destruct (clean_contexts t post). cbn [snd]. lia.
Qed.

Lemma X10_witness :
  dict_get (lit "content") empty_content_dict (VStr []) = VList []
  /\ contexts (fst (_remove_tags_from_context Foo
                      (with_contexts [VStr (lit "Hi");
                                      VDict empty_content_dict])))
     = Some [VStr (lit "Hi")].
Proof.
  split; [reflexivity|].
  exact (proj1 (proj2 (X10_empty_multipart_entry_dropped Foo
                         empty_content_dict [VStr (lit "Hi")] [] None None
                         eq_refl))).
Defined.

(** ** The registry and the configuration *)

Lemma load_slots_slots (cfg : Config) (keys : list str) :
  map slot (load_slots cfg keys)
  = filter (fun k => is_some (load_slot cfg k)) keys.
Proof.
  induction keys as [|k keys IH]; [reflexivity|].
  cbn [load_slots filter].
  destruct (load_slot cfg k) as [t|] eqn:E; cbn [is_some map].
  - now rewrite IH, (load_slot_key _ _ _ E).
  - exact IH.
Qed.

Lemma load_slot_local (cfg cfg' : Config) (key : str) :
  config_get cfg key = config_get cfg' key ->
  load_slot cfg' key = load_slot cfg key.
Proof. intros H. unfold load_slot. now rewrite H. Qed.

Lemma load_slots_local (cfg cfg' : Config) (keys : list str) :
  (forall k, In k keys -> config_get cfg k = config_get cfg' k) ->
  load_slots cfg' keys = load_slots cfg keys.
Proof.
  induction keys as [|k keys IH]; [reflexivity|].
  intros H. cbn [load_slots].
  rewrite (load_slot_local cfg cfg' k) by (apply H; now left).
  rewrite IH by (intros k' Hk; apply H; now right). reflexivity.
Qed.

Lemma slot_keys_nodup : NoDup TAG_SLOT_KEYS.
Proof.
  vm_compute.
  repeat (constructor; [cbn [In]; intros H;
                        repeat (destruct H as [H|H]; [discriminate|]);
                        exact H|]).
  constructor.
Qed.

(** X11: the registry follows the slots.  The slots of the tags of the
    registry are the keys among tag_1 .. tag_5 whose slot loads, in that
    order; no slot gives two tags; and the registry depends on the values
    of these five keys only. *)
Theorem X11_registry_follows_slots (cfg : Config) :
  map slot (_load_tags cfg)
  = filter (fun k => is_some (load_slot cfg k)) TAG_SLOT_KEYS
  /\ NoDup (map slot (_load_tags cfg))
  /\ (forall cfg',
        (forall k, In k TAG_SLOT_KEYS ->
                   config_get cfg k = config_get cfg' k) ->
        _load_tags cfg' = _load_tags cfg).
Proof.
  split; [apply load_slots_slots|]. split.
  - unfold _load_tags. rewrite load_slots_slots.
    apply NoDup_filter, slot_keys_nodup.
  - intros cfg' H. now apply load_slots_local.
Qed.

(** ** Escaped newlines *)

Lemma replace_escaped_head (c : char) (s : str) :
  exists r, Py.replace_escaped_newline (c :: s) = c :: r
            \/ Py.replace_escaped_newline (c :: s) = nl :: r.
Proof.
  destruct s as [|d s]; [exists []; now left|].
  cbn [Py.replace_escaped_newline].
  destruct ((c =? backslash)%N && (d =? letter_n)%N); eexists;
    [right|left]; reflexivity.
Qed.

Lemma replace_escaped_cons (c d : char) (s : str) :
  Py.replace_escaped_newline (c :: d :: s)
  = if (c =? backslash)%N && (d =? letter_n)%N
    then nl :: Py.replace_escaped_newline s
    else c :: Py.replace_escaped_newline (d :: s).
Proof. reflexivity. Qed.

Lemma occurs_pair_cons (x y c : char) (s : str) :
  occurs [x; y] (c :: s) ->
  occurs [x; y] s \/ (c = x /\ exists r, s = y :: r).
Proof.
  intros (a & b & E). destruct a as [|a0 a].
  - right. cbn [app] in E. injection E as -> ->. split; [reflexivity|].
    now exists b.
  - left. cbn [app] in E. injection E as _ ->. now exists a, b.
Qed.

Lemma replace_escaped_newline_none (n : nat) :
  forall s, length s <= n ->
            ~ occurs escaped_newline (Py.replace_escaped_newline s).
Proof.
  induction n as [|n IH]; intros s Hn.
  - destruct s; [|cbn [length] in Hn; lia].
    intros (a & b & E). destruct a; discriminate.
  - destruct s as [|c [|d s]].
    + intros (a & b & E). destruct a; discriminate.
    + intros (a & b & E). destruct a as [|? [|? ?]]; discriminate.
    + cbn [length] in Hn. rewrite replace_escaped_cons.
      destruct ((c =? backslash)%N && (d =? letter_n)%N) eqn:Ec.
      * intros H. apply occurs_pair_cons in H as [H|[H _]].
        -- revert H. apply IH. lia.
        -- discriminate.
      * intros H. apply occurs_pair_cons in H as [H|[-> [r Hr]]].
        -- revert H. apply IH. cbn [length]. lia.
        -- destruct (replace_escaped_head d s) as (r' & [E|E]);
             rewrite E in Hr; injection Hr as Hd _.
           ++ subst d. discriminate.
           ++ discriminate.
Qed.

(** X12: the content of a tag of the registry holds no backslash followed
    by the letter n: every such pair of the configured content has become
    a newline. *)
Theorem X12_registry_content_unescaped (cfg : Config) (t : Tag) :
  In t (_load_tags cfg) -> ~ occurs escaped_newline (content t).
Proof.
  intros Hin H.
  destruct (load_slots_from _ _ _ Hin) as (key & _ & Hl).
  unfold load_slot in Hl.
  destruct (or_default _ (config_get cfg key)) as [s|]; [|discriminate].
  destruct (negb (or_default false (enabled s))); [discriminate|].
  destruct (is_empty _); [discriminate|].
  destruct (negb _); [discriminate|].
  destruct (is_empty _); [discriminate|].
  injection Hl as <-. cbn [content] in H.
  apply strip_occurs in H.
  now apply (replace_escaped_newline_none _ _ (Nat.le_refl _)) in H.
Qed.

Lemma X12_witness :
  Py.contains escaped_newline (or_default [] (slot_content bogus_slot))
  = true
  /\ Py.contains escaped_newline
       (content (hd Foo (_load_tags bogus_config))) = false.
Proof.
  split; [reflexivity|]. apply contains_false.
  apply (X12_registry_content_unescaped bogus_config).
  vm_compute. left. reflexivity.
Defined.

(** ** The check of the tag name *)

Lemma name_chars_to_end_all (m : str) :
  forallb Re.is_name_char m = true ->
  Re.name_chars_to_end m = true /\ Re.name_chars_to_end (m ++ [nl]) = true.
Proof.
  induction m as [|c m IH]; [now split|].
  cbn [forallb]. intros H. apply andb_true_iff in H as [Hc Hm].
  destruct (IH Hm) as [H1 H2]. destruct m as [|d m].
  - cbn [app Re.name_chars_to_end]. rewrite Hc. now split.
  - split.
    + change (Re.is_name_char c && Re.name_chars_to_end (d :: m) = true).
      now rewrite Hc, H1.
    + change (Re.is_name_char c && Re.name_chars_to_end ((d :: m) ++ [nl])
              = true).
      now rewrite Hc, H2.
Qed.

Lemma name_pattern_of_valid (m : str) :
  valid_name m = true ->
  TAG_NAME_PATTERN m = true /\ TAG_NAME_PATTERN (m ++ [nl]) = true.
Proof.
  unfold valid_name. intros H. apply andb_true_iff in H as [Hne Hall].
  destruct (name_chars_to_end_all m Hall) as [H1 H2].
  destruct m as [|c m]; [discriminate|].
  cbn [forallb] in Hall. apply andb_true_iff in Hall as [Hc _].
  unfold TAG_NAME_PATTERN. cbn [app] in *. now rewrite Hc, H1, H2.
Qed.

(** X13: the check of the tag name.  [TAG_NAME_PATTERN.match] accepts the
    names made of letters, digits, underscores and hyphens, and also such
    a name followed by one newline, which [$] lets pass; on a trimmed
    string, which is what [_load_tags] hands to it, it accepts exactly the
    names made of these characters. *)
Theorem X13_name_check (s : str) :
  (TAG_NAME_PATTERN s = true
   <-> exists m, valid_name m = true /\ (s = m \/ s = m ++ [nl]))
  /\ TAG_NAME_PATTERN (Py.strip s) = valid_name (Py.strip s).
Proof.
  assert (Hiff : forall x,
             TAG_NAME_PATTERN x = true
             <-> exists m, valid_name m = true
                           /\ (x = m \/ x = m ++ [nl])).
  { intros x. split.
    - unfold TAG_NAME_PATTERN. destruct x as [|c x]; [discriminate|].
      intros H. apply andb_true_iff in H as [Hc He].
      destruct (name_chars_to_end_inv _ He) as [E|(r & z & E & Hr & Hz)];
        [discriminate|].
      destruct Hz as [Hz| ->].
      + exists (c :: x). split; [|now left].
        unfold valid_name. cbn [is_empty negb andb]. rewrite E.
        rewrite forallb_app, Hr. cbn [forallb]. now rewrite Hz.
      + exists r. split; [|now right].
        unfold valid_name. rewrite Hr, andb_true_r.
        destruct r as [|c' r]; [|reflexivity].
        cbn [app] in E. injection E as -> _.
        now destruct (name_char_plain nl Hc) as (_ & _ & _ & Hn & _).
    - intros (m & Hm & [->| ->]); now apply name_pattern_of_valid. }
  split; [apply Hiff|].
  destruct (TAG_NAME_PATTERN (Py.strip s)) eqn:Et.
  - symmetry. apply trimmed_name_valid; [apply strip_idem|exact Et].
  - destruct (valid_name (Py.strip s)) eqn:Ev; [|reflexivity].
    destruct (name_pattern_of_valid _ Ev) as [H _]. congruence.
Qed.

(** ** The records of the loader *)

Lemma load_slot_logged_fst (cfg : Config) (key : str) :
  fst (load_slot_logged cfg key) = load_slot cfg key.
Proof.
  unfold load_slot_logged, load_slot.
  destruct (or_default _ (config_get cfg key)) as [s|]; [|reflexivity].
  destruct (negb (or_default false (enabled s))); [reflexivity|].
  destruct (is_empty _); [reflexivity|].
  destruct (negb (TAG_NAME_PATTERN _)); [reflexivity|].
  destruct (is_empty _); reflexivity.
Qed.

Lemma load_slots_logged_fst (cfg : Config) (keys : list str) :
  fst (load_slots_logged cfg keys) = load_slots cfg keys.
Proof.
  induction keys as [|k keys IH]; [reflexivity|].
  cbn [load_slots_logged load_slots].
  rewrite <- (load_slot_logged_fst cfg k), <- IH.
  destruct (load_slot_logged cfg k) as [[t|] log];
    destruct (load_slots_logged cfg keys) as [tags logs]; reflexivity.
Qed.

Lemma load_slots_logged_snd (cfg : Config) (k : str) (keys : list str) :
  snd (load_slots_logged cfg (k :: keys))
  = snd (load_slot_logged cfg k) ++ snd (load_slots_logged cfg keys).
Proof.
  cbn [load_slots_logged].
  destruct (load_slot_logged cfg k) as [[t|] log];
    destruct (load_slots_logged cfg keys) as [tags logs]; reflexivity.
Qed.

Lemma load_slot_logged_disabled (cfg : Config) (key : str) :
  slot_enabled cfg key = false -> load_slot_logged cfg key = (None, []).
Proof.
  unfold slot_enabled, load_slot_logged.
  destruct (config_get cfg key) as [[s|]|]; cbn [or_default];
    try reflexivity.
  intros H. now rewrite H.
Qed.

(** What one enabled slot leaves in the log. *)
Lemma load_slot_logged_enabled (cfg : Config) (key : str) :
  slot_enabled cfg key = true ->
  match load_slot_logged cfg key with
  | (Some t, log) =>
      filter is_loaded_record log = [loaded_record t]
      /\ In (loaded_record t) log
  | (None, log) =>
      filter is_loaded_record log = []
      /\ exists w, log = [w] /\ is_warning w = true
                   /\ warned_slot w = Some key
  end.
Proof.
  unfold slot_enabled, load_slot_logged.
  destruct (config_get cfg key) as [[s|]|]; try discriminate.
  cbn [or_default]. intros H. rewrite H. cbn [negb].
  destruct (is_empty _);
    [split; [reflexivity|eexists; split; [reflexivity|now split]]|].
  destruct (negb (TAG_NAME_PATTERN _));
    [split; [reflexivity|eexists; split; [reflexivity|now split]]|].
  destruct (is_empty _);
    [split; [reflexivity|eexists; split; [reflexivity|now split]]|].
  unfold loaded_record. cbn [tag_name position content].
  destruct (negb (recognized_position _)); cbn [app filter is_loaded_record In];
    split; auto.
Qed.

Lemma load_slot_logged_loaded (cfg : Config) (key : str) :
  filter is_loaded_record (snd (load_slot_logged cfg key))
  = match load_slot cfg key with
    | Some t => [loaded_record t]
    | None => []
    end.
Proof.
  rewrite <- load_slot_logged_fst.
  destruct (slot_enabled cfg key) eqn:E.
  - assert (H := load_slot_logged_enabled cfg key E).
    destruct (load_slot_logged cfg key) as [[t|] log]; now destruct H.
  - now rewrite load_slot_logged_disabled.
Qed.

Lemma load_slots_logged_loaded (cfg : Config) (keys : list str) :
  filter is_loaded_record (snd (load_slots_logged cfg keys))
  = map loaded_record (load_slots cfg keys).
Proof.
  induction keys as [|k keys IH]; [reflexivity|].
  rewrite load_slots_logged_snd, filter_app, IH, load_slot_logged_loaded.
  cbn [load_slots]. now destruct (load_slot cfg k).
Qed.

Lemma load_slots_logged_in (cfg : Config) (keys : list str) (key : str)
  (r : LogRecord) :
  In key keys -> In r (snd (load_slot_logged cfg key)) ->
  In r (snd (load_slots_logged cfg keys)).
Proof.
  induction keys as [|k keys IH]; [contradiction|].
  intros [->|Hk] Hr; rewrite load_slots_logged_snd; apply in_or_app.
  - now left.
  - right. now apply IH.
Qed.

Lemma load_slots_logged_from (cfg : Config) (keys : list str)
  (r : LogRecord) :
  In r (snd (load_slots_logged cfg keys)) ->
  exists key, In key keys /\ In r (snd (load_slot_logged cfg key)).
Proof.
  induction keys as [|k keys IH]; [contradiction|].
  rewrite load_slots_logged_snd. intros H.
  apply in_app_or in H as [H|H].
  - exists k. split; [now left|exact H].
  - destruct (IH H) as (key & Hk & Hr). exists key. split; [now right|exact Hr].
Qed.

(** X14: no enabled slot is skipped in silence.  For each of the keys
    tag_1 .. tag_5 whose slot is enabled, either the slot gives a tag of
    the registry and the log of [_load_tags] holds the record of that tag
    (name, anchor and length of the content), or the registry has no tag of
    that slot and the log holds a warning that names the key. *)
Theorem X14_enabled_slot_reported (cfg : Config) (key : str) :
  In key TAG_SLOT_KEYS ->
  slot_enabled cfg key = true ->
  (exists t, load_slot cfg key = Some t
             /\ In t (_load_tags cfg)
             /\ In (loaded_record t) (snd (_load_tags_logged cfg)))
  \/ (load_slot cfg key = None
      /\ (forall t, In t (_load_tags cfg) -> slot t <> key)
      /\ exists w, In w (snd (_load_tags_logged cfg))
                   /\ is_warning w = true /\ warned_slot w = Some key).
Proof.
  intros Hk He. assert (H := load_slot_logged_enabled cfg key He).
  assert (Hf := load_slot_logged_fst cfg key).
  destruct (load_slot_logged cfg key) as [[t|] log] eqn:E; cbn [fst] in Hf.
  - left. exists t. destruct H as [_ Hin].
    split; [now symmetry|]. split.
    + now apply (load_slots_in cfg _ key).
    + apply (load_slots_logged_in cfg _ key _ Hk). now rewrite E.
  - right. destruct H as [_ (w & -> & Hw & Hs)].
    split; [now symmetry|]. split.
    + intros t Hin Hs'.
      destruct (load_slots_from _ _ _ Hin) as (k' & _ & Hl).
      rewrite (load_slot_key _ _ _ Hl) in Hs'. subst k'. congruence.
    + exists w. split; [|now split].
      apply (load_slots_logged_in cfg _ key _ Hk). rewrite E. now left.
Qed.

Lemma X14_witness :
  In (lit "tag_1") TAG_SLOT_KEYS
  /\ slot_enabled [(lit "tag_1", CfgSlot nameless_slot)] (lit "tag_1") = true
  /\ exists w,
       In w (snd (_load_tags_logged [(lit "tag_1", CfgSlot nameless_slot)]))
       /\ is_warning w = true /\ warned_slot w = Some (lit "tag_1").
Proof.
  assert (Hk : In (lit "tag_1") TAG_SLOT_KEYS) by (left; reflexivity).
  split; [exact Hk|]. split; [reflexivity|].
  destruct (X14_enabled_slot_reported
              [(lit "tag_1", CfgSlot nameless_slot)] (lit "tag_1") Hk eq_refl)
    as [(t & Hl & _)|(_ & _ & H)].
  - discriminate Hl.
  - exact H.
Defined.

(** X15: the log of [_load_tags] and the registry agree.  The records of
    loaded tags in the log are those of the tags of the registry, in the
    order of the registry; every warning names one of the keys
    tag_1 .. tag_5 whose slot is enabled; and [__init__] keeps the
    registry and ends the log with its size. *)
Theorem X15_load_log_agrees_with_registry (cfg : Config) :
  fst (_load_tags_logged cfg) = _load_tags cfg
  /\ filter is_loaded_record (snd (_load_tags_logged cfg))
     = map loaded_record (_load_tags cfg)
  /\ (forall w, In w (snd (_load_tags_logged cfg)) ->
                is_warning w = true ->
                exists key, In key TAG_SLOT_KEYS
                            /\ warned_slot w = Some key
                            /\ slot_enabled cfg key = true)
  /\ _tags (fst (__init__ cfg)) = _load_tags cfg
  /\ snd (__init__ cfg)
     = snd (_load_tags_logged cfg)
       ++ [info_initialised (length (_load_tags cfg))].
Proof.
  assert (Hf : fst (_load_tags_logged cfg) = _load_tags cfg)
    by apply load_slots_logged_fst.
  split; [exact Hf|]. split; [apply load_slots_logged_loaded|]. split.
  - intros w Hin Hw.
    destruct (load_slots_logged_from _ _ _ Hin) as (key & Hk & Hr).
    exists key. split; [exact Hk|].
    destruct (slot_enabled cfg key) eqn:He.
    + split; [|reflexivity].
      unfold load_slot_logged in Hr.
      destruct (or_default _ (config_get cfg key)) as [s|]; [|contradiction].
      destruct (negb (or_default false (enabled s))); [contradiction|].
      destruct (is_empty _); [destruct Hr as [<-|[]]; reflexivity|].
      destruct (negb (TAG_NAME_PATTERN _));
        [destruct Hr as [<-|[]]; reflexivity|].
      destruct (is_empty _); [destruct Hr as [<-|[]]; reflexivity|].
      cbn [snd] in Hr.
      destruct (negb (recognized_position _)); cbn [app In] in Hr.
      * destruct Hr as [<-|[<-|[]]]; [reflexivity|discriminate].
      * destruct Hr as [<-|[]]. discriminate.
    + rewrite (load_slot_logged_disabled cfg key He) in Hr. contradiction.
  - unfold __init__. rewrite <- Hf.
    destruct (_load_tags_logged cfg) as [tags logs]. now split.
Qed.

(** ** The hook and its records *)

Lemma group_tags_raising_spec (tags : list Tag) :
  forall bp,
    group_tags tags bp
    = match group_tags_raising tags bp with
      | inl bp' => Some bp'
      | inr _ => None
      end.
Proof.
  induction tags as [|t tags IH]; [reflexivity|].
  intros bp. cbn [group_tags group_tags_raising].
  destruct (bucket_append _ _ bp); [apply IH|reflexivity].
Qed.

Lemma hook_logged_fst (origin : option str) (tags : list Tag)
  (req : ProviderRequest) :
  fst (handle_inject_tags_logged origin tags req)
  = handle_inject_tags tags req.
Proof.
  destruct tags as [|t tags]; [reflexivity|].
  unfold handle_inject_tags_logged, handle_inject_tags, inject_tags.
  destruct (cleanup_all (t :: tags) req) as [req1 n]. cbn [fst].
  rewrite group_tags_raising_spec.
  destruct (group_tags_raising (t :: tags) by_position_init) as [bp|key];
    [|reflexivity].
  destruct (bucket (lit "user_message_before") bp);
    destruct (bucket (lit "user_message_after") bp);
    destruct (bucket (lit "system_prompt") bp); reflexivity.
Qed.

Lemma bucket_init (k : str) : bucket k by_position_init = [].
Proof.
  unfold by_position_init. cbn [bucket].
  now repeat destruct (str_eqb _ k).
Qed.

Ltac eval_str_eqb :=
  repeat match goal with
         | |- context [str_eqb (lit ?a) (lit ?b)] =>
             let v := eval vm_compute in (str_eqb (lit a) (lit b)) in
             change (str_eqb (lit a) (lit b)) with v
         end.

Lemma blocks_at_lengths (tags : list Tag) :
  positions_ok tags ->
  length (blocks_at (lit "user_message_before") tags)
  + length (blocks_at (lit "user_message_after") tags)
  + length (blocks_at (lit "system_prompt") tags)
  = length tags.
Proof.
  induction 1 as [|t tags Ht _ IH]; [reflexivity|].
  unfold blocks_at in *. cbn [filter length].
  destruct (recognized_position_cases _ Ht) as [E|[E|E]]; rewrite E;
    eval_str_eqb; cbn [map length]; lia.
Qed.

(** The hook for tags whose anchors are all known. *)
Lemma hook_logged_ok (origin : option str) (tags : list Tag)
  (req : ProviderRequest) :
  positions_ok tags ->
  fst (handle_inject_tags_logged origin tags req)
  = injected tags (fst (cleanup_all tags req))
  /\ Forall (fun r => is_error r = false)
            (snd (handle_inject_tags_logged origin tags req))
  /\ list_sum (map injected_count
                   (snd (handle_inject_tags_logged origin tags req)))
     = length tags.
Proof.
  intros Hok. destruct tags as [|t tags].
  - cbn. split; [now destruct req|]. now split.
  - assert (Hl := blocks_at_lengths _ Hok).
    destruct (group_tags_succeeds _ Hok by_position_init eq_refl)
      as (bp & Hg).
    assert (Hb := group_tags_buckets _ _ _ Hg).
    rewrite group_tags_raising_spec in Hg.
    unfold handle_inject_tags_logged.
    destruct (cleanup_all (t :: tags) req) as [req1 n]. cbn [fst].
    destruct (group_tags_raising (t :: tags) by_position_init)
      as [bp'|key]; [|discriminate].
    injection Hg as ->. unfold injected.
    rewrite !Hb, !bucket_init. cbn [app].
    destruct (blocks_at (lit "user_message_before") (t :: tags));
      destruct (blocks_at (lit "user_message_after") (t :: tags));
      destruct (blocks_at (lit "system_prompt") (t :: tags));
      cbn [fst snd app length] in *;
      (split; [reflexivity|]);
      (split; [destruct (0 <? n); repeat constructor|]);
      destruct (0 <? n); cbn [app map injected_count list_sum fold_right];
      lia.
Qed.

(** X16: the hook on the registry of a plugin object.  Whatever the
    configuration and the request, the run of the hook does not reach the
    [except] clause: the request it leaves is the request after the cleanup
    for every tag of the registry with the blocks of the registry
    injected, the log holds no error record, and the numbers of tags the
    injection records report add up to the size of the registry. *)
Theorem X16_hook_on_registry (cfg : Config) (origin : option str)
  (req : ProviderRequest) :
  fst (on_llm_request (fst (__init__ cfg)) origin req)
  = injected (_load_tags cfg) (fst (cleanup_all (_load_tags cfg) req))
  /\ Forall (fun r => is_error r = false)
            (snd (on_llm_request (fst (__init__ cfg)) origin req))
  /\ list_sum (map injected_count
                   (snd (on_llm_request (fst (__init__ cfg)) origin req)))
     = length (_load_tags cfg).
Proof.
  assert (E : _tags (fst (__init__ cfg)) = _load_tags cfg).
  { unfold __init__, _load_tags.
    rewrite <- (load_slots_logged_fst cfg TAG_SLOT_KEYS).
    fold (_load_tags_logged cfg).
    now destruct (_load_tags_logged cfg). }
  unfold on_llm_request. rewrite E.
  apply hook_logged_ok, loaded_positions_ok.
Qed.

Lemma bucket_append_in (key x : str) (bp bp' : list (str * list str)) :
  bucket_append key x bp = Some bp' -> In key (map fst bp).
Proof.
  revert bp'. induction bp as [|[k v] bp IH]; [discriminate|].
  intros bp'. cbn [bucket_append map fst In].
  destruct (str_eqb k key) eqn:E.
  - intros _. left. now apply str_eqb_eq.
  - destruct (bucket_append key x bp) as [b|]; [|discriminate].
    intros _. right. now apply (IH b).
Qed.

Lemma key_recognized (p : str) :
  In p (map fst by_position_init) -> recognized_position p = true.
Proof.
  cbn [by_position_init map fst In].
  intros [<-|[<-|[<-|[]]]]; reflexivity.
Qed.

Lemma not_key_unrecognized (p : str) :
  ~ In p (map fst by_position_init) -> recognized_position p = false.
Proof.
  intros H. destruct (recognized_position p) eqn:E; [|reflexivity].
  contradiction H. now apply recognized_position_key.
Qed.

Lemma group_tags_raising_unknown (tags : list Tag) :
  forall bp,
    map fst bp = map fst by_position_init ->
    (exists t, In t tags /\ recognized_position (position t) = false) ->
    exists key, group_tags_raising tags bp = inr key
                /\ recognized_position key = false.
Proof.
  induction tags as [|t tags IH]; intros bp Hk (t0 & Hin & Hr);
    [contradiction|].
  cbn [group_tags_raising].
  destruct (bucket_append (position t) (_format_tag t) bp) as [bp'|] eqn:E.
  - apply IH.
    + now rewrite (bucket_append_keys _ _ _ _ E).
    + exists t0. split; [|exact Hr]. destruct Hin as [<-|Hin]; [|exact Hin].
      apply bucket_append_in in E. rewrite Hk in E.
      apply key_recognized in E. congruence.
  - exists (position t). split; [reflexivity|].
    apply not_key_unrecognized. rewrite <- Hk. intros Hin'.
    destruct (bucket_append_succeeds _ (_format_tag t) _ Hin') as (b & Hb).
    congruence.
Qed.

(** X17: the [except] clause.  When a tag of the list has an anchor that
    is none of the three, the grouping raises before any field is written
    to: the run leaves the request as the cleanup for all tags left it,
    with no block injected, and the log holds the cleanup record (when
    something was counted) and then one error record, with a key that is
    no anchor. *)
Theorem X17_unknown_anchor_fails_open (tags : list Tag)
  (origin : option str) (req : ProviderRequest) :
  (exists t, In t tags /\ recognized_position (position t) = false) ->
  exists key,
    recognized_position key = false
    /\ handle_inject_tags_logged origin tags req
       = (fst (cleanup_all tags req),
          (if 0 <? snd (cleanup_all tags req)
           then [info_cleaned (session_of origin)
                              (snd (cleanup_all tags req))]
           else [])
          ++ [error_hook key]).
Proof.
  intros H.
  destruct (group_tags_raising_unknown tags by_position_init eq_refl H)
    as (key & Hg & Hr).
  exists key. split; [exact Hr|].
  destruct tags as [|t tags]; [discriminate|].
  unfold handle_inject_tags_logged.
  destruct (cleanup_all (t :: tags) req) as [req1 n].
  now rewrite Hg.
Qed.

Lemma X17_witness :
  In Stray [Foo; Stray]
  /\ recognized_position (position Stray) = false
  /\ exists key,
       recognized_position key = false
       /\ handle_inject_tags_logged None [Foo; Stray] stale_request
          = (fst (cleanup_all [Foo; Stray] stale_request),
             (if 0 <? snd (cleanup_all [Foo; Stray] stale_request)
              then [info_cleaned (session_of None)
                      (snd (cleanup_all [Foo; Stray] stale_request))]
              else [])
             ++ [error_hook key]).
Proof.
  assert (Hin : In Stray [Foo; Stray]) by (right; left; reflexivity).
  split; [exact Hin|]. split; [reflexivity|].
  exact (X17_unknown_anchor_fails_open [Foo; Stray] None stale_request
           (ex_intro _ Stray (conj Hin eq_refl))).
Defined.

(** ** Every tag is injected, in registry order *)

Lemma join_cons (sep x : str) (Y : list str) :
  exists b, Py.join sep (x :: Y) = x ++ b
            /\ (Y <> [] -> b = sep ++ Py.join sep Y).
Proof.
  destruct Y as [|y Y].
  - exists []. cbn [Py.join]. rewrite app_nil_r. split; [reflexivity|].
    intros H. now contradiction H.
  - exists (sep ++ Py.join sep (y :: Y)). now split.
Qed.

Lemma join_app (sep : str) (X W : list str) :
  W <> [] -> exists a, Py.join sep (X ++ W) = a ++ Py.join sep W.
Proof.
  intros HW. induction X as [|x X IH]; [now exists []|].
  destruct IH as (a & IH).
  destruct (join_cons sep x (X ++ W)) as (b & E & Hb).
  exists (x ++ sep ++ a). cbn [app]. rewrite E, Hb, IH.
  - now rewrite <- !app_assoc.
  - destruct X; [exact HW|discriminate].
Qed.

Lemma join_holds (sep x : str) (X Y : list str) :
  exists a b, Py.join sep (X ++ x :: Y) = a ++ x ++ b.
Proof.
  destruct (join_app sep X (x :: Y)) as (a & E); [discriminate|].
  destruct (join_cons sep x Y) as (b & Eb & _).
  exists a, b. now rewrite E, Eb.
Qed.

Lemma join_holds_two (sep x y : str) (X Y Z : list str) :
  exists a b c,
    Py.join sep (X ++ x :: Y ++ y :: Z) = a ++ x ++ b ++ y ++ c.
Proof.
  destruct (join_app sep X (x :: Y ++ y :: Z)) as (a & E); [discriminate|].
  destruct (join_cons sep x (Y ++ y :: Z)) as (b & Eb & Hb).
  destruct (join_holds sep y Y Z) as (a' & c & E').
  exists a, (sep ++ a'), c.
  rewrite E, Eb, Hb, E' by (destruct Y; discriminate).
  now rewrite <- !app_assoc.
Qed.

(** The field of an anchor after the injection holds the joined blocks of
    that anchor. *)
Lemma injected_field (tags : list Tag) (req : ProviderRequest) (t : Tag) :
  In t tags -> recognized_position (position t) = true ->
  exists pre post,
    anchored_field t (injected tags req)
    = Some (pre ++ Py.join blank_line (blocks_at (position t) tags)
            ++ post).
Proof.
  intros Hin Hr.
  assert (Hne : blocks_at (position t) tags <> []).
  { unfold blocks_at. intros H. apply map_eq_nil in H.
    assert (Hf : In t (filter (fun t' => str_eqb (position t') (position t))
                         tags))
      by (apply filter_In; split; [exact Hin|apply str_eqb_refl]).
    now rewrite H in Hf. }
  unfold anchored_field, injected.
  destruct (recognized_position_cases _ Hr) as [E|[E|E]]; rewrite E in *;
    eval_str_eqb; cbn [system_prompt prompt].
  - destruct (blocks_at (lit "user_message_before") tags) as [|b bs] eqn:Eb;
      [now contradiction Hne|].
    destruct (blocks_at (lit "user_message_after") tags) as [|a l].
    + exists [], (blank_line ++ or_default [] (prompt req)). reflexivity.
    + exists [], (blank_line ++ or_default [] (prompt req) ++ blank_line
                  ++ Py.join blank_line (a :: l)).
      cbn [or_default app]. now rewrite <- !app_assoc.
  - destruct (blocks_at (lit "user_message_after") tags) as [|a l] eqn:Ea;
      [now contradiction Hne|].
    eexists _, []. rewrite app_nil_r, app_assoc. reflexivity.
  - destruct (blocks_at (lit "system_prompt") tags) as [|a l] eqn:Ea;
      [now contradiction Hne|].
    eexists _, []. rewrite app_nil_r, app_assoc. reflexivity.
Qed.

Lemma blocks_at_split (anchor : str) (l1 l2 : list Tag) (t : Tag) :
  position t = anchor ->
  blocks_at anchor (l1 ++ t :: l2)
  = blocks_at anchor l1 ++ _format_tag t :: blocks_at anchor l2.
Proof.
  intros E. unfold blocks_at. rewrite filter_app. cbn [filter].
  rewrite E, str_eqb_refl. now rewrite map_app.
Qed.

(** X18: every tag is injected, in registry order.  After the injection
    of tags with known anchors, the field each tag is anchored to holds
    the rendered block of the tag; of two tags with the same anchor, the
    block of the one that comes first in the registry stands before the
    block of the other; and the text each of the two fields had before the
    injection is still part of the field. *)
Theorem X18_every_tag_injected_in_order (tags : list Tag)
  (req : ProviderRequest) :
  positions_ok tags ->
  (forall t, In t tags ->
             exists a b, anchored_field t (inject_tags tags req)
                         = Some (a ++ _format_tag t ++ b))
  /\ (forall l1 t1 l2 t2 l3,
         tags = l1 ++ t1 :: l2 ++ t2 :: l3 ->
         position t1 = position t2 ->
         exists a b c,
           anchored_field t1 (inject_tags tags req)
           = Some (a ++ _format_tag t1 ++ b ++ _format_tag t2 ++ c))
  /\ occurs (or_default [] (prompt req))
            (or_default [] (prompt (inject_tags tags req)))
  /\ occurs (or_default [] (system_prompt req))
            (or_default [] (system_prompt (inject_tags tags req))).
Proof.
  intros Hok. rewrite (inject_tags_ok tags req Hok).
  assert (Hr : forall t, In t tags -> recognized_position (position t) = true)
    by (now apply Forall_forall).
  split; [|split; [|split]].
  - intros t Hin.
    destruct (injected_field tags req t Hin (Hr t Hin)) as (pre & post & E).
    destruct (in_split _ _ Hin) as (l1 & l2 & ->).
    rewrite (blocks_at_split _ l1 l2 t eq_refl) in E.
    destruct (join_holds blank_line (_format_tag t)
                (blocks_at (position t) l1) (blocks_at (position t) l2))
      as (a & b & Ej).
    exists (pre ++ a), (b ++ post). rewrite E, Ej.
    now rewrite <- !app_assoc.
  - intros l1 t1 l2 t2 l3 -> Ep.
    assert (Hin : In t1 (l1 ++ t1 :: l2 ++ t2 :: l3))
      by (apply in_or_app; right; now left).
    destruct (injected_field _ req t1 Hin (Hr t1 Hin)) as (pre & post & E).
    rewrite (blocks_at_split _ l1 _ t1 eq_refl) in E.
    rewrite (blocks_at_split _ l2 l3 t2 (eq_sym Ep)) in E.
    destruct (join_holds_two blank_line (_format_tag t1) (_format_tag t2)
                (blocks_at (position t1) l1) (blocks_at (position t1) l2)
                (blocks_at (position t1) l3))
      as (a & b & c & Ej).
    exists (pre ++ a), b, (c ++ post). rewrite E, Ej.
    now rewrite <- !app_assoc.
  - unfold injected. cbn [prompt].
    destruct (blocks_at (lit "user_message_before") tags) as [|b bs];
      destruct (blocks_at (lit "user_message_after") tags) as [|a l];
      cbn [or_default].
    + exists [], []. now rewrite app_nil_r.
    + exists [], (blank_line ++ Py.join blank_line (a :: l)). reflexivity.
    + exists (Py.join blank_line (b :: bs) ++ blank_line), [].
      now rewrite app_nil_r, <- !app_assoc.
    + exists (Py.join blank_line (b :: bs) ++ blank_line),
             (blank_line ++ Py.join blank_line (a :: l)).
      now rewrite <- !app_assoc.
  - unfold injected. cbn [system_prompt].
    destruct (blocks_at (lit "system_prompt") tags) as [|a l];
      cbn [or_default].
    + exists [], []. now rewrite app_nil_r.
    + exists [], (blank_line ++ Py.join blank_line (a :: l)). reflexivity.
Qed.

Lemma X18_witness :
  Forall (fun t => recognized_position (position t) = true)
         [Foo_before; Foo; Bar; Sys]
  /\ exists a b c,
       anchored_field Foo (inject_tags [Foo_before; Foo; Bar; Sys]
                                       (with_prompt (lit "Hi")))
       = Some (a ++ _format_tag Foo ++ b ++ _format_tag Bar ++ c).
Proof.
  assert (H : positions_ok [Foo_before; Foo; Bar; Sys])
    by (repeat constructor).
  split; [exact H|].
  exact (proj1 (proj2 (X18_every_tag_injected_in_order
                         [Foo_before; Foo; Bar; Sys]
                         (with_prompt (lit "Hi")) H))
           [Foo_before] Foo [] Bar [Sys] eq_refl eq_refl).
Defined.

(** ** A plugin without tags *)

Lemma load_slots_logged_disabled (cfg : Config) (keys : list str) :
  (forall k, In k keys -> slot_enabled cfg k = false) ->
  load_slots_logged cfg keys = ([], []).
Proof.
  induction keys as [|k keys IH]; [reflexivity|].
  intros H. cbn [load_slots_logged].
  rewrite (load_slot_logged_disabled cfg k) by (apply H; now left).
  now rewrite IH by (intros k' Hk; apply H; now right).
Qed.

(** X19: a plugin without tags does nothing.  When none of the slots
    tag_1 .. tag_5 is enabled, [__init__] leaves an empty registry and logs
    its size only, whatever else the configuration holds; with that
    registry, and with the registry of any plugin object after
    [terminate], the hook leaves every request as it is, stale blocks
    included, and logs nothing. *)
Theorem X19_plugin_without_tags_idle (cfg : Config) (origin : option str)
  (req : ProviderRequest) :
  (forall k, In k TAG_SLOT_KEYS -> slot_enabled cfg k = false) ->
  __init__ cfg = ({| config := cfg; _tags := [] |}, [info_initialised 0])
  /\ on_llm_request (fst (__init__ cfg)) origin req = (req, [])
  /\ (forall self,
        on_llm_request (fst (terminate self)) origin req = (req, [])).
Proof.
  intros H.
  assert (E : __init__ cfg
              = ({| config := cfg; _tags := [] |}, [info_initialised 0])).
  { unfold __init__, _load_tags_logged.
    now rewrite (load_slots_logged_disabled cfg _ H). }
  split; [exact E|]. split; [now rewrite E|]. reflexivity.
Qed.

Lemma X19_witness :
  forallb (fun k => negb (slot_enabled disabled_config k)) TAG_SLOT_KEYS
  = true
  /\ on_llm_request (fst (__init__ disabled_config)) None stale_request
     = (stale_request, []).
Proof.
  assert (Hf : forallb (fun k => negb (slot_enabled disabled_config k))
                 TAG_SLOT_KEYS = true) by reflexivity.
  split; [exact Hf|].
  apply (X19_plugin_without_tags_idle disabled_config None stale_request).
  intros k Hk. apply negb_true_iff.
  exact (proj1 (forallb_forall _ _) Hf k Hk).
Defined.

(** ** Normalisation of joined texts *)

Lemma collapse_from_ge2 (s : str) :
  forall k k', 2 <= k -> 2 <= k' ->
               Re.collapse_from k s = Re.collapse_from k' s.
Proof.
  induction s as [|c s IH]; intros k k' Hk Hk'; [reflexivity|].
  destruct (N.eq_dec c nl) as [->|Hc].
  - rewrite !collapse_from_cons_nl.
    replace (k <? 2) with false by (symmetry; apply Nat.ltb_ge; lia).
    replace (k' <? 2) with false by (symmetry; apply Nat.ltb_ge; lia).
    apply IH; lia.
  - now rewrite !collapse_from_cons_other.
Qed.

Lemma collapse_collapse (s : str) :
  forall k j, j <= k ->
              Re.collapse_from k (Re.collapse_from j s)
              = Re.collapse_from k s.
Proof.
  induction s as [|c s IH]; intros k j Hj; [reflexivity|].
  destruct (N.eq_dec c nl) as [->|Hc].
  - rewrite (collapse_from_cons_nl j), (collapse_from_cons_nl k).
    destruct (j <? 2) eqn:Ej.
    + rewrite collapse_from_cons_nl. destruct (k <? 2).
      * f_equal. apply IH. lia.
      * apply IH. lia.
    + apply Nat.ltb_ge in Ej.
      replace (k <? 2) with false by (symmetry; apply Nat.ltb_ge; lia).
      rewrite (collapse_from_ge2 _ k (S k)) by lia. apply IH. lia.
  - rewrite !collapse_from_cons_other by exact Hc. f_equal. now apply IH.
Qed.

Lemma collapse_app_collapse_l (A B : str) :
  forall k, Re.collapse_from k (Re.collapse_from k A ++ B)
            = Re.collapse_from k (A ++ B).
Proof.
  induction A as [|c A IH]; intros k; [reflexivity|].
  cbn [app]. destruct (N.eq_dec c nl) as [->|Hc].
  - rewrite (collapse_from_cons_nl k A), (collapse_from_cons_nl k (A ++ B)).
    destruct (k <? 2) eqn:Ek.
    + cbn [app]. rewrite collapse_from_cons_nl, Ek. f_equal. apply IH.
    + apply Nat.ltb_ge in Ek.
      rewrite (collapse_from_ge2 _ k (S k)) by lia. apply IH.
  - rewrite (collapse_from_cons_other k c A) by exact Hc. cbn [app].
    rewrite !collapse_from_cons_other by exact Hc. f_equal. apply IH.
Qed.

Lemma collapse_app_collapse_r (A B : str) :
  forall k, Re.collapse_from k (A ++ Re.collapse_from 0 B)
            = Re.collapse_from k (A ++ B).
Proof.
  induction A as [|c A IH]; intros k.
  - cbn [app]. apply collapse_collapse. lia.
  - cbn [app]. destruct (N.eq_dec c nl) as [->|Hc].
    + rewrite !collapse_from_cons_nl. destruct (k <? 2); now rewrite IH.
    + rewrite !collapse_from_cons_other by exact Hc. now rewrite IH.
Qed.

Lemma normalise_space_app (w s : str) :
  forallb Py.is_space w = true ->
  forall k, Py.strip (Re.collapse_from k (w ++ s))
            = Py.strip (Re.collapse_from 0 s).
Proof.
  induction w as [|c w IH]; intros Hw k.
  - cbn [app]. unfold Py.strip. now rewrite lstrip_collapse_from.
  - cbn [forallb] in Hw. apply andb_true_iff in Hw as [Hc Hw].
    cbn [app]. destruct (N.eq_dec c nl) as [->|Hn].
    + rewrite collapse_from_cons_nl. destruct (k <? 2).
      * change (nl :: Re.collapse_from (S k) (w ++ s))
          with ([nl] ++ Re.collapse_from (S k) (w ++ s)).
        rewrite (strip_space_app [nl]) by reflexivity. now apply IH.
      * now apply IH.
    + rewrite collapse_from_cons_other by exact Hn.
      change (c :: Re.collapse_from 0 (w ++ s))
        with ([c] ++ Re.collapse_from 0 (w ++ s)).
      rewrite (strip_space_app [c])
        by (cbn [forallb]; now rewrite Hc).
      now apply IH.
Qed.

Lemma normalise_collapse_mid (A B C : str) :
  normalise (A ++ Re.collapse_from 0 B ++ C) = normalise (A ++ B ++ C).
Proof.
  unfold normalise, Re.collapse_newlines. f_equal.
  rewrite <- (collapse_app_collapse_r A (Re.collapse_from 0 B ++ C)).
  rewrite collapse_app_collapse_l.
  now rewrite collapse_app_collapse_r.
Qed.

Lemma normalise_lstrip_app (A B : str) :
  normalise (Py.lstrip A ++ B) = normalise (A ++ B).
Proof.
  destruct (lstrip_suffix A) as (w & E & Hw).
  rewrite E at 2. rewrite <- app_assoc. unfold normalise.
  symmetry. now apply normalise_space_app.
Qed.

Lemma normalise_app_rstrip (A B : str) :
  normalise (A ++ Py.rstrip B) = normalise (A ++ B).
Proof.
  destruct (rstrip_prefix B) as (w & E & Hw).
  rewrite E at 2. rewrite app_assoc. unfold normalise.
  symmetry. now apply normalise_app_spaces.
Qed.

Lemma normalise_idem (s : str) : normalise (normalise s) = normalise s.
Proof.
  unfold normalise.
  set (X := Re.collapse_newlines s).
  assert (HX : Re.collapse_from 0 X = X) by apply collapse_newlines_idem.
  destruct (strip_infix X) as (u & w & Hs). rewrite Hs in HX.
  apply collapse_fixed_suffix in HX. apply collapse_fixed_prefix in HX.
  unfold Re.collapse_newlines at 1. rewrite HX. apply strip_idem.
Qed.

Lemma lstrip_app_other (U X : str) (a : char) :
  Py.is_space a = false ->
  Py.lstrip (U ++ a :: X) = Py.lstrip U ++ a :: X.
Proof.
  intros Ha. induction U as [|c U IH].
  - cbn [app]. now rewrite lstrip_cons_other.
  - cbn [app]. destruct (Py.is_space c) eqn:E.
    + now rewrite !lstrip_cons_space.
    + now rewrite !lstrip_cons_other.
Qed.

Lemma rstrip_app_other (P V : str) (z : char) :
  Py.is_space z = false ->
  Py.rstrip (P ++ z :: V) = P ++ z :: Py.rstrip V.
Proof.
  intros Hz. unfold Py.rstrip.
  rewrite rev_app_distr. cbn [rev]. rewrite <- app_assoc. cbn [app].
  rewrite (lstrip_app_other _ _ _ Hz).
  rewrite rev_app_distr. cbn [rev]. rewrite rev_involutive.
  now rewrite <- app_assoc.
Qed.

(** ** Fields as blocks and gaps *)

Lemma render_gap (A W : str) (items : list (Tag * str)) :
  render (A ++ W) items = A ++ render W items.
Proof. destruct items as [|[c W'] rest]; cbn [render]; now app_norm. Qed.

Lemma flat_gap (A W : str) (items : list (Tag * str)) :
  flat (A ++ W) items = A ++ flat W items.
Proof. destruct items as [|[c W'] rest]; cbn [flat]; now app_norm. Qed.

Lemma render_app (W0 W : str) (t : Tag) (I1 I2 : list (Tag * str)) :
  render W0 (I1 ++ (t, W) :: I2)
  = render W0 I1 ++ block_core t ++ render W I2.
Proof.
  revert W0. induction I1 as [|[c W'] I1 IH]; intros W0; [reflexivity|].
  cbn [app render]. rewrite IH. now app_norm.
Qed.

Lemma on_last_cons (f : str -> str) (W0 W : str) (c : Tag)
  (rest : list (Tag * str)) :
  on_last f W0 ((c, W) :: rest)
  = (W0, (c, fst (on_last f W rest)) :: snd (on_last f W rest)).
Proof. cbn [on_last]. now destruct (on_last f W rest). Qed.

Lemma on_last_tags (f : str -> str) (items : list (Tag * str)) :
  forall W0, map fst (snd (on_last f W0 items)) = map fst items.
Proof.
  induction items as [|[c W] rest IH]; intros W0; [reflexivity|].
  rewrite on_last_cons. cbn [snd map fst]. now rewrite IH.
Qed.

Lemma on_last_nil (f : str -> str) (items : list (Tag * str)) :
  forall W0, snd (on_last f W0 items) = [] -> items = [].
Proof.
  intros W0 H. apply (f_equal (map fst)) in H.
  rewrite on_last_tags in H. now destruct items.
Qed.

(** Two laid out texts side by side. *)
Lemma render_glue (W : str) (I2 : list (Tag * str)) (I1 : list (Tag * str)) :
  forall W0,
    render W0 I1 ++ render W I2
    = render (fst (on_last (fun X => X ++ W) W0 I1))
             (snd (on_last (fun X => X ++ W) W0 I1) ++ I2).
Proof.
  induction I1 as [|[c W'] I1 IH]; intros W0.
  - cbn [on_last fst snd app render]. now rewrite render_gap.
  - rewrite on_last_cons. cbn [fst snd app render]. rewrite <- IH.
    now app_norm.
Qed.

Lemma flat_glue (W : str) (I2 : list (Tag * str)) (I1 : list (Tag * str)) :
  forall W0,
    flat (fst (on_last (fun X => X ++ W) W0 I1))
         (snd (on_last (fun X => X ++ W) W0 I1) ++ I2)
    = flat W0 I1 ++ flat W I2.
Proof.
  induction I1 as [|[c W'] I1 IH]; intros W0.
  - cbn [on_last fst snd app flat]. now rewrite flat_gap.
  - rewrite on_last_cons. cbn [fst snd app flat]. rewrite IH.
    now app_norm.
Qed.

Lemma flat_app (W0 W : str) (t : Tag) (I1 I2 : list (Tag * str)) :
  flat W0 (I1 ++ (t, W) :: I2) = flat W0 I1 ++ flat W I2.
Proof.
  revert W0. induction I1 as [|[c W'] I1 IH]; intros W0; [reflexivity|].
  cbn [app flat]. rewrite IH. now app_norm.
Qed.

Lemma map_gaps_tags (f : str -> str) (items : list (Tag * str)) :
  map fst (map_gaps f items) = map fst items.
Proof. unfold map_gaps. rewrite map_map. now apply map_ext. Qed.

(** Normalising the gaps leaves the normal form of their sequence. *)
Lemma flat_collapse (items : list (Tag * str)) :
  forall A W0,
    normalise (A ++ flat (Re.collapse_from 0 W0)
                         (map_gaps (Re.collapse_from 0) items))
    = normalise (A ++ flat W0 items).
Proof.
  induction items as [|[c W] rest IH]; intros A W0.
  - cbn [map_gaps map flat].
    assert (H := normalise_collapse_mid A W0 []).
    now rewrite !app_nil_r in H.
  - cbn [map_gaps map flat fst snd]. fold (map_gaps (Re.collapse_from 0) rest).
    rewrite normalise_collapse_mid.
    rewrite !app_assoc. apply IH.
Qed.

Lemma flat_rstrip (items : list (Tag * str)) :
  forall A W0,
    normalise (A ++ flat (fst (on_last Py.rstrip W0 items))
                         (snd (on_last Py.rstrip W0 items)))
    = normalise (A ++ flat W0 items).
Proof.
  induction items as [|[c W] rest IH]; intros A W0.
  - cbn [on_last fst snd flat]. apply normalise_app_rstrip.
  - rewrite on_last_cons. cbn [fst snd flat]. rewrite !app_assoc.
    apply IH.
Qed.

Lemma flat_lstrip (items : list (Tag * str)) (W0 : str) :
  normalise (flat (Py.lstrip W0) items) = normalise (flat W0 items).
Proof.
  assert (H1 := flat_gap (Py.lstrip W0) [] items).
  assert (H2 := flat_gap W0 [] items).
  rewrite app_nil_r in H1, H2. rewrite H1, H2.
  apply normalise_lstrip_app.
Qed.

Lemma render_nil_gap (W : str) (items : list (Tag * str)) :
  render W items = W ++ render [] items.
Proof.
  assert (H := render_gap W [] items). now rewrite app_nil_r in H.
Qed.

(** A delimiter that is in no gap and in no block is not in the text. *)
Lemma free_render (d : str) :
  delimiter d ->
  forall items W0,
    ~ occurs d W0 ->
    Forall (fun i => tag_ok (fst i) = true
                     /\ ~ occurs d (block_core (fst i))
                     /\ ~ occurs d (snd i) /\ gap_sep (snd i)) items ->
    ~ occurs d (render W0 items).
Proof.
  intros Hd. assert (Hne := delimiter_nonempty d Hd).
  assert (Hnl := delimiter_no_newline d Hd).
  destruct Hd as (body & -> & Hlt & _).
  induction items as [|[c W] rest IH]; intros W0 H0 Hall; [exact H0|].
  inversion Hall as [|? ? (Hok & Hc & HW & Hs) Hrest]; subst.
  cbn [fst snd] in *. specialize (IH W HW Hrest).
  cbn [render]. destruct (core_ends c Hok) as (M & EM).
  assert (Hcore : ~ occurs (lt_sign :: body) (block_core c ++ render W rest)).
  { destruct W as [|x W'].
    - destruct rest as [|[c' W''] rest']; [now rewrite app_nil_r|].
      inversion Hrest as [|? ? (Hok' & _) _]; subst. cbn [fst] in Hok'.
      destruct (core_ends c' Hok') as (M' & EM').
      intros (a & b & E). cbn [render] in *. rewrite EM' in E, IH.
      cbn [app] in E, IH.
      destruct (occurrence_split (lt_sign :: body) _ _ a b lt_sign Hlt E)
        as [(m & Em & _)|(l & _ & El)].
      + apply Hc. now exists a, m.
      + apply IH. now exists l, b.
    - cbn [gap_sep] in Hs. subst x.
      assert (E1 : render (nl :: W') rest = nl :: render W' rest)
        by exact (render_gap [nl] W' rest).
      rewrite E1 in *. intros Ho.
      destruct (occurs_sep _ _ _ nl Hne Hnl Ho) as [H|H]; [now apply Hc|].
      apply IH. destruct H as (a & b & E).
      exists (nl :: a), b. cbn [app]. now rewrite E. }
  intros (a & b & E). rewrite EM in E, Hcore. cbn [app] in E, Hcore.
  destruct (occurrence_split (lt_sign :: body) _ _ a b lt_sign Hlt E)
    as [(m & Em & _)|(l & _ & El)].
  - apply H0. now exists a, m.
  - apply Hcore. now exists l, b.
Qed.

Lemma nodup_map_inj {A B : Type} (f : A -> B) (l : list A) (a b : A) :
  NoDup (map f l) -> In a l -> In b l -> f a = f b -> a = b.
Proof.
  induction l as [|x l IH]; [contradiction|].
  cbn [map]. intros Hnd Ha Hb E.
  inversion Hnd as [|? ? Hx Hl]; subst.
  destruct Ha as [Ha|Ha], Hb as [Hb|Hb].
  - congruence.
  - subst x. contradiction Hx. rewrite E. now apply in_map.
  - subst x. contradiction Hx. rewrite <- E. now apply in_map.
  - now apply IH.
Qed.

Section Registry.

Variable tags : list Tag.
Hypothesis separate : registry_separate tags.

Lemma registry_tag_ok (t : Tag) : In t tags -> tag_ok t = true.
Proof.
  destruct separate as (Hok & _). intros Hin.
  now apply (proj1 (Forall_forall _ _) Hok).
Qed.

Lemma registry_core_fixed (t : Tag) :
  In t tags -> Re.collapse_from 0 (block_core t) = block_core t.
Proof.
  intros Hin. destruct separate as (_ & _ & Hc & Ht).
  destruct (Hc t t Hin Hin) as [Hh Hf].
  exact (core_collapse_fixed t t (registry_tag_ok t Hin) Hh Hf (Ht t Hin)).
Qed.

Lemma registry_names (t t' : Tag) :
  In t tags -> In t' tags -> tag_name t = tag_name t' -> t = t'.
Proof.
  destruct separate as (_ & Hnd & _). now apply nodup_map_inj.
Qed.

(** The header of one tag of the registry is not in the block of
    another. *)
Lemma registry_core_free (t c : Tag) :
  In t tags -> In c tags -> t <> c ->
  ~ occurs (header t) (block_core c).
Proof.
  intros Ht Hc Hne. destruct separate as (_ & _ & Hcont & Htr).
  destruct (Hcont c t Hc Ht) as [Hh Hf].
  apply (core_free_header2 c t (registry_tag_ok c Hc)
           (registry_tag_ok t Ht)); trivial.
  intros E. apply Hne. symmetry. now apply registry_names.
Qed.

Lemma collapse_render (items : list (Tag * str)) :
  Forall (fun i => In (fst i) tags) items ->
  forall W0,
    Re.collapse_from 0 (render W0 items)
    = render (Re.collapse_from 0 W0) (map_gaps (Re.collapse_from 0) items).
Proof.
  induction 1 as [|[c W] rest Hc _ IH]; intros W0; [reflexivity|].
  cbn [fst] in Hc. cbn [map_gaps map render fst snd].
  fold (map_gaps (Re.collapse_from 0) rest). rewrite <- IH.
  destruct (core_ends c (registry_tag_ok c Hc)) as (M & EM).
  assert (Hfix := registry_core_fixed c Hc). rewrite EM in *.
  apply collapse_around; [discriminate|discriminate|exact Hfix].
Qed.

Lemma lstrip_render (items : list (Tag * str)) (W0 : str) :
  items <> [] ->
  Forall (fun i => In (fst i) tags) items ->
  Py.lstrip (render W0 items) = render (Py.lstrip W0) items.
Proof.
  intros Hne Hall. destruct items as [|[c W] rest]; [now contradiction Hne|].
  inversion Hall as [|? ? Hc _]; subst. cbn [fst] in Hc.
  cbn [render]. destruct (core_ends c (registry_tag_ok c Hc)) as (M & ->).
  cbn [app]. now apply lstrip_app_other.
Qed.

Lemma rstrip_render (items : list (Tag * str)) :
  Forall (fun i => In (fst i) tags) items ->
  forall W0,
    Py.rstrip (render W0 items)
    = render (fst (on_last Py.rstrip W0 items))
             (snd (on_last Py.rstrip W0 items)).
Proof.
  induction 1 as [|[c W] rest Hc _ IH]; intros W0; [reflexivity|].
  cbn [fst] in Hc. rewrite on_last_cons. cbn [fst snd render].
  rewrite <- IH.
  destruct (core_ends c (registry_tag_ok c Hc)) as (M & ->).
  replace (W0 ++ (lt_sign :: M ++ [gt_sign]) ++ render W rest)
    with ((W0 ++ lt_sign :: M) ++ gt_sign :: render W rest)
    by (cbn [app]; now app_norm).
  rewrite rstrip_app_other by reflexivity. cbn [app]. now app_norm.
Qed.

(** The normal form of a laid out text is laid out the same way. *)
Lemma normalise_render (items : list (Tag * str)) (W0 : str) :
  Forall (fun i => In (fst i) tags) items ->
  normalise (render W0 items)
  = render
      (fst (on_last Py.rstrip (Py.lstrip (Re.collapse_from 0 W0))
                    (map_gaps (Re.collapse_from 0) items)))
      (snd (on_last Py.rstrip (Py.lstrip (Re.collapse_from 0 W0))
                    (map_gaps (Re.collapse_from 0) items))).
Proof.
  intros Hall. unfold normalise, Re.collapse_newlines.
  rewrite (collapse_render items Hall).
  assert (Hall' : Forall (fun i => In (fst i) tags)
                    (map_gaps (Re.collapse_from 0) items)).
  { unfold map_gaps. apply Forall_map. cbn [fst].
    exact Hall. }
  unfold Py.strip. destruct items as [|i rest].
  - reflexivity.
  - rewrite lstrip_render; [|discriminate|exact Hall'].
    now apply rstrip_render.
Qed.

Lemma normalise_render_flat (items : list (Tag * str)) (W0 : str) :
  normalise
    (flat (fst (on_last Py.rstrip (Py.lstrip (Re.collapse_from 0 W0))
                        (map_gaps (Re.collapse_from 0) items)))
          (snd (on_last Py.rstrip (Py.lstrip (Re.collapse_from 0 W0))
                        (map_gaps (Re.collapse_from 0) items))))
  = normalise (flat W0 items).
Proof.
  assert (H1 := flat_rstrip (map_gaps (Re.collapse_from 0) items) []
                  (Py.lstrip (Re.collapse_from 0 W0))).
  cbn [app] in H1. rewrite H1, flat_lstrip.
  exact (flat_collapse items [] W0).
Qed.

Lemma registry_header (t : Tag) :
  In t tags -> header t <> [] /\ ~ In nl (header t).
Proof.
  intros Hin. assert (Hd := header_delimiter t (registry_tag_ok t Hin)).
  split; [exact (delimiter_nonempty _ Hd)|exact (delimiter_no_newline _ Hd)].
Qed.

Lemma gap_free_collapse (W : str) :
  gap_free tags W -> gap_free tags (Re.collapse_from 0 W).
Proof.
  intros H t Hin Ho. destruct (registry_header t Hin) as [Hne Hnl].
  apply (H t Hin). exact (collapse_from_occurs _ Hne Hnl _ _ Ho).
Qed.

Lemma gap_sep_collapse (W : str) :
  gap_sep W -> gap_sep (Re.collapse_from 0 W).
Proof.
  destruct W as [|c W]; [trivial|]. cbn [gap_sep]. intros ->.
  rewrite collapse_from_cons_nl. reflexivity.
Qed.

Lemma gap_free_lstrip (W : str) :
  gap_free tags W -> gap_free tags (Py.lstrip W).
Proof.
  intros H t Hin Ho. apply (H t Hin).
  destruct (lstrip_suffix W) as (w & E & _). rewrite E.
  now apply occurs_app_r.
Qed.

Lemma gap_free_rstrip (W : str) :
  gap_free tags W -> gap_free tags (Py.rstrip W).
Proof.
  intros H t Hin Ho. apply (H t Hin).
  destruct (rstrip_prefix W) as (w & E & _). rewrite E.
  now apply occurs_app_l.
Qed.

Lemma gap_sep_rstrip (W : str) : gap_sep W -> gap_sep (Py.rstrip W).
Proof.
  intros H. destruct (rstrip_prefix W) as (w & E & _).
  destruct (Py.rstrip W) as [|c r] eqn:Er; [exact I|].
  rewrite E in H. exact H.
Qed.

Lemma gap_free_app (X W : str) :
  gap_free tags X -> gap_free tags W -> gap_sep W ->
  gap_free tags (X ++ W).
Proof.
  intros HX HW Hs t Hin Ho. destruct (registry_header t Hin) as [Hne Hnl].
  destruct W as [|c W']; [rewrite app_nil_r in Ho; now apply (HX t Hin)|].
  cbn [gap_sep] in Hs. subst c.
  destruct (occurs_sep _ _ _ nl Hne Hnl Ho) as [H|H].
  - now apply (HX t Hin).
  - apply (HW t Hin). destruct H as (a & b & E).
    exists (nl :: a), b. cbn [app]. now rewrite E.
Qed.

Lemma gap_sep_app (X W : str) : gap_sep X -> gap_sep W -> gap_sep (X ++ W).
Proof. destruct X; trivial. Qed.

Lemma on_last_ok (f : str -> str) :
  (forall W, gap_free tags W -> gap_free tags (f W)) ->
  (forall W, gap_sep W -> gap_sep (f W)) ->
  forall items W0,
    gap_free tags W0 -> items_ok tags items ->
    gap_free tags (fst (on_last f W0 items))
    /\ items_ok tags (snd (on_last f W0 items)).
Proof.
  intros Hf Hs. induction items as [|[c W] rest IH]; intros W0 H0 Hok.
  - cbn [on_last fst snd]. split; [now apply Hf|constructor].
  - rewrite on_last_cons. cbn [fst snd]. split; [exact H0|].
    inversion Hok as [|? ? (Hc & HW & HsW) Hrest]; subst.
    cbn [fst snd] in *. destruct (IH W HW Hrest) as [IH1 IH2].
    constructor; [|exact IH2]. cbn [fst snd].
    split; [exact Hc|]. split; [exact IH1|].
    destruct rest as [|[c' W''] rest'].
    + cbn [on_last fst]. now apply Hs.
    + rewrite on_last_cons. exact HsW.
Qed.

Lemma map_gaps_ok (f : str -> str) (items : list (Tag * str)) :
  (forall W, gap_free tags W -> gap_free tags (f W)) ->
  (forall W, gap_sep W -> gap_sep (f W)) ->
  items_ok tags items -> items_ok tags (map_gaps f items).
Proof.
  intros Hf Hs Hok. unfold items_ok, map_gaps. apply Forall_map.
  eapply Forall_impl; [|exact Hok].
  intros [c W] (Hc & HW & HsW). cbn [fst snd] in *. auto.
Qed.

Lemma items_ok_tags (items : list (Tag * str)) :
  items_ok tags items -> Forall (fun i => In (fst i) tags) items.
Proof. apply Forall_impl. now intros i (H & _). Qed.

Lemma items_ok_app (I1 I2 : list (Tag * str)) :
  items_ok tags (I1 ++ I2) <-> items_ok tags I1 /\ items_ok tags I2.
Proof. apply Forall_app. Qed.

(** The text a tag of the registry is not laid out in does not hold its
    header. *)
Lemma render_header_free (t : Tag) (W0 : str) (items : list (Tag * str)) :
  In t tags -> gap_free tags W0 -> items_ok tags items ->
  ~ In t (map fst items) ->
  ~ occurs (header t) (render W0 items).
Proof.
  intros Ht H0 Hok Hnot.
  apply free_render;
    [exact (header_delimiter t (registry_tag_ok t Ht))|now apply H0|].
  apply Forall_forall. intros [c W] Hin.
  destruct (proj1 (Forall_forall _ _) Hok _ Hin) as (Hc & HW & Hs).
  cbn [fst snd] in *.
  split; [now apply registry_tag_ok|]. split; [|split; [now apply HW|exact Hs]].
  apply registry_core_free; trivial.
  intros ->. apply Hnot. now apply (in_map fst) in Hin.
Qed.

(** The normal form of a laid out text, with what it keeps. *)
Lemma normalise_laid (W0 : str) (items : list (Tag * str)) :
  laid tags W0 items ->
  exists U I,
    normalise (render W0 items) = render U I
    /\ laid tags U I
    /\ map fst I = map fst items
    /\ normalise (flat U I) = normalise (flat W0 items).
Proof.
  intros (H0 & Hok & Hnd).
  exists (fst (on_last Py.rstrip (Py.lstrip (Re.collapse_from 0 W0))
                 (map_gaps (Re.collapse_from 0) items))),
         (snd (on_last Py.rstrip (Py.lstrip (Re.collapse_from 0 W0))
                 (map_gaps (Re.collapse_from 0) items))).
  split; [apply normalise_render, items_ok_tags, Hok|].
  split; [|split].
  - destruct (on_last_ok Py.rstrip gap_free_rstrip gap_sep_rstrip
                (map_gaps (Re.collapse_from 0) items)
                (Py.lstrip (Re.collapse_from 0 W0))) as [H1 H2].
    + now apply gap_free_lstrip, gap_free_collapse.
    + apply map_gaps_ok; auto using gap_free_collapse, gap_sep_collapse.
    + split; [exact H1|]. split; [exact H2|].
      now rewrite on_last_tags, map_gaps_tags.
  - now rewrite on_last_tags, map_gaps_tags.
  - apply normalise_render_flat.
Qed.

Lemma clean_field_some (t : Tag) (T : str) :
  tag_ok t = true ->
  fst (clean_field t (Some T))
  = Some (if both_present t T
          then _clean_string T (_build_cleanup_pattern t) else T).
Proof.
  intros Hok. cbn [clean_field]. destruct T as [|c T].
  - now rewrite both_present_nil.
  - cbn [is_empty negb andb]. now destruct (both_present t (c :: T)).
Qed.

(** The cleanup for a tag whose block is laid out in the text. *)
Lemma clean_laid_present (t : Tag) (W0 W : str)
  (I1 I2 : list (Tag * str)) :
  In t tags ->
  laid tags W0 (I1 ++ (t, W) :: I2) ->
  exists U I,
    both_present t (render W0 (I1 ++ (t, W) :: I2)) = true
    /\ _clean_string (render W0 (I1 ++ (t, W) :: I2))
                     (_build_cleanup_pattern t)
       = render U I
    /\ length (render U I) < length (render W0 (I1 ++ (t, W) :: I2))
    /\ laid tags U I
    /\ map fst I = map fst I1 ++ map fst I2
    /\ normalise (flat U I) = normalise (flat W0 (I1 ++ (t, W) :: I2))
    /\ normalise (render U I) = render U I.
Proof.
  intros Ht (H0 & Hok & Hnd).
  assert (Htok := registry_tag_ok t Ht).
  apply items_ok_app in Hok as [Hok1 Hok2].
  inversion Hok2 as [|? ? (_ & HW & HsW) Hok2']; subst. cbn [snd] in *.
  rewrite map_app in Hnd. cbn [map fst] in Hnd.
  assert (Hnot := NoDup_remove_2 _ _ _ Hnd).
  assert (Hnd' := NoDup_remove_1 _ _ _ Hnd).
  assert (Hpre : ~ occurs (header t) (render W0 I1)).
  { apply render_header_free; trivial.
    intros Hin. apply Hnot, in_or_app. now left. }
  assert (Hpost : ~ occurs (header t) (render W I2)).
  { apply render_header_free; trivial.
    intros Hin. apply Hnot, in_or_app. now right. }
  destruct separate as (_ & _ & Hcont & _).
  destruct (Hcont t t Ht Ht) as [_ Hfc].
  set (pat := _build_cleanup_pattern t).
  assert (Hsub : Re.sub_empty pat (render W0 (I1 ++ (t, W) :: I2))
                 = render W0 I1 ++ render W I2).
  { rewrite render_app. unfold block_core.
    replace (render W0 I1
             ++ (header t ++ [nl] ++ content t ++ [nl] ++ footer t)
             ++ render W I2)
      with (render W0 I1 ++ pat_header pat
            ++ ([nl] ++ content t ++ [nl]) ++ pat_footer pat
            ++ render W I2)
      by (unfold pat; cbn [pat_header pat_footer _build_cleanup_pattern];
          now app_norm).
    rewrite sub_empty_one_block.
    - f_equal. apply sub_empty_no_match;
        [exact (pattern_header_nonempty t Htok)|].
      now apply search_none_header.
    - exact (header_delimiter t Htok).
    - exact (footer_delimiter t Htok).
    - exact Hpre.
    - now apply wrapped_content_no_footer. }
  assert (Hboth : both_present t (render W0 (I1 ++ (t, W) :: I2)) = true).
  { unfold both_present. rewrite render_app.
    apply andb_true_iff. split; apply contains_occurs;
      apply occurs_app_r, occurs_app_l; unfold block_core.
    - exists [], ([nl] ++ content t ++ [nl] ++ footer t). reflexivity.
    - exists (header t ++ [nl] ++ content t ++ [nl]), [].
      rewrite app_nil_r. now app_norm. }
  assert (Hlen : length (normalise (render W0 I1 ++ render W I2))
                 < length (render W0 (I1 ++ (t, W) :: I2))).
  { unfold normalise, Re.collapse_newlines.
    assert (L1 := strip_length
                    (Re.collapse_from 0 (render W0 I1 ++ render W I2))).
    assert (L2 := collapse_from_length 0 (render W0 I1 ++ render W I2)).
    rewrite render_app. destruct (core_ends t Htok) as (M & ->).
    rewrite !length_app in *. cbn [length]. lia. }
  assert (Hclean : _clean_string (render W0 (I1 ++ (t, W) :: I2)) pat
                   = normalise (render W0 I1 ++ render W I2)).
  { unfold _clean_string. now rewrite Hsub. }
  rewrite render_glue in Hclean, Hlen.
  assert (Hglue : laid tags
                    (fst (on_last (fun X => X ++ W) W0 I1))
                    (snd (on_last (fun X => X ++ W) W0 I1) ++ I2)).
  { destruct (on_last_ok (fun X => X ++ W)
                (fun X HX => gap_free_app X W HX HW HsW)
                (fun X HX => gap_sep_app X W HX HsW) I1 W0 H0 Hok1)
      as [H1 H2].
    split; [exact H1|]. split; [apply items_ok_app; now split|].
    now rewrite map_app, on_last_tags. }
  destruct (normalise_laid _ _ Hglue) as (U & I & E & Hl & Hm & Hflat).
  exists U, I. rewrite E in Hclean, Hlen.
  split; [exact Hboth|]. split; [exact Hclean|]. split; [exact Hlen|].
  split; [exact Hl|]. split; [|split].
  - now rewrite Hm, map_app, on_last_tags.
  - now rewrite Hflat, flat_glue, flat_app.
  - rewrite <- E. apply normalise_idem.
Qed.

Lemma clean_laid_absent (t : Tag) (W0 : str) (items : list (Tag * str)) :
  In t tags -> laid tags W0 items -> ~ In t (map fst items) ->
  fst (clean_field t (Some (render W0 items))) = Some (render W0 items).
Proof.
  intros Ht (H0 & Hok & _) Hnot.
  rewrite (clean_field_some t _ (registry_tag_ok t Ht)).
  assert (Hb : both_present t (render W0 items) = false).
  { unfold both_present.
    assert (H : Py.contains (header t) (render W0 items) = false)
      by (apply contains_false; now apply render_header_free).
    now rewrite H. }
  now rewrite Hb.
Qed.

Lemma Tag_eq_dec (a b : Tag) : {a = b} + {a <> b}.
Proof.
  assert (Hs : forall x y : str, {x = y} + {x <> y})
    by (apply list_eq_dec, N.eq_dec).
  decide equality.
Qed.

Lemma in_map_fst_split (t : Tag) (items : list (Tag * str)) :
  In t (map fst items) ->
  exists I1 W I2, items = I1 ++ (t, W) :: I2.
Proof.
  intros H. apply in_map_iff in H as ([c W] & E & Hin).
  cbn [fst] in E. subst c. destruct (in_split _ _ Hin) as (I1 & I2 & ->).
  now exists I1, W, I2.
Qed.

Lemma clean_fold_cons (t : Tag) (rest : list Tag) (f : option str) :
  clean_fold (t :: rest) f = clean_fold rest (fst (clean_field t f)).
Proof. reflexivity. Qed.

(** The cleanup of a laid out field for the tags in turn takes out every
    block and leaves the normal form of the gaps. *)
Lemma clean_fold_laid (rest : list Tag) :
  NoDup rest -> (forall t, In t rest -> In t tags) ->
  forall W0 items,
    laid tags W0 items ->
    (forall c, In c (map fst items) -> In c rest) ->
    (items = [] -> normalise W0 = W0) ->
    clean_fold rest (Some (render W0 items))
    = Some (normalise (flat W0 items)).
Proof.
  induction rest as [|t rest IH]; intros Hnd Hsub W0 items Hl Hin Hfix.
  - destruct items as [|[c W] items'].
    + cbn [clean_fold fold_left render flat]. now rewrite Hfix.
    + contradiction (Hin c). now left.
  - inversion Hnd as [|? ? Hnt Hnd']; subst.
    assert (Ht : In t tags) by (apply Hsub; now left).
    assert (Hsub' : forall t', In t' rest -> In t' tags)
      by (intros t' H'; apply Hsub; now right).
    rewrite clean_fold_cons.
    destruct (in_dec Tag_eq_dec t (map fst items)) as [Hi|Hi].
    + destruct (in_map_fst_split t items Hi) as (I1 & W & I2 & ->).
      destruct (clean_laid_present t W0 W I1 I2 Ht Hl)
        as (U & I & Hb & E & _ & HlU & Hm & Hflat & Hnorm).
      rewrite (clean_field_some t _ (registry_tag_ok t Ht)), Hb, E.
      rewrite (IH Hnd' Hsub' U I HlU).
      * now rewrite Hflat.
      * intros c Hc. rewrite Hm in Hc.
        destruct Hl as (_ & _ & HndI). rewrite map_app in HndI.
        cbn [map fst] in HndI.
        assert (Hc' : In c (map fst (I1 ++ (t, W) :: I2))).
        { rewrite map_app. cbn [map fst]. apply in_or_app.
          apply in_app_or in Hc as [Hc|Hc]; [now left|right; now right]. }
        destruct (Hin c Hc') as [<-|Hr]; [|exact Hr].
        now contradiction (NoDup_remove_2 _ _ _ HndI).
      * intros ->. exact Hnorm.
    + rewrite (clean_laid_absent t W0 items Ht Hl Hi).
      apply (IH Hnd' Hsub' W0 items Hl); [|exact Hfix].
      intros c Hc. destruct (Hin c Hc) as [<-|Hr]; [contradiction|exact Hr].
Qed.

(** A field that holds no header of the registry stays as it is. *)
Lemma clean_fold_free (rest : list Tag) (f : option str) :
  (forall t, In t rest -> In t tags) ->
  header_free tags f ->
  clean_fold rest f = f.
Proof.
  intros Hsub Hf. induction rest as [|t rest IH]; [reflexivity|].
  rewrite clean_fold_cons, clean_field_absent; cbn [fst].
  - apply IH. intros t' H'. apply Hsub. now right.
  - intros s Hs. destruct f as [x|]; [|contradiction].
    destruct Hs as [<-|[]]. unfold both_present.
    assert (H : Py.contains (header t) x = false).
    { apply contains_false. apply (Hf t). apply Hsub. now left. }
    now rewrite H.
Qed.

End Registry.

Lemma cleanup_all_fields (tags : list Tag) :
  forall req,
    prompt (fst (cleanup_all tags req)) = clean_fold tags (prompt req)
    /\ system_prompt (fst (cleanup_all tags req))
       = clean_fold tags (system_prompt req).
Proof.
  induction tags as [|t tags IH]; intros req; [now split|].
  rewrite cleanup_all_cons. cbn [fst].
  destruct (IH (fst (_remove_tags_from_context t req))) as [E1 E2].
  destruct (remove_fields t req) as [Esp Epr].
  rewrite E1, E2, Esp, Epr, !clean_fold_cons. now split.
Qed.

(** ** The fields after the injection, laid out *)

Lemma joined_items_tags (ts : list Tag) : map fst (joined_items ts) = ts.
Proof.
  induction ts as [|a [|b r] IH]; [reflexivity|reflexivity|].
  change (joined_items (a :: b :: r))
    with ((a, nl :: blank_line) :: joined_items (b :: r)).
  cbn [map fst]. now rewrite IH.
Qed.

Lemma joined_items_render (ts : list Tag) :
  ts <> [] ->
  Py.join blank_line (map _format_tag ts) = render [] (joined_items ts).
Proof.
  induction ts as [|a [|b r] IH]; intros Hne; [now contradiction Hne| |].
  - cbn [map Py.join joined_items render app]. apply format_tag_core.
  - change (joined_items (a :: b :: r))
      with ((a, nl :: blank_line) :: joined_items (b :: r)).
    change (Py.join blank_line (map _format_tag (a :: b :: r)))
      with (_format_tag a ++ blank_line
            ++ Py.join blank_line (map _format_tag (b :: r))).
    rewrite IH by discriminate. cbn [render app].
    rewrite (render_nil_gap (nl :: blank_line)), format_tag_core.
    now app_norm.
Qed.

Lemma joined_items_flat (ts : list Tag) :
  forall W, exists j, flat W (joined_items ts) = W ++ repeat nl j.
Proof.
  induction ts as [|a [|b r] IH]; intros W.
  - exists 0. cbn. now rewrite app_nil_r.
  - exists 1. reflexivity.
  - change (joined_items (a :: b :: r))
      with ((a, nl :: blank_line) :: joined_items (b :: r)).
    cbn [flat]. destruct (IH (nl :: blank_line)) as (j & ->).
    exists (3 + j). reflexivity.
Qed.

Lemma blocks_behind_render (x : str) (ts : list Tag) :
  x ++ blocks_behind ts = render (x ++ post_gap ts) (joined_items ts).
Proof.
  destruct ts as [|a r]; [reflexivity|].
  unfold blocks_behind, post_gap. rewrite joined_items_render by discriminate.
  rewrite (render_nil_gap (x ++ blank_line)). now app_norm.
Qed.

Section RegistryFields.

Variable tags : list Tag.
Hypothesis separate : registry_separate tags.

Lemma registry_nodup : NoDup tags.
Proof.
  destruct separate as (_ & Hnd & _). now apply NoDup_map_inv in Hnd.
Qed.

Lemma newlines_gap_free (j : nat) : gap_free tags (repeat nl j).
Proof.
  intros t Hin. destruct (registry_header tags separate t Hin) as [Hne Hnl].
  now apply not_in_newlines.
Qed.

Lemma joined_items_ok (ts : list Tag) :
  (forall t, In t ts -> In t tags) -> items_ok tags (joined_items ts).
Proof.
  induction ts as [|a [|b r] IH]; intros Hin; [constructor| |].
  - constructor; [|constructor]. cbn [fst snd].
    split; [apply Hin; now left|]. split; [|reflexivity].
    exact (newlines_gap_free 1).
  - change (joined_items (a :: b :: r))
      with ((a, nl :: blank_line) :: joined_items (b :: r)).
    constructor.
    + cbn [fst snd]. split; [apply Hin; now left|]. split; [|reflexivity].
      exact (newlines_gap_free 3).
    + apply IH. intros t Ht. apply Hin. now right.
Qed.

Lemma gap_free_padded (x : str) (i j : nat) :
  gap_free tags x -> gap_free tags (repeat nl i ++ x ++ repeat nl j).
Proof.
  intros Hx t Hin Ho.
  destruct (registry_header tags separate t Hin) as [Hne Hnl].
  apply (Hx t Hin).
  apply (occurs_newlines_app _ _ i Hne Hnl) in Ho.
  now apply (occurs_app_newlines _ _ j Hne Hnl) in Ho.
Qed.

Lemma normalise_padded (x : str) (i j : nat) :
  normalise (repeat nl i ++ x ++ repeat nl j) = normalise x.
Proof.
  unfold normalise, Re.collapse_newlines.
  rewrite normalise_newlines_app.
  now rewrite normalise_app_spaces by apply spaces_newlines.
Qed.

Lemma post_gap_newlines (ts : list Tag) :
  exists j, post_gap ts = repeat nl j.
Proof. destruct ts; [now exists 0|now exists 2]. Qed.

(** The cleanup for the whole registry of a text with the blocks of some
    of its tags before and behind it leaves the normal form of the
    text. *)
Lemma clean_fold_blocks (Bs As : list Tag) (x : str) :
  (forall t, In t (Bs ++ As) -> In t tags) ->
  NoDup (Bs ++ As) -> Bs ++ As <> [] ->
  gap_free tags x ->
  clean_fold tags (Some (blocks_before Bs ++ x ++ blocks_behind As))
  = Some (normalise x).
Proof.
  intros Hin Hnd Hne Hx.
  assert (HA : items_ok tags (joined_items As))
    by (apply joined_items_ok; intros t Ht; apply Hin, in_or_app; now right).
  assert (HB : items_ok tags (joined_items Bs))
    by (apply joined_items_ok; intros t Ht; apply Hin, in_or_app; now left).
  destruct (post_gap_newlines As) as (j & Ej).
  rewrite blocks_behind_render.
  destruct Bs as [|b Bs'].
  - cbn [blocks_before app] in *.
    rewrite (clean_fold_laid tags separate tags registry_nodup
               (fun t H => H)).
    + destruct (joined_items_flat As (x ++ post_gap As)) as (k & ->).
      rewrite Ej, <- app_assoc, <- repeat_app.
      f_equal. exact (normalise_padded x 0 (j + k)).
    + split; [|split; [exact HA|now rewrite joined_items_tags]].
      rewrite Ej. exact (gap_free_padded x 0 j Hx).
    + intros c Hc. rewrite joined_items_tags in Hc. now apply Hin.
    + intros E. apply (f_equal (map fst)) in E.
      rewrite joined_items_tags in E. now contradiction Hne.
  - unfold blocks_before. rewrite joined_items_render by discriminate.
    replace ((render [] (joined_items (b :: Bs')) ++ blank_line)
             ++ render (x ++ post_gap As) (joined_items As))
      with (render [] (joined_items (b :: Bs'))
            ++ render (blank_line ++ x ++ post_gap As) (joined_items As))
      by (rewrite (render_nil_gap (blank_line ++ x ++ post_gap As)),
            (render_nil_gap (x ++ post_gap As)); now app_norm).
    rewrite render_glue.
    assert (Hmid : gap_free tags (blank_line ++ x ++ post_gap As)).
    { rewrite Ej. exact (gap_free_padded x 2 j Hx). }
    assert (Hsm : gap_sep (blank_line ++ x ++ post_gap As)) by reflexivity.
    destruct (on_last_ok tags
                (fun X => X ++ blank_line ++ x ++ post_gap As)
                (fun X HX => gap_free_app tags separate X _ HX Hmid Hsm)
                (fun X HX => gap_sep_app X _ HX Hsm)
                (joined_items (b :: Bs')) [] (newlines_gap_free 0) HB)
      as [H1 H2].
    rewrite (clean_fold_laid tags separate tags registry_nodup
               (fun t H => H)).
    + rewrite flat_glue.
      destruct (joined_items_flat (b :: Bs') []) as (i & ->).
      destruct (joined_items_flat As (blank_line ++ x ++ post_gap As))
        as (k & ->).
      rewrite Ej. f_equal.
      transitivity (normalise (repeat nl (i + 2) ++ x ++ repeat nl (j + k)));
        [f_equal|apply normalise_padded].
      rewrite !repeat_app. unfold blank_line. cbn [repeat app].
      now app_norm.
    + split; [exact H1|]. split; [apply items_ok_app; now split|].
      now rewrite map_app, on_last_tags, !joined_items_tags.
    + intros c Hc.
      rewrite map_app, on_last_tags, !joined_items_tags in Hc.
      now apply Hin.
    + intros E. apply (f_equal (map fst)) in E.
      rewrite map_app, on_last_tags, !joined_items_tags in E. discriminate.
Qed.

End RegistryFields.

(** ** The round trip of a registry *)

Lemma injected_prompt (tags : list Tag) (req : ProviderRequest) :
  prompt (injected tags req)
  = match tags_at (lit "user_message_before") tags
          ++ tags_at (lit "user_message_after") tags with
    | [] => prompt req
    | _ :: _ =>
        Some (blocks_before (tags_at (lit "user_message_before") tags)
              ++ or_default [] (prompt req)
              ++ blocks_behind (tags_at (lit "user_message_after") tags))
    end.
Proof.
  unfold injected, blocks_at. cbn [prompt].
  fold (tags_at (lit "user_message_before") tags).
  fold (tags_at (lit "user_message_after") tags).
  destruct (tags_at (lit "user_message_before") tags) as [|b Bs];
    destruct (tags_at (lit "user_message_after") tags) as [|a As];
    cbn [map app blocks_before blocks_behind or_default].
  - reflexivity.
  - reflexivity.
  - now rewrite app_nil_r, <- !app_assoc.
  - now rewrite <- !app_assoc.
Qed.

Lemma injected_system (tags : list Tag) (req : ProviderRequest) :
  system_prompt (injected tags req)
  = match tags_at (lit "system_prompt") tags with
    | [] => system_prompt req
    | _ :: _ =>
        Some (blocks_before []
              ++ or_default [] (system_prompt req)
              ++ blocks_behind (tags_at (lit "system_prompt") tags))
    end.
Proof.
  unfold injected, blocks_at. cbn [system_prompt].
  fold (tags_at (lit "system_prompt") tags).
  now destruct (tags_at (lit "system_prompt") tags).
Qed.

Lemma tags_at_in (anchor : str) (tags : list Tag) (t : Tag) :
  In t (tags_at anchor tags) -> In t tags /\ position t = anchor.
Proof.
  unfold tags_at. intros H. apply filter_In in H as [H E].
  split; [exact H|]. now apply str_eqb_eq.
Qed.

Lemma separate_positions (tags : list Tag) :
  registry_separate tags -> positions_ok tags.
Proof.
  intros (Hok & _). unfold positions_ok. eapply Forall_impl; [|exact Hok].
  intros t Ht. now destruct (tag_ok_inv t Ht) as (_ & _ & _ & _ & _ & H).
Qed.

(** The cleanup of the fields the injection wrote to. *)
Lemma clean_fold_injected (tags : list Tag) (req : ProviderRequest) :
  registry_separate tags ->
  header_free tags (prompt req) ->
  header_free tags (system_prompt req) ->
  clean_fold tags (prompt (injected tags req)) = prompt (settled tags req)
  /\ clean_fold tags (system_prompt (injected tags req))
     = system_prompt (settled tags req).
Proof.
  intros Hsep Hp Hs. assert (Hnd := registry_nodup tags Hsep). split.
  - rewrite injected_prompt. unfold settled. cbn [prompt].
    destruct (tags_at (lit "user_message_before") tags
              ++ tags_at (lit "user_message_after") tags) as [|c l] eqn:E.
    + now apply (clean_fold_free tags tags).
    + apply clean_fold_blocks; trivial.
      * intros t Ht. apply in_app_or in Ht as [Ht|Ht];
          now apply tags_at_in in Ht.
      * apply NoDup_app; try (now apply NoDup_filter).
        intros t H1 H2. apply tags_at_in in H1 as [_ E1].
        apply tags_at_in in H2 as [_ E2]. rewrite E1 in E2. discriminate.
      * rewrite E. discriminate.
  - rewrite injected_system. unfold settled. cbn [system_prompt].
    destruct (tags_at (lit "system_prompt") tags) as [|c l] eqn:E.
    + now apply (clean_fold_free tags tags).
    + rewrite <- E. apply clean_fold_blocks; trivial.
      * intros t Ht. cbn [app] in Ht. now apply tags_at_in in Ht.
      * now apply NoDup_filter.
      * rewrite E. discriminate.
Qed.

Lemma round_trip_fields (tags : list Tag) (req : ProviderRequest) :
  registry_separate tags ->
  header_free tags (prompt req) ->
  header_free tags (system_prompt req) ->
  same_fields (fst (cleanup_all tags (inject_tags tags req)))
              (settled tags req).
Proof.
  intros Hsep Hp Hs.
  rewrite (inject_tags_ok tags req (separate_positions tags Hsep)).
  destruct (cleanup_all_fields tags (injected tags req)) as [E1 E2].
  destruct (clean_fold_injected tags req Hsep Hp Hs) as [F1 F2].
  split; congruence.
Qed.

(** X20: the round trip of a registry.  For a registry of well-formed
    tags with different names, whose contents hold no delimiter of the
    registry and no run of three newlines, and a request whose user prompt
    and system prompt hold no header of the registry: the cleanup for all
    tags, run on the request the injection leaves, takes out every
    injected block of every tag; each field that got blocks holds its
    former text with the newline runs collapsed and the ends trimmed, and
    each field that got none is as it was. *)
Theorem X20_registry_round_trip (tags : list Tag) (req : ProviderRequest) :
  registry_separate tags ->
  header_free tags (prompt req) ->
  header_free tags (system_prompt req) ->
  same_fields (fst (cleanup_all tags (inject_tags tags req)))
              (settled tags req).
Proof.
  exact (round_trip_fields tags req).
Qed.

Lemma trio_separate : registry_separate trio.
Proof.
  split; [repeat constructor|]. split.
  - cbn [trio map]. repeat constructor; cbn [In];
      intros H; repeat (destruct H as [H|H]; [discriminate|]); exact H.
  - split.
    + intros t t' Ht Ht'. cbn [trio In] in Ht, Ht'.
      destruct Ht as [<-|[<-|[<-|[]]]]; destruct Ht' as [<-|[<-|[<-|[]]]];
        split; apply contains_false; reflexivity.
    + intros t Ht. cbn [trio In] in Ht.
      destruct Ht as [<-|[<-|[<-|[]]]]; apply contains_false; reflexivity.
Qed.

Lemma plain_request_free :
  header_free trio (prompt plain_request)
  /\ header_free trio (system_prompt plain_request).
Proof.
  split; intros t Ht; cbn [trio In] in Ht;
    destruct Ht as [<-|[<-|[<-|[]]]]; apply contains_false; reflexivity.
Qed.

Lemma X20_witness :
  registry_separate trio
  /\ same_fields (fst (cleanup_all trio (inject_tags trio plain_request)))
                 (settled trio plain_request)
  /\ prompt (settled trio plain_request)
     = Some (lit "Hi" ++ [nl; nl] ++ lit "there").
Proof.
  split; [exact trio_separate|]. split; [|reflexivity].
  exact (X20_registry_round_trip trio plain_request trio_separate
           (proj1 plain_request_free) (proj2 plain_request_free)).
Defined.

(** ** From turn to turn *)

Lemma same_fields_refl (r : ProviderRequest) : same_fields r r.
Proof. now split. Qed.

Lemma same_fields_trans (r1 r2 r3 : ProviderRequest) :
  same_fields r1 r2 -> same_fields r2 r3 -> same_fields r1 r3.
Proof. intros [A B] [C D]. split; congruence. Qed.

Lemma inject_fields_ext (tags : list Tag) (r1 r2 : ProviderRequest) :
  same_fields r1 r2 ->
  same_fields (inject_tags tags r1) (inject_tags tags r2).
Proof.
  intros [Hp Hs]. unfold inject_tags.
  destruct (group_tags tags by_position_init) as [bp|]; [|now split].
  split; cbn [prompt system_prompt]; now rewrite ?Hp, ?Hs.
Qed.

Lemma cleanup_fields_ext (tags : list Tag) (r1 r2 : ProviderRequest) :
  same_fields r1 r2 ->
  same_fields (fst (cleanup_all tags r1)) (fst (cleanup_all tags r2)).
Proof.
  intros [Hp Hs].
  destruct (cleanup_all_fields tags r1) as [A B].
  destruct (cleanup_all_fields tags r2) as [C D].
  split; congruence.
Qed.

Lemma hook_inject (tags : list Tag) (req : ProviderRequest) :
  same_fields (handle_inject_tags tags req)
              (inject_tags tags (fst (cleanup_all tags req))).
Proof.
  destruct tags as [|t tags]; [|apply same_fields_refl].
  cbn [handle_inject_tags cleanup_all fst]. unfold inject_tags.
  cbn [group_tags by_position_init bucket]. eval_str_eqb. now split.
Qed.

Lemma normalise_occurs (d s : str) :
  d <> [] -> ~ In nl d -> occurs d (normalise s) -> occurs d s.
Proof.
  intros Hne Hnl H. unfold normalise in H. apply strip_occurs in H.
  exact (collapse_from_occurs d Hne Hnl _ _ H).
Qed.

Lemma settled_free (tags : list Tag) (req : ProviderRequest) :
  registry_separate tags ->
  header_free tags (prompt req) ->
  header_free tags (system_prompt req) ->
  header_free tags (prompt (settled tags req))
  /\ header_free tags (system_prompt (settled tags req)).
Proof.
  intros Hsep Hp Hs. unfold settled. cbn [prompt system_prompt].
  split.
  - destruct (tags_at (lit "user_message_before") tags
              ++ tags_at (lit "user_message_after") tags) as [|c l];
      [exact Hp|].
    intros t Ht H. cbn [or_default] in H.
    destruct (registry_header tags Hsep t Ht) as [Hne Hnl].
    apply (Hp t Ht). exact (normalise_occurs _ _ Hne Hnl H).
  - destruct (tags_at (lit "system_prompt") tags) as [|c l]; [exact Hs|].
    intros t Ht H. cbn [or_default] in H.
    destruct (registry_header tags Hsep t Ht) as [Hne Hnl].
    apply (Hs t Ht). exact (normalise_occurs _ _ Hne Hnl H).
Qed.

Lemma settled_settled (tags : list Tag) (req : ProviderRequest) :
  same_fields (settled tags (settled tags req)) (settled tags req).
Proof.
  unfold settled, same_fields. cbn [prompt system_prompt].
  split.
  - destruct (tags_at (lit "user_message_before") tags
              ++ tags_at (lit "user_message_after") tags); [reflexivity|].
    cbn [or_default]. now rewrite normalise_idem.
  - destruct (tags_at (lit "system_prompt") tags); [reflexivity|].
    cbn [or_default]. now rewrite normalise_idem.
Qed.

(** One run of the hook on a request whose fields are those the injection
    left. *)
Lemma hook_after_injection (tags : list Tag) (r0 r : ProviderRequest) :
  registry_separate tags ->
  header_free tags (prompt r) ->
  header_free tags (system_prompt r) ->
  same_fields r0 (inject_tags tags r) ->
  same_fields (handle_inject_tags tags r0)
              (inject_tags tags (settled tags r)).
Proof.
  intros Hsep Hp Hs H0.
  eapply same_fields_trans; [apply hook_inject|].
  apply inject_fields_ext.
  eapply same_fields_trans; [apply cleanup_fields_ext, H0|].
  now apply round_trip_fields.
Qed.

Lemma same_fields_sym (r1 r2 : ProviderRequest) :
  same_fields r1 r2 -> same_fields r2 r1.
Proof. intros [A B]. now split. Qed.

Lemma cleanup_free_fields (tags : list Tag) (req : ProviderRequest) :
  header_free tags (prompt req) ->
  header_free tags (system_prompt req) ->
  same_fields (fst (cleanup_all tags req)) req.
Proof.
  intros Hp Hs. destruct (cleanup_all_fields tags req) as [A B].
  split; [rewrite A|rewrite B]; now apply (clean_fold_free tags tags).
Qed.

(** X21: from turn to turn.  For a registry of tags that do not
    interfere and a request whose user prompt and system prompt hold no
    header of the registry: the first run of the hook leaves the two
    fields as the injection alone would; a second run on the result
    leaves them as the injection into the normal forms of the texts; and
    from then on a further run changes neither field, so that no block
    accumulates. *)
Theorem X21_fields_settle (tags : list Tag) (req : ProviderRequest) :
  registry_separate tags ->
  header_free tags (prompt req) ->
  header_free tags (system_prompt req) ->
  same_fields (handle_inject_tags tags req) (inject_tags tags req)
  /\ same_fields (handle_inject_tags tags (handle_inject_tags tags req))
                 (inject_tags tags (settled tags req))
  /\ same_fields
       (handle_inject_tags tags
          (handle_inject_tags tags (handle_inject_tags tags req)))
       (handle_inject_tags tags (handle_inject_tags tags req)).
Proof.
  intros Hsep Hp Hs.
  assert (H1 : same_fields (handle_inject_tags tags req)
                 (inject_tags tags req)).
  { eapply same_fields_trans; [apply hook_inject|].
    now apply inject_fields_ext, cleanup_free_fields. }
  assert (H2 : same_fields
                 (handle_inject_tags tags (handle_inject_tags tags req))
                 (inject_tags tags (settled tags req)))
    by now apply hook_after_injection.
  split; [exact H1|]. split; [exact H2|].
  destruct (settled_free tags req Hsep Hp Hs) as [Hp' Hs'].
  eapply same_fields_trans;
    [exact (hook_after_injection tags _ (settled tags req) Hsep Hp' Hs' H2)|].
  eapply same_fields_trans; [|apply same_fields_sym, H2].
  apply inject_fields_ext, settled_settled.
Qed.

Lemma X21_witness :
  registry_separate trio
  /\ prompt (handle_inject_tags trio
               (handle_inject_tags trio
                  (handle_inject_tags trio plain_request)))
     = prompt (handle_inject_tags trio
                 (handle_inject_tags trio plain_request)).
Proof.
  split; [exact trio_separate|].
  exact (proj1 (proj2 (proj2 (X21_fields_settle trio plain_request
                                trio_separate
                                (proj1 plain_request_free)
                                (proj2 plain_request_free))))).
Defined.

(** ** The history of the next turn *)

Lemma clean_contexts_flat_map (t : Tag) (msgs : list pyval) :
  fst (clean_contexts t msgs)
  = flat_map (fun m => option_list (fst (clean_message t m))) msgs.
Proof.
  induction msgs as [|m msgs IH]; [reflexivity|].
  rewrite clean_contexts_cons. cbn [flat_map]. rewrite IH.
  now destruct (fst (clean_message t m)).
Qed.

Lemma remove_contexts (t : Tag) (req : ProviderRequest) :
  contexts (fst (_remove_tags_from_context t req))
  = option_map (fun msgs => fst (clean_contexts t msgs)) (contexts req).
Proof.
  destruct req as [sp pr cx]. unfold _remove_tags_from_context.
  cbn [system_prompt prompt contexts].
  destruct (clean_field t sp) as [sp' n1].
  destruct (clean_field t pr) as [pr' n2].
  destruct cx as [[|m msgs]|]; try reflexivity.
  cbn [option_map].
  destruct (clean_contexts t (m :: msgs)) as [f n] eqn:E.
  reflexivity.
Qed.

Lemma survivors_nil (msgs : list pyval) : survivors [] msgs = msgs.
Proof.
  induction msgs as [|m msgs IH]; [reflexivity|].
  change (survivors [] (m :: msgs)) with (m :: survivors [] msgs).
  now rewrite IH.
Qed.

Lemma survivors_cons (t : Tag) (tags : list Tag) (msgs : list pyval) :
  survivors (t :: tags) msgs
  = survivors tags (fst (clean_contexts t msgs)).
Proof.
  rewrite clean_contexts_flat_map. unfold survivors.
  induction msgs as [|m msgs IH]; [reflexivity|].
  cbn [flat_map]. rewrite flat_map_app, <- IH. f_equal.
  cbn [message_fold].
  destruct (fst (clean_message t m)) as [m'|]; cbn [option_list flat_map].
  - now rewrite app_nil_r.
  - reflexivity.
Qed.

(** The history after the cleanup phase, entry by entry. *)
Lemma cleanup_all_contexts (tags : list Tag) :
  forall req,
    contexts (fst (cleanup_all tags req))
    = option_map (survivors tags) (contexts req).
Proof.
  induction tags as [|t tags IH]; intros req.
  - cbn [cleanup_all fst]. destruct (contexts req) as [msgs|]; [|reflexivity].
    cbn [option_map]. now rewrite survivors_nil.
  - rewrite cleanup_all_cons. cbn [fst]. rewrite IH, remove_contexts.
    destruct (contexts req) as [msgs|]; [|reflexivity].
    cbn [option_map]. now rewrite survivors_cons.
Qed.

Lemma survivors_app (tags : list Tag) (a b : list pyval) :
  survivors tags (a ++ b) = survivors tags a ++ survivors tags b.
Proof. unfold survivors. apply flat_map_app. Qed.

Lemma dict_set_set (k : str) (v w : pyval) (d : list (str * pyval)) :
  dict_set k v (dict_set k w d) = dict_set k v d.
Proof.
  induction d as [|[k0 x] d IH]; cbn [dict_set].
  - now rewrite str_eqb_refl.
  - destruct (str_eqb k0 k) eqn:E; cbn [dict_set]; rewrite E;
      [reflexivity|now rewrite IH].
Qed.

(** The cleanup of an entry follows the cleanup of its text. *)
Lemma clean_message_entry (t : Tag) (d : option (list (str * pyval)))
  (s : str) :
  fst (clean_message t (entry_with d s))
  = match clean_text t s with
    | Dropped => None
    | Replaced c => Some (entry_with d c)
    | Kept => Some (entry_with d s)
    end.
Proof.
  destruct d as [d|]; cbn [entry_with clean_message].
  - rewrite dict_get_set_same.
    destruct (clean_text t s); cbn [fst]; try reflexivity.
    now rewrite dict_set_set.
  - now destruct (clean_text t s).
Qed.

Section RegistryHistory.

Variable tags : list Tag.
Hypothesis separate : registry_separate tags.
Variable d : option (list (str * pyval)).

Lemma render_nonempty (W0 : str) (items : list (Tag * str)) :
  items <> [] -> Forall (fun i => In (fst i) tags) items ->
  is_empty (render W0 items) = false.
Proof.
  intros Hne Hall. destruct items as [|[c W] rest]; [now contradiction Hne|].
  inversion Hall as [|? ? Hc _]; subst. cbn [fst] in Hc.
  cbn [render].
  destruct (core_ends c (registry_tag_ok tags separate c Hc)) as (M & ->).
  now destruct W0.
Qed.

(** An entry with a laid out text through the cleanup for the tags in
    turn: the blocks go, and the entry goes with them when nothing else
    is left. *)
Lemma message_fold_laid (rest : list Tag) :
  NoDup rest -> (forall t, In t rest -> In t tags) ->
  forall W0 items,
    laid tags W0 items ->
    (forall c, In c (map fst items) -> In c rest) ->
    message_fold rest (entry_with d (render W0 items))
    = match items with
      | [] => Some (entry_with d W0)
      | _ :: _ =>
          if is_empty (normalise (flat W0 items)) then None
          else Some (entry_with d (normalise (flat W0 items)))
      end.
Proof.
  induction rest as [|t rest IH]; intros Hnd Hsub W0 items Hl Hin.
  - destruct items as [|[c W] items']; [reflexivity|].
    contradiction (Hin c). now left.
  - inversion Hnd as [|? ? Hnt Hnd']; subst.
    assert (Ht : In t tags) by (apply Hsub; now left).
    assert (Hsub' : forall t', In t' rest -> In t' tags)
      by (intros t' H'; apply Hsub; now right).
    cbn [message_fold]. rewrite clean_message_entry.
    destruct (in_dec Tag_eq_dec t (map fst items)) as [Hi|Hi].
    + destruct (in_map_fst_split t items Hi) as (I1 & W & I2 & ->).
      destruct (clean_laid_present tags separate t W0 W I1 I2 Ht Hl)
        as (U & I & Hb & E & Hlen & HlU & Hm & Hflat & Hnorm).
      assert (Hrest : forall c, In c (map fst I) -> In c rest).
      { intros c Hc. rewrite Hm in Hc.
        destruct Hl as (_ & _ & HndI). rewrite map_app in HndI.
        cbn [map fst] in HndI.
        assert (Hc' : In c (map fst (I1 ++ (t, W) :: I2))).
        { rewrite map_app. cbn [map fst]. apply in_or_app.
          apply in_app_or in Hc as [Hc|Hc]; [now left|right; now right]. }
        destruct (Hin c Hc') as [<-|Hr]; [|exact Hr].
        now contradiction (NoDup_remove_2 _ _ _ HndI). }
      assert (Hne : str_eqb (render U I) (render W0 (I1 ++ (t, W) :: I2))
                    = false).
      { apply str_eqb_neq. intros Heq. rewrite Heq in Hlen. lia. }
      unfold clean_text. rewrite Hb, E, Hne. cbn [negb].
      destruct (I1 ++ (t, W) :: I2) as [|i0 l0] eqn:Ei;
        [now destruct I1|]. rewrite <- Hflat.
      destruct I as [|i I'].
      * cbn [render flat] in *. rewrite Hnorm.
        destruct (is_empty U) eqn:EU; [reflexivity|].
        exact (IH Hnd' Hsub' U [] HlU Hrest).
      * rewrite render_nonempty;
          [|discriminate|apply items_ok_tags; now destruct HlU as (_ & H & _)].
        now rewrite (IH Hnd' Hsub' U (i :: I') HlU Hrest).
    + assert (Hb : both_present t (render W0 items) = false).
      { destruct Hl as (H0 & Hok & _). unfold both_present.
        assert (H : Py.contains (header t) (render W0 items) = false)
          by (apply contains_false;
              now apply (render_header_free tags separate)).
        now rewrite H. }
      rewrite (clean_text_absent t _ Hb).
      apply (IH Hnd' Hsub' W0 items Hl).
      intros c Hc. destruct (Hin c Hc) as [<-|Hr]; [contradiction|exact Hr].
Qed.

(** The entry that holds a text with the blocks of the registry before
    and behind it. *)
Lemma message_fold_blocks (Bs As : list Tag) (x : str) :
  (forall t, In t (Bs ++ As) -> In t tags) ->
  NoDup (Bs ++ As) -> Bs ++ As <> [] ->
  gap_free tags x ->
  message_fold tags
    (entry_with d (blocks_before Bs ++ x ++ blocks_behind As))
  = if is_empty (normalise x) then None
    else Some (entry_with d (normalise x)).
Proof.
  intros Hin Hnd Hne Hx.
  assert (HA : items_ok tags (joined_items As))
    by (apply (joined_items_ok tags separate);
        intros t Ht; apply Hin, in_or_app; now right).
  assert (HB : items_ok tags (joined_items Bs))
    by (apply (joined_items_ok tags separate);
        intros t Ht; apply Hin, in_or_app; now left).
  destruct (post_gap_newlines As) as (j & Ej).
  rewrite blocks_behind_render.
  destruct Bs as [|b Bs'].
  - cbn [blocks_before app] in *.
    rewrite (message_fold_laid tags (registry_nodup tags separate)
               (fun t H => H)).
    + destruct (joined_items As) as [|i l] eqn:Ei.
      { apply (f_equal (map fst)) in Ei. rewrite joined_items_tags in Ei.
        now contradiction Hne. }
      rewrite <- Ei.
      destruct (joined_items_flat As (x ++ post_gap As)) as (k & ->).
      rewrite Ej, <- app_assoc, <- repeat_app.
      assert (N := normalise_padded x 0 (j + k)).
      cbn [repeat app] in N. now rewrite N.
    + split; [|split; [exact HA|now rewrite joined_items_tags]].
      rewrite Ej. exact (gap_free_padded tags separate x 0 j Hx).
    + intros c Hc. rewrite joined_items_tags in Hc. now apply Hin.
  - unfold blocks_before. rewrite joined_items_render by discriminate.
    replace ((render [] (joined_items (b :: Bs')) ++ blank_line)
             ++ render (x ++ post_gap As) (joined_items As))
      with (render [] (joined_items (b :: Bs'))
            ++ render (blank_line ++ x ++ post_gap As) (joined_items As))
      by (rewrite (render_nil_gap (blank_line ++ x ++ post_gap As)),
            (render_nil_gap (x ++ post_gap As)); now app_norm).
    rewrite render_glue.
    assert (Hmid : gap_free tags (blank_line ++ x ++ post_gap As)).
    { rewrite Ej. exact (gap_free_padded tags separate x 2 j Hx). }
    assert (Hsm : gap_sep (blank_line ++ x ++ post_gap As)) by reflexivity.
    destruct (on_last_ok tags
                (fun X => X ++ blank_line ++ x ++ post_gap As)
                (fun X HX => gap_free_app tags separate X _ HX Hmid Hsm)
                (fun X HX => gap_sep_app X _ HX Hsm)
                (joined_items (b :: Bs')) []
                (newlines_gap_free tags separate 0) HB)
      as [H1 H2].
    rewrite (message_fold_laid tags (registry_nodup tags separate)
               (fun t H => H)).
    + destruct (snd (on_last
                       (fun X => X ++ blank_line ++ x ++ post_gap As) []
                       (joined_items (b :: Bs'))) ++ joined_items As)
        as [|i l] eqn:Ei.
      { apply (f_equal (map fst)) in Ei.
        rewrite map_app, on_last_tags, !joined_items_tags in Ei.
        discriminate. }
      rewrite <- Ei, flat_glue.
      destruct (joined_items_flat (b :: Bs') []) as (i' & ->).
      destruct (joined_items_flat As (blank_line ++ x ++ post_gap As))
        as (k & ->).
      rewrite Ej.
      replace (normalise (([] ++ repeat nl i')
                          ++ (blank_line ++ x ++ repeat nl j)
                          ++ repeat nl k))
        with (normalise x); [reflexivity|].
      transitivity (normalise (repeat nl (i' + 2) ++ x ++ repeat nl (j + k)));
        [symmetry; apply normalise_padded|f_equal].
      rewrite !repeat_app. unfold blank_line. cbn [repeat app].
      now app_norm.
    + split; [exact H1|]. split; [apply items_ok_app; now split|].
      now rewrite map_app, on_last_tags, !joined_items_tags.
    + intros c Hc.
      rewrite map_app, on_last_tags, !joined_items_tags in Hc.
      now apply Hin.
Qed.

End RegistryHistory.

(** X22: the history of the next turn.  For a registry of tags that do
    not interfere, with a tag anchored to the user prompt, and a request
    whose user prompt holds no header of the registry: a history entry (a
    string, or a dict with the text as its content) that holds the user
    prompt the injection left is, after the cleanup for all tags, the same
    entry with the former user text in normal form, all blocks gone; when
    that text is empty the entry is gone.  The entries around it fare as
    they would alone. *)
Theorem X22_history_entry_restored (tags : list Tag) (r : ProviderRequest)
  (d : option (list (str * pyval))) (pre post : list pyval)
  (sp pr : option str) :
  registry_separate tags ->
  header_free tags (prompt r) ->
  tags_at (lit "user_message_before") tags
  ++ tags_at (lit "user_message_after") tags <> [] ->
  contexts
    (fst (cleanup_all tags
            {| system_prompt := sp; prompt := pr;
               contexts :=
                 Some (pre
                       ++ entry_with d
                            (or_default [] (prompt (inject_tags tags r)))
                       :: post) |}))
  = Some (survivors tags pre
          ++ (if is_empty (normalise (or_default [] (prompt r))) then []
              else [entry_with d (normalise (or_default [] (prompt r)))])
          ++ survivors tags post).
Proof.
  intros Hsep Hp Hne.
  rewrite cleanup_all_contexts. cbn [contexts option_map]. f_equal.
  rewrite survivors_app. f_equal.
  change (survivors tags (?m :: post))
    with (option_list (message_fold tags m) ++ survivors tags post).
  f_equal.
  rewrite (inject_tags_ok tags r (separate_positions tags Hsep)).
  rewrite injected_prompt.
  destruct (tags_at (lit "user_message_before") tags
            ++ tags_at (lit "user_message_after") tags) as [|c l] eqn:E;
    [now contradiction Hne|].
  cbn [or_default]. rewrite (message_fold_blocks tags Hsep d).
  - now destruct (is_empty _).
  - intros t Ht. apply in_app_or in Ht as [Ht|Ht];
      now apply tags_at_in in Ht.
  - apply NoDup_app;
      try (apply NoDup_filter; exact (registry_nodup tags Hsep)).
    intros t H1 H2. apply tags_at_in in H1 as [_ E1].
    apply tags_at_in in H2 as [_ E2]. rewrite E1 in E2. discriminate.
  - rewrite E. discriminate.
  - exact Hp.
Qed.

Lemma X22_witness :
  registry_separate trio
  /\ contexts (fst (cleanup_all trio (with_contexts next_history)))
     = Some [VStr (lit "earlier");
             VDict [(lit "role", VStr (lit "user"));
                    (lit "content",
                     VStr (lit "Hi" ++ [nl; nl] ++ lit "there"))];
             user_message (VStr (lit "later"))].
Proof.
  split; [exact trio_separate|].
  assert (Hne : tags_at (lit "user_message_before") trio
                ++ tags_at (lit "user_message_after") trio <> [])
    by discriminate.
  exact (eq_trans
           (X22_history_entry_restored trio plain_request
              (Some [(lit "role", VStr (lit "user"))])
              [VStr (lit "earlier")] [user_message (VStr (lit "later"))]
              None None trio_separate (proj1 plain_request_free) Hne)
           eq_refl).
Defined.
